(** * libcni and utils: configuration loading, injection and chain names

    A shallow embedding of the Go sources

    - [utils/utils.go]   : [FormatChainName];
    - package [libcni], the engine: [RuntimeConf], [NetworkConfig],
                           [CNIConfig], [AddNetwork], [DelNetwork],
                           [execPlugin];
    - package [libcni_test] : the scenarios exercised against [LoadConf],
                           [LoadConfList] and [InjectConf].

    Go strings and byte slices are sequences of 8-bit bytes; both are
    rendered as [string] (a list of [ascii]).  64-bit words are [Z] with the
    wrap-around written out. *)

From Stdlib Require Import ZArith List String Ascii Bool Lia.
From Stdlib Require Import Sorted Permutation.
From Stdlib Require Import Decimal DecimalString DecimalZ DecimalFacts.
Import ListNotations.

Set Warnings "-register-all".
Local Open Scope Z_scope.

(* ================================================================== *)
(** * Part I: definitions                                              *)
(* ================================================================== *)

(** ** [crypto/sha512] *)

(** [sha512.Sum512] belongs to the Go standard library.  It is rendered
    here after FIPS 180-4 (section 6.4), so that [FormatChainName] can be
    evaluated on concrete inputs. *)
Module Sha512.

Definition wordmax : Z := 2 ^ 64.

Definition add64 (x y : Z) : Z := (x + y) mod wordmax.

Definition rotr (n x : Z) : Z :=
  Z.lor (Z.shiftr x n) ((Z.shiftl x (64 - n)) mod wordmax).

Definition not64 (x : Z) : Z := Z.lxor x (wordmax - 1).

Definition Ch (x y z : Z) : Z :=
  Z.lxor (Z.land x y) (Z.land (not64 x) z).

Definition Maj (x y z : Z) : Z :=
  Z.lxor (Z.lxor (Z.land x y) (Z.land x z)) (Z.land y z).

Definition Sigma0 (x : Z) : Z :=
  Z.lxor (Z.lxor (rotr 28 x) (rotr 34 x)) (rotr 39 x).

Definition Sigma1 (x : Z) : Z :=
  Z.lxor (Z.lxor (rotr 14 x) (rotr 18 x)) (rotr 41 x).

Definition sigma0 (x : Z) : Z :=
  Z.lxor (Z.lxor (rotr 1 x) (rotr 8 x)) (Z.shiftr x 7).

Definition sigma1 (x : Z) : Z :=
  Z.lxor (Z.lxor (rotr 19 x) (rotr 61 x)) (Z.shiftr x 6).

Definition K : list Z :=
  [ 0x428a2f98d728ae22; 0x7137449123ef65cd; 0xb5c0fbcfec4d3b2f; 0xe9b5dba58189dbbc;
    0x3956c25bf348b538; 0x59f111f1b605d019; 0x923f82a4af194f9b; 0xab1c5ed5da6d8118;
    0xd807aa98a3030242; 0x12835b0145706fbe; 0x243185be4ee4b28c; 0x550c7dc3d5ffb4e2;
    0x72be5d74f27b896f; 0x80deb1fe3b1696b1; 0x9bdc06a725c71235; 0xc19bf174cf692694;
    0xe49b69c19ef14ad2; 0xefbe4786384f25e3; 0x0fc19dc68b8cd5b5; 0x240ca1cc77ac9c65;
    0x2de92c6f592b0275; 0x4a7484aa6ea6e483; 0x5cb0a9dcbd41fbd4; 0x76f988da831153b5;
    0x983e5152ee66dfab; 0xa831c66d2db43210; 0xb00327c898fb213f; 0xbf597fc7beef0ee4;
    0xc6e00bf33da88fc2; 0xd5a79147930aa725; 0x06ca6351e003826f; 0x142929670a0e6e70;
    0x27b70a8546d22ffc; 0x2e1b21385c26c926; 0x4d2c6dfc5ac42aed; 0x53380d139d95b3df;
    0x650a73548baf63de; 0x766a0abb3c77b2a8; 0x81c2c92e47edaee6; 0x92722c851482353b;
    0xa2bfe8a14cf10364; 0xa81a664bbc423001; 0xc24b8b70d0f89791; 0xc76c51a30654be30;
    0xd192e819d6ef5218; 0xd69906245565a910; 0xf40e35855771202a; 0x106aa07032bbd1b8;
    0x19a4c116b8d2d0c8; 0x1e376c085141ab53; 0x2748774cdf8eeb99; 0x34b0bcb5e19b48a8;
    0x391c0cb3c5c95a63; 0x4ed8aa4ae3418acb; 0x5b9cca4f7763e373; 0x682e6ff3d6b2b8a3;
    0x748f82ee5defb2fc; 0x78a5636f43172f60; 0x84c87814a1f0ab72; 0x8cc702081a6439ec;
    0x90befffa23631e28; 0xa4506cebde82bde9; 0xbef9a3f7b2c67915; 0xc67178f2e372532b;
    0xca273eceea26619c; 0xd186b8c721c0c207; 0xeada7dd6cde0eb1e; 0xf57d4f7fee6ed178;
    0x06f067aa72176fba; 0x0a637dc5a2c898a6; 0x113f9804bef90dae; 0x1b710b35131c471b;
    0x28db77f523047d84; 0x32caab7b40c72493; 0x3c9ebe0a15c9bebc; 0x431d67c49c100d4c;
    0x4cc5d4becb3e42b6; 0x597f299cfc657e2a; 0x5fcb6fab3ad6faec; 0x6c44198c4a475817 ].

(** The eight working variables, equally the chaining value. *)
Record digest : Type := Digest {
  h0 : Z; h1 : Z; h2 : Z; h3 : Z; h4 : Z; h5 : Z; h6 : Z; h7 : Z
}.

Definition init : digest :=
  Digest 0x6a09e667f3bcc908 0xbb67ae8584caa73b 0x3c6ef372fe94f82b
         0xa54ff53a5f1d36f1 0x510e527fade682d1 0x9b05688c2b3e6c1f
         0x1f83d9abfb41bd6b 0x5be0cd19137e2179.

(** Big-endian conversions between words and bytes. *)
Definition be_word (bs : list Z) : Z :=
  fold_left (fun acc b => acc * 256 + b) bs 0.

Definition byte_at (w : Z) (i : Z) : Z :=
  Z.land (Z.shiftr w (8 * i)) 255.

Definition be_bytes8 (w : Z) : list Z :=
  [ byte_at w 7; byte_at w 6; byte_at w 5; byte_at w 4;
    byte_at w 3; byte_at w 2; byte_at w 1; byte_at w 0 ].

(** Padding: a [1] bit, zeros up to 112 modulo 128 bytes, then the
    message length in bits as a 128-bit big-endian number. *)
Definition pad (msg : list Z) : list Z :=
  let len := Z.of_nat (List.length msg) in
  let k := (111 - len) mod 128 in
  msg ++ [128] ++ repeat 0 (Z.to_nat k)
      ++ be_bytes8 (Z.shiftr (8 * len) 64)
      ++ be_bytes8 ((8 * len) mod wordmax).

Fixpoint words (n : nat) (bs : list Z) : list Z :=
  match n with
  | O => []
  | S n' => be_word (firstn 8 bs) :: words n' (skipn 8 bs)
  end.

(** Message schedule: [W] grows from 16 to 80 words. *)
Fixpoint schedule (n : nat) (w : list Z) : list Z :=
  match n with
  | O => w
  | S n' =>
      let t := List.length w in
      let at_ (i : nat) := nth (t - i) w 0 in
      let x := add64 (add64 (sigma1 (at_ 2%nat)) (at_ 7%nat))
                     (add64 (sigma0 (at_ 15%nat)) (at_ 16%nat)) in
      schedule n' (w ++ [x])
  end.

Definition round (st : digest) (kw : Z * Z) : digest :=
  let (k, w) := kw in
  let t1 := add64 (add64 (add64 (h7 st) (Sigma1 (h4 st)))
                         (add64 (Ch (h4 st) (h5 st) (h6 st)) k)) w in
  let t2 := add64 (Sigma0 (h0 st)) (Maj (h0 st) (h1 st) (h2 st)) in
  Digest (add64 t1 t2) (h0 st) (h1 st) (h2 st)
         (add64 (h3 st) t1) (h4 st) (h5 st) (h6 st).

Definition compress (st : digest) (block : list Z) : digest :=
  let w := schedule 64 (words 16 block) in
  let r := fold_left round (combine K w) st in
  Digest (add64 (h0 st) (h0 r)) (add64 (h1 st) (h1 r))
         (add64 (h2 st) (h2 r)) (add64 (h3 st) (h3 r))
         (add64 (h4 st) (h4 r)) (add64 (h5 st) (h5 r))
         (add64 (h6 st) (h6 r)) (add64 (h7 st) (h7 r)).

Fixpoint blocks (n : nat) (bs : list Z) (st : digest) : digest :=
  match n with
  | O => st
  | S n' => blocks n' (skipn 128 bs) (compress st (firstn 128 bs))
  end.

Definition digest_bytes (d : digest) : list Z :=
  be_bytes8 (h0 d) ++ be_bytes8 (h1 d) ++ be_bytes8 (h2 d) ++ be_bytes8 (h3 d)
  ++ be_bytes8 (h4 d) ++ be_bytes8 (h5 d) ++ be_bytes8 (h6 d) ++ be_bytes8 (h7 d).

(** [func Sum512(data []byte) [Size]byte] *)
Definition Sum512 (data : list Z) : list Z :=
  let p := pad data in
  digest_bytes (blocks (List.length p / 128) p init).

End Sha512.

(** ** Byte strings and formatting helpers *)

Definition bytes_of_string (s : string) : list Z :=
  map (fun c => Z.of_N (N_of_ascii c)) (list_ascii_of_string s).

Definition hex_digit (n : Z) : ascii :=
  if n <? 10 then ascii_of_N (Z.to_N (48 + n))
  else ascii_of_N (Z.to_N (87 + n)).

(** The verb [%x] of [fmt.Sprintf] on a byte array: two lower-case
    hexadecimal digits for every byte. *)
Fixpoint hex_of_bytes (bs : list Z) : string :=
  match bs with
  | [] => EmptyString
  | b :: bs' =>
      String (hex_digit (b / 16)) (String (hex_digit (b mod 16)) (hex_of_bytes bs'))
  end.

Definition is_lower_hex (c : ascii) : bool :=
  let n := N_of_ascii c in
  (((48 <=? n) && (n <=? 57)) || ((97 <=? n) && (n <=? 102)))%N.

(** A Go slice expression [s[:n]] on a string; out of range it panics,
    which is [None] here. *)
Definition slice_to (s : string) (n : nat) : option string :=
  if (n <=? String.length s)%nat then Some (substring 0 n s) else None.

(** ** [utils/utils.go] *)
Module Utils.

Definition maxChainLength : nat := 28.
Definition chainPrefix : string := "CNI-".
Definition prefixLength : nat := String.length chainPrefix.

(** [func FormatChainName(name string, id string) string]; [None] stands
    for the run-time panic of an out-of-range slice. *)
Definition FormatChainName (name id : string) : option string :=
  let chainBytes := Sha512.Sum512 (bytes_of_string (name ++ id)) in
  let chain := (chainPrefix ++ hex_of_bytes chainBytes)%string in
  slice_to chain maxChainLength.

End Utils.

Local Open Scope string_scope.

(** ** Results and errors *)

(** Go functions returning [(T, error)] become functions into [res E T]. *)
Inductive res (E A : Type) : Type :=
| Ok (a : A)
| Err (e : E).

Arguments Ok {E A} a.
Arguments Err {E A} e.

Definition bind {E A B : Type} (r : res E A) (f : A -> res E B) : res E B :=
  match r with
  | Ok a => f a
  | Err e => Err e
  end.

Notation "x <- r ;; k" := (bind r (fun x => k))
  (at level 61, r at next level, right associativity).
Notation "' p <- r ;; k" := (bind r (fun x => let 'p := x in k))
  (at level 61, p pattern, r at next level, right associativity).

(** Characters that cannot be written inside a literal. *)
Definition dquote : ascii := "034"%char.
Definition backslash : ascii := "092"%char.
Definition quoted (s : string) : string :=
  String dquote (s ++ String dquote EmptyString).

(** ** Maps with string keys, kept sorted

    A Go [map[string]T] has no order of its own and [json.Marshal] emits its
    keys sorted byte-wise.  The map is therefore kept as an association list
    in strictly increasing key order; an assignment [m[k] = v] either
    overwrites or inserts in place. *)
Module SMap.

Section Ops.
Context {A : Type}.

Fixpoint set (k : string) (v : A) (m : list (string * A)) : list (string * A) :=
  match m with
  | [] => [(k, v)]
  | (k', v') :: m' =>
      match String.compare k k' with
      | Lt => (k, v) :: m
      | Eq => (k, v) :: m'
      | Gt => (k', v') :: set k v m'
      end
  end.

Fixpoint get (k : string) (m : list (string * A)) : option A :=
  match m with
  | [] => None
  | (k', v') :: m' => if String.eqb k k' then Some v' else get k m'
  end.

Definition lt_key (x y : string * A) : Prop :=
  String.compare (fst x) (fst y) = Lt.

Definition sorted (m : list (string * A)) : Prop :=
  StronglySorted lt_key m.
End Ops.

End SMap.

(** ** [encoding/json]

    [json.Unmarshal] into [interface{}] or [map[string]interface{}] and
    [json.Marshal] of such values belong to the Go standard library.  They
    are rendered on a fragment of JSON: objects, arrays, strings with all
    escapes except surrogates, integers, [true], [false] and [null].
    Numbers with a fraction or an exponent and surrogate escapes are valid
    JSON outside this fragment; they are reported as [OutsideFragment].
    Integers are kept as they are written (Go goes through [float64], which
    is the same up to 2^53).  Strings are byte strings, taken to hold valid
    UTF-8 without U+2028 and U+2029 (which Go replaces or escapes). *)
Module Json.

(** A decoded [interface{}].  An [Obj] coming out of the decoder stands for
    a Go map and has its keys sorted; an [Obj] built by a caller may stand
    for a struct and lists its fields in declaration order. *)
Inductive value : Type :=
| Null
| Bool (b : bool)
| Num (n : Z)
| Str (s : string)
| Arr (l : list value)
| Obj (m : list (string * value)).

Inductive error : Type :=
| UnexpectedEnd
| InvalidCharacter
| TypeMismatch
| OutsideFragment
| OutOfFuel.

(** The message of the Go error; the offending character and the Go type
    names, which the library appends, are left out. *)
Definition error_text (e : error) : string :=
  match e with
  | UnexpectedEnd => "unexpected end of JSON input"
  | InvalidCharacter => "invalid character"
  | TypeMismatch => "json: cannot unmarshal value into Go value"
  | OutsideFragment => "json: value outside the supported fragment"
  | OutOfFuel => "json: parser out of fuel"
  end.

(** *** Lexical helpers *)

Definition is_ws (c : ascii) : bool :=
  (c =? " ")%char || (c =? "009")%char || (c =? "010")%char || (c =? "013")%char.

Fixpoint skip_ws (s : string) : string :=
  match s with
  | String c r => if is_ws c then skip_ws r else s
  | EmptyString => s
  end.

Definition is_digit (c : ascii) : bool :=
  let n := N_of_ascii c in ((48 <=? n) && (n <=? 57))%N.

Definition hex_val (c : ascii) : option N :=
  let n := N_of_ascii c in
  if ((48 <=? n) && (n <=? 57))%N then Some (n - 48)%N
  else if ((97 <=? n) && (n <=? 102))%N then Some (n - 87)%N
  else if ((65 <=? n) && (n <=? 70))%N then Some (n - 55)%N
  else None.

Definition hex4 (a b c d : ascii) : option N :=
  match hex_val a, hex_val b, hex_val c, hex_val d with
  | Some x, Some y, Some z, Some w => Some (((x * 16 + y) * 16 + z) * 16 + w)%N
  | _, _, _, _ => None
  end.

Definition is_surrogate (n : N) : bool := ((55296 <=? n) && (n <? 57344))%N.

(** UTF-8 encoding of a code point of the basic plane. *)
Definition utf8 (n : N) : string :=
  if (n <? 128)%N then String (ascii_of_N n) EmptyString
  else if (n <? 2048)%N then
    String (ascii_of_N (192 + n / 64))
      (String (ascii_of_N (128 + n mod 64)) EmptyString)
  else
    String (ascii_of_N (224 + n / 4096))
      (String (ascii_of_N (128 + (n / 64) mod 64))
        (String (ascii_of_N (128 + n mod 64)) EmptyString)).

Definition unescape (e : ascii) : option ascii :=
  if (e =? dquote)%char then Some dquote
  else if (e =? backslash)%char then Some backslash
  else if (e =? "/")%char then Some "/"%char
  else if (e =? "b")%char then Some "008"%char
  else if (e =? "f")%char then Some "012"%char
  else if (e =? "n")%char then Some "010"%char
  else if (e =? "r")%char then Some "013"%char
  else if (e =? "t")%char then Some "009"%char
  else None.

Definition all_hex (s : string) : bool :=
  forallb (fun c => match hex_val c with Some _ => true | None => false end)
          (list_ascii_of_string s).

(** The body of a string literal, after its opening quote: the decoded
    text and the input left after the closing quote. *)
Fixpoint scan_string (s : string) : res error (string * string) :=
  match s with
  | EmptyString => Err UnexpectedEnd
  | String c r =>
      if (c =? dquote)%char then Ok (EmptyString, r)
      else if (c =? backslash)%char then
        match r with
        | EmptyString => Err UnexpectedEnd
        | String e r1 =>
            if (e =? "u")%char then
              match r1 with
              | String x1 (String x2 (String x3 (String x4 r2))) =>
                  match hex4 x1 x2 x3 x4 with
                  | Some n =>
                      if is_surrogate n then Err OutsideFragment
                      else '(t, rest) <- scan_string r2 ;; Ok ((utf8 n ++ t)%string, rest)
                  | None => Err InvalidCharacter
                  end
              | _ => if all_hex r1 then Err UnexpectedEnd else Err InvalidCharacter
              end
            else
              match unescape e with
              | Some ch => '(t, rest) <- scan_string r1 ;; Ok (String ch t, rest)
              | None => Err InvalidCharacter
              end
        end
      else if (N_of_ascii c <? 32)%N then Err InvalidCharacter
      else '(t, rest) <- scan_string r ;; Ok (String c t, rest)
  end.

Definition push_digit (c : ascii) (u : Decimal.uint) : Decimal.uint :=
  match DecimalString.uint_of_char c (Some u) with
  | Some u' => u'
  | None => u
  end.

(** The longest run of decimal digits at the head of the input. *)
Fixpoint scan_digits (s : string) : Decimal.uint * string :=
  match s with
  | String c r =>
      if is_digit c then
        let (u, rest) := scan_digits r in (push_digit c u, rest)
      else (Decimal.Nil, s)
  | EmptyString => (Decimal.Nil, s)
  end.

Definition starts_fraction (s : string) : bool :=
  match s with
  | String c _ => (c =? ".")%char || (c =? "e")%char || (c =? "E")%char
  | EmptyString => false
  end.

(** An integer literal: an optional sign, then [0] or a run of digits that
    does not start with [0]. *)
Definition scan_number (s : string) : res error (Z * string) :=
  let '(neg, body) :=
    match s with
    | String c r => if (c =? "-")%char then (true, r) else (false, s)
    | EmptyString => (false, s)
    end in
  let (u, rest) := scan_digits body in
  match u with
  | Decimal.Nil =>
      match body with
      | EmptyString => Err UnexpectedEnd
      | _ => Err InvalidCharacter
      end
  | _ =>
      let d := if neg then Decimal.Neg u else Decimal.Pos u in
      if starts_fraction rest then Err OutsideFragment
      else if Decimal.int_beq (Decimal.norm d) d then Ok (Z.of_int d, rest)
      else match d with
           | Decimal.Neg (Decimal.D0 Decimal.Nil) => Err OutsideFragment
           | _ => Err InvalidCharacter
           end
  end.

(** The rest of a literal name such as [null]. *)
Fixpoint expect (lit s : string) : res error string :=
  match lit with
  | EmptyString => Ok s
  | String c lit' =>
      match s with
      | EmptyString => Err UnexpectedEnd
      | String d r => if (c =? d)%char then expect lit' r else Err InvalidCharacter
      end
  end.

(** *** Decoder *)

Fixpoint parse_value (fuel : nat) (s : string) : res error (value * string) :=
  match fuel with
  | O => Err OutOfFuel
  | S fuel' =>
      match skip_ws s with
      | EmptyString => Err UnexpectedEnd
      | String c r =>
          if (c =? "{")%char then
            match skip_ws r with
            | EmptyString => Err UnexpectedEnd
            | String c1 r1 =>
                if (c1 =? "}")%char then Ok (Obj [], r1)
                else '(m, rest) <- parse_members fuel' [] r ;; Ok (Obj m, rest)
            end
          else if (c =? "[")%char then
            match skip_ws r with
            | EmptyString => Err UnexpectedEnd
            | String c1 r1 =>
                if (c1 =? "]")%char then Ok (Arr [], r1)
                else '(l, rest) <- parse_elems fuel' r ;; Ok (Arr l, rest)
            end
          else if (c =? dquote)%char then
            '(t, rest) <- scan_string r ;; Ok (Str t, rest)
          else if (c =? "n")%char then
            rest <- expect "ull" r ;; Ok (Null, rest)
          else if (c =? "t")%char then
            rest <- expect "rue" r ;; Ok (Bool true, rest)
          else if (c =? "f")%char then
            rest <- expect "alse" r ;; Ok (Bool false, rest)
          else if is_digit c || (c =? "-")%char then
            '(n, rest) <- scan_number (String c r) ;; Ok (Num n, rest)
          else Err InvalidCharacter
      end
  end

with parse_elems (fuel : nat) (s : string) : res error (list value * string) :=
  match fuel with
  | O => Err OutOfFuel
  | S fuel' =>
      '(v, r1) <- parse_value fuel' s ;;
      match skip_ws r1 with
      | EmptyString => Err UnexpectedEnd
      | String c r2 =>
          if (c =? ",")%char then
            '(l, rest) <- parse_elems fuel' r2 ;; Ok (v :: l, rest)
          else if (c =? "]")%char then Ok ([v], r2)
          else Err InvalidCharacter
      end
  end

(** Members are assigned to the map from left to right, so that of two
    members with one key the later one stays. *)
with parse_members (fuel : nat) (acc : list (string * value)) (s : string)
  : res error (list (string * value) * string) :=
  match fuel with
  | O => Err OutOfFuel
  | S fuel' =>
      match skip_ws s with
      | EmptyString => Err UnexpectedEnd
      | String q r =>
          if (q =? dquote)%char then
            '(k, r1) <- scan_string r ;;
            match skip_ws r1 with
            | EmptyString => Err UnexpectedEnd
            | String c r2 =>
                if (c =? ":")%char then
                  '(v, r3) <- parse_value fuel' r2 ;;
                  let acc' := SMap.set k v acc in
                  match skip_ws r3 with
                  | EmptyString => Err UnexpectedEnd
                  | String c' r4 =>
                      if (c' =? ",")%char then parse_members fuel' acc' r4
                      else if (c' =? "}")%char then Ok (acc', r4)
                      else Err InvalidCharacter
                  end
                else Err InvalidCharacter
            end
          else Err InvalidCharacter
      end
  end.

(** [json.Unmarshal(data, &v)] for [v] of type [interface{}]: one value,
    then nothing but white space.  The fuel is never used up: of two
    nested calls of the parser at least one consumes a character. *)
Definition decode (s : string) : res error value :=
  '(v, rest) <- parse_value (2 * String.length s + 2) s ;;
  match skip_ws rest with
  | EmptyString => Ok v
  | _ => Err InvalidCharacter
  end.

(** *** Encoder *)

Definition hex2 (c : ascii) : string :=
  let n := Z.of_N (N_of_ascii c) in
  String (hex_digit (n / 16)) (String (hex_digit (n mod 16)) EmptyString).

Definition escape_with (e : ascii) : string :=
  String backslash (String e EmptyString).

(** [json.Marshal] escapes the quote, the backslash, control characters
    and, for HTML safety, the characters [<], [>] and [&]. *)
Definition escape_char (c : ascii) : string :=
  if (c =? dquote)%char then escape_with dquote
  else if (c =? backslash)%char then escape_with backslash
  else if (c =? "010")%char then escape_with "n"
  else if (c =? "013")%char then escape_with "r"
  else if (c =? "009")%char then escape_with "t"
  else if (N_of_ascii c <? 32)%N || (c =? "<")%char || (c =? ">")%char || (c =? "&")%char
    then (escape_with "u" ++ "00" ++ hex2 c)%string
  else String c EmptyString.

Fixpoint escape (s : string) : string :=
  match s with
  | EmptyString => EmptyString
  | String c r => (escape_char c ++ escape r)%string
  end.

Definition encode_string (s : string) : string :=
  String dquote (escape s ++ String dquote EmptyString).

Definition encode_number (n : Z) : string :=
  DecimalString.NilEmpty.string_of_int (Z.to_int n).

(** The texts of the items of a list, separated by commas. *)
Definition join_with {A : Type} (f : A -> string) : list A -> string :=
  fix join (l : list A) : string :=
    match l with
    | [] => EmptyString
    | x :: l' =>
        match l' with
        | [] => f x
        | _ :: _ => f x ++ "," ++ join l'
        end
    end.

(** Compact output: no white space between tokens; the members of an
    object in the order in which the object lists them. *)
Fixpoint encode (v : value) : string :=
  match v with
  | Null => "null"
  | Bool true => "true"
  | Bool false => "false"
  | Num n => encode_number n
  | Str s => encode_string s
  | Arr l => "[" ++ join_with encode l ++ "]"
  | Obj m =>
      "{" ++ join_with (fun kx => encode_string (fst kx) ++ ":" ++ encode (snd kx)) m
          ++ "}"
  end.

(** What a value becomes once it has been through the decoder: every
    object is a map, its members assigned from left to right. *)
Fixpoint norm (v : value) : value :=
  match v with
  | Arr l => Arr (map norm l)
  | Obj m =>
      Obj (fold_left (fun acc kx => SMap.set (fst kx) (norm (snd kx)) acc) m [])
  | _ => v
  end.

(** The characters with which the text of a value can begin. *)
Definition value_start (c : ascii) : bool :=
  (c =? "{")%char || (c =? "[")%char || (c =? dquote)%char || (c =? "n")%char
  || (c =? "t")%char || (c =? "f")%char || (c =? "-")%char || is_digit c.

Definition starts_value (s : string) : bool :=
  match s with
  | String c _ => value_start c
  | EmptyString => false
  end.

(** What may follow an integer literal without changing its reading. *)
Definition number_ends (rest : string) : bool :=
  match rest with
  | String c _ => negb (is_digit c) && negb (starts_fraction rest)
  | EmptyString => true
  end.

(** Every object in the value has its keys in strictly increasing order. *)
Inductive canonical : value -> Prop :=
| canonical_Null : canonical Null
| canonical_Bool b : canonical (Bool b)
| canonical_Num n : canonical (Num n)
| canonical_Str s : canonical (Str s)
| canonical_Arr l : Forall canonical l -> canonical (Arr l)
| canonical_Obj m :
    SMap.sorted m -> Forall (fun kv => canonical (snd kv)) m -> canonical (Obj m).

(** The text of one member of an object. *)
Definition member_text (kx : string * value) : string :=
  encode_string (fst kx) ++ ":" ++ encode (snd kx).

(** Parsing the text of [v], whatever follows it, gives [norm v] back and
    leaves what follows. *)
Definition reads_back (v : value) : Prop :=
  forall (fuel : nat) (rest : string),
    (String.length (encode v) <= fuel)%nat ->
    number_ends rest = true ->
    parse_value fuel (encode v ++ rest) = Ok (norm v, rest).

End Json.

(** [part] occurs somewhere in [whole]. *)
Definition mentions (part whole : string) : Prop :=
  exists pre post : string, whole = pre ++ part ++ post.

(** No character of the string is the separator that [strings.Join] is
    given in [execPlugin]. *)
Definition colon_free (s : string) : bool :=
  forallb (fun c => negb (Ascii.eqb c ":")) (list_ascii_of_string s).

(** ** Errors of the library

    The Go code builds every error with [fmt.Errorf]; the class is the one
    the specification's taxonomy gives it. *)
Inductive error_class : Type :=
| NotFound
| ParseError
| IOError
| ValidationError
| ProcessError
| PluginError
| CancelledError.

Record error : Type := Error { class : error_class; message : string }.

(** ** The file system seen by the loader

    A tree of regular files and directories.  A path is the list of its
    components below the root. *)
Module fs.

Inductive node : Type :=
| File (content : string)
| Dir (entries : list (string * node)).

Definition path : Type := list string.

Fixpoint lookup (name : string) (es : list (string * node)) : option node :=
  match es with
  | [] => None
  | (n, x) :: es' => if String.eqb name n then Some x else lookup name es'
  end.

Fixpoint resolve (root : node) (p : path) : option node :=
  match p with
  | [] => Some root
  | c :: p' =>
      match root with
      | File _ => None
      | Dir es =>
          match lookup c es with
          | Some x => resolve x p'
          | None => None
          end
      end
  end.

Definition path_string (p : path) : string :=
  ("/" ++ String.concat "/" p)%string.

(** [filepath.Join(dir, name)] *)
Definition Join (dir : path) (name : string) : path := (dir ++ [name])%list.

(** [filepath.Ext]: the suffix beginning at the last dot of the name,
    empty when the name has no dot. *)
Fixpoint Ext (name : string) : string :=
  match name with
  | EmptyString => EmptyString
  | String c r =>
      match Ext r with
      | EmptyString => if (c =? ".")%char then name else EmptyString
      | e => e
      end
  end.

(** [ioutil.ReadFile] *)
Definition ReadFile (root : node) (p : path) : option string :=
  match resolve root p with
  | Some (File content) => Some content
  | _ => None
  end.

Definition is_file (x : node) : bool :=
  match x with
  | File _ => true
  | Dir _ => false
  end.

End fs.

(** Insertion sort in byte-wise lexicographic order, for [sort.Strings]. *)
Fixpoint insert_sorted (x : string) (l : list string) : list string :=
  match l with
  | [] => [x]
  | y :: l' => if String.leb x y then x :: l else y :: insert_sorted x l'
  end.

Definition sort_strings (l : list string) : list string :=
  fold_right insert_sorted [] l.

Definition le_string (a b : string) : Prop := String.leb a b = true.

(** ** [pkg/types] *)
Module types.

(** Modelled from the spec: the package [pkg/types] is not among the
    sources.  Section 3 gives the typed view of a configuration: [name],
    [type], [cniVersion] and the DNS settings [nameservers], [domain],
    [search], [options]. *)
Record DNS : Type := {
  Nameservers : list string;
  Domain : string;
  Search : list string;
  Options : list string
}.

(** Modelled from the spec: [types.NetConf], the typed view; [Type_] is
    the Go field [Type]. *)
Record NetConf : Type := {
  CNIVersion : string;
  Name : string;
  Type_ : string;
  Dns : DNS
}.

(** Modelled from the spec: a string field of the typed view, read from
    the decoded object. *)
Definition string_field (k : string) (m : list (string * Json.value))
  : res Json.error string :=
  match SMap.get k m with
  | None => Ok EmptyString
  | Some Json.Null => Ok EmptyString
  | Some (Json.Str s) => Ok s
  | Some _ => Err Json.TypeMismatch
  end.

(** Modelled from the spec: a field that is a list of strings. *)
Fixpoint strings_of (l : list Json.value) : res Json.error (list string) :=
  match l with
  | [] => Ok []
  | Json.Str s :: l' => t <- strings_of l' ;; Ok (s :: t)
  | Json.Null :: l' => t <- strings_of l' ;; Ok (EmptyString :: t)
  | _ :: _ => Err Json.TypeMismatch
  end.

Definition strings_field (k : string) (m : list (string * Json.value))
  : res Json.error (list string) :=
  match SMap.get k m with
  | None => Ok []
  | Some Json.Null => Ok []
  | Some (Json.Arr l) => strings_of l
  | Some _ => Err Json.TypeMismatch
  end.

(** Modelled from the spec: the DNS settings, a nested object. *)
Definition DNS_of_json (v : option Json.value) : res Json.error DNS :=
  match v with
  | None => Ok {| Nameservers := []; Domain := ""; Search := []; Options := [] |}
  | Some Json.Null => Ok {| Nameservers := []; Domain := ""; Search := []; Options := [] |}
  | Some (Json.Obj m) =>
      ns <- strings_field "nameservers" m ;;
      d <- string_field "domain" m ;;
      s <- strings_field "search" m ;;
      o <- strings_field "options" m ;;
      Ok {| Nameservers := ns; Domain := d; Search := s; Options := o |}
  | Some _ => Err Json.TypeMismatch
  end.

(** Modelled from the spec: decoding a JSON object into the typed view.
    A key that is absent or [null] leaves the field empty; a value of
    another JSON type than the field's is an error; other keys are
    ignored. *)
Definition NetConf_of_json (v : Json.value) : res Json.error NetConf :=
  match v with
  | Json.Obj m =>
      ver <- string_field "cniVersion" m ;;
      n <- string_field "name" m ;;
      t <- string_field "type" m ;;
      d <- DNS_of_json (SMap.get "dns" m) ;;
      Ok {| CNIVersion := ver; Name := n; Type_ := t; Dns := d |}
  | _ => Err Json.TypeMismatch
  end.

End types.

(** ** [pkg/invoke] *)
Module invoke.

(** The argument record that [execPlugin] fills in; its fields are the
    ones named in the engine of package [libcni]. *)
Record Args : Type := {
  Command : string;
  ContainerID : string;
  NetNS : string;
  PluginArgs : list (string * string);
  IfName : string;
  Path : string
}.

End invoke.

(** ** [libcni] *)
Module libcni.

(** *** The engine *)

Record RuntimeConf : Type := {
  ContainerID : string;
  NetNS : string;
  IfName : string;
  Args : list (string * string)
}.

Record NetworkConfig : Type := {
  Network : types.NetConf;
  Bytes : string
}.

Record CNIConfig : Type := {
  Path : list string
}.

Section Engine.
(** [types.Result], [invoke.FindInPath] and [invoke.ExecPlugin] are not
    among the sources; the engine fixes their types only.  The pointers
    that the methods receive are taken to be non-nil: on a nil [conf],
    [conf.Network] or [rt] the Go code panics before anything is run. *)
Variable Result : Type.
Variable FindInPath : string -> list string -> string.
Variable ExecPlugin : string -> string -> invoke.Args -> res error Result.

Definition execPlugin (c : CNIConfig) (action : string)
           (conf : NetworkConfig) (rt : RuntimeConf) : res error Result :=
  let pluginPath := FindInPath (types.Type_ (Network conf)) (Path c) in
  let args := {| invoke.Command := action;
                 invoke.ContainerID := ContainerID rt;
                 invoke.NetNS := NetNS rt;
                 invoke.PluginArgs := Args rt;
                 invoke.IfName := IfName rt;
                 invoke.Path := String.concat ":" (Path c) |} in
  ExecPlugin pluginPath (Bytes conf) args.

Definition AddNetwork (c : CNIConfig) (net : NetworkConfig) (rt : RuntimeConf)
  : res error Result :=
  execPlugin c "ADD" net rt.

(** The returned [error]; [None] is Go's [nil]. *)
Definition DelNetwork (c : CNIConfig) (net : NetworkConfig) (rt : RuntimeConf)
  : option error :=
  match execPlugin c "DEL" net rt with
  | Ok _ => None
  | Err e => Some e
  end.

(** [type CNI interface], and [*CNIConfig] as its implementation. *)
Class CNI (T : Type) : Type := {
  CNI_AddNetwork : T -> NetworkConfig -> RuntimeConf -> res error Result;
  CNI_DelNetwork : T -> NetworkConfig -> RuntimeConf -> option error
}.

Definition CNIConfig_CNI : CNI CNIConfig :=
  {| CNI_AddNetwork := AddNetwork; CNI_DelNetwork := DelNetwork |}.
End Engine.

(** *** The loader *)

Module NetworkConfigList.
Record t : Type := {
  Name : string;
  CNIVersion : string;
  Plugins : list NetworkConfig;
  Bytes : string
}.
End NetworkConfigList.

(** Modelled from the spec: a ParseError names the step that failed and
    carries the message of the JSON library, as [libcni_test] expects. *)
Definition parse_error (what : string) (e : Json.error) : error :=
  Error ParseError (what ++ ": " ++ Json.error_text e).

(** Modelled from the spec: [ConfFromBytes] is not among the sources.
    By section 4.2 the file content is parsed as JSON into a NetworkConfig
    whose raw bytes are the exact content; content that is not valid JSON
    is a ParseError.  The message is the one [libcni_test] expects. *)
Definition ConfFromBytes (bytes : string) : res error NetworkConfig :=
  match Json.decode bytes with
  | Err e => Err (parse_error "error parsing configuration" e)
  | Ok v =>
      match types.NetConf_of_json v with
      | Err e => Err (parse_error "error parsing configuration" e)
      | Ok n => Ok {| Network := n; Bytes := bytes |}
      end
  end.

(** Modelled from the spec: an IO-class error with the offending path, in
    the wording [libcni_test] expects. *)
Definition read_error (filename : fs.path) : error :=
  Error IOError ("error reading " ++ fs.path_string filename ++ ": open "
                 ++ fs.path_string filename ++ ": no such file or directory").

(** Modelled from the spec: [ConfFromFile], the [parseSingle(path)] of
    section 4.2, is not among the sources.  It reads one file by path; an
    IO-class error carrying the path if the file cannot be opened, a
    ParseError if the content is not valid JSON. *)
Definition ConfFromFile (root : fs.node) (filename : fs.path)
  : res error NetworkConfig :=
  match fs.ReadFile root filename with
  | None => Err (read_error filename)
  | Some bytes => ConfFromBytes bytes
  end.

(** Modelled from the spec: the enumeration of section 4.2.  The regular
    files directly inside the directory whose extension is one of
    [extensions]; subdirectories are skipped, not entered. *)
Definition candidates (es : list (string * fs.node)) (extensions : list string)
  : list string :=
  map fst
    (filter (fun e => fs.is_file (snd e)
                      && existsb (String.eqb (fs.Ext (fst e))) extensions) es).

(** Modelled from the spec: [ConfFiles] is not among the sources.  A
    missing directory has no candidates. *)
Definition ConfFiles (root : fs.node) (dir : fs.path) (extensions : list string)
  : res error (list string) :=
  match fs.resolve root dir with
  | None => Ok []
  | Some (fs.File _) =>
      Err (Error IOError ("open " ++ fs.path_string dir ++ ": not a directory"))
  | Some (fs.Dir es) => Ok (candidates es extensions)
  end.

(** Modelled from the spec: the NotFound error that names the requested
    network and the directory searched, in the wording [libcni_test]
    expects. *)
Definition not_found_by_name (what name : string) (dir : fs.path) : error :=
  Error NotFound (what ++ " with name " ++ quoted name ++ " in " ++ fs.path_string dir).

(** Modelled from the spec: the scan shared by [LoadConf] and
    [LoadConfList], over the sorted file names: the first file that fails to load ends the scan with its
    error, the first configuration with the requested name is returned,
    and [missing] is the error when the names run out. *)
Fixpoint scan_files {A : Type} (load : fs.path -> res error A)
         (name_of : A -> string) (missing : error) (dir : fs.path)
         (name : string) (files : list string) : res error A :=
  match files with
  | [] => Err missing
  | f :: files' =>
      match load (fs.Join dir f) with
      | Err e => Err e
      | Ok conf =>
          if String.eqb (name_of conf) name then Ok conf
          else scan_files load name_of missing dir name files'
      end
  end.

(** A file that loads and bears another name lets the scan go on. *)
Definition passes {A : Type} (load : fs.path -> res error A)
           (name_of : A -> string) (dir : fs.path) (name : string)
           (f : string) : Prop :=
  exists conf, load (fs.Join dir f) = Ok conf /\ name_of conf <> name.

Definition has_ext (extensions : list string) (f : string) : Prop :=
  In (fs.Ext f) extensions.

(** Every regular file directly inside the directory that bears one of
    the extensions loads and bears another name than [name]. *)
Definition direct_files_pass {A : Type} (load_bytes : string -> res error A)
           (name_of : A -> string) (extensions : list string)
           (es : list (string * fs.node)) (name : string) : Prop :=
  forall f content,
    In (f, fs.File content) es -> has_ext extensions f ->
    exists conf, load_bytes content = Ok conf /\ name_of conf <> name.

(** Modelled from the spec: [LoadConf], the [loadSingle(dir, networkName)]
    of section 4.2, is not among the sources. *)
Definition LoadConf (root : fs.node) (dir : fs.path) (name : string)
  : res error NetworkConfig :=
  files <- ConfFiles root dir [".conf"; ".json"] ;;
  match files with
  | [] => Err (Error NotFound "no net configurations found")
  | _ :: _ =>
      scan_files (ConfFromFile root) (fun conf => types.Name (Network conf))
                 (not_found_by_name "no net configuration" name dir)
                 dir name (sort_strings files)
  end.

(** Modelled from the spec: [json.Unmarshal] of the bytes into a generic
    key to value map that was made empty, the first step of [InjectConf]
    (section 4.3).  The text [null] is accepted and leaves the map as it
    was; a value of another kind than an object is a type error. *)
Definition unmarshal_map (bytes : string)
  : res Json.error (list (string * Json.value)) :=
  v <- Json.decode bytes ;;
  match v with
  | Json.Obj m => Ok m
  | Json.Null => Ok []
  | _ => Err Json.TypeMismatch
  end.

(** Modelled from the spec: [InjectConf] is not among the sources.
    By section 4.3 the bytes are deserialized into a generic map, [key] is set
    to [newValue], the map is serialized again with its keys sorted, and the
    typed view is derived from the new bytes.  [newValue] is [None] for
    Go's [nil].  The order of the three checks is the one [libcni_test]
    observes. *)
Definition InjectConf (original : NetworkConfig) (key : string)
           (newValue : option Json.value) : res error NetworkConfig :=
  match unmarshal_map (Bytes original) with
  | Err e => Err (parse_error "unmarshal existing network bytes" e)
  | Ok config =>
      if String.eqb key "" then
        Err (Error ValidationError "key value can not be empty")
      else
        match newValue with
        | None => Err (Error ValidationError "newValue must be specified")
        | Some v =>
            let newBytes := Json.encode (Json.Obj (SMap.set key v config)) in
            ConfFromBytes newBytes
        end
  end.

(** Modelled from the spec: a list that lacks a part is a ParseError. *)
Definition list_error (what : string) : error :=
  Error ParseError ("error parsing configuration list: " ++ what).

(** Modelled from the spec: the plugins of a list, in their order: each
    one serialized on its own and loaded from those bytes. *)
Fixpoint plugins_of (l : list Json.value) : res error (list NetworkConfig) :=
  match l with
  | [] => Ok []
  | p :: l' =>
      conf <- ConfFromBytes (Json.encode p) ;;
      rest <- plugins_of l' ;;
      Ok (conf :: rest)
  end.

(** What ties a plugin of a list to the object it was declared as: its
    bytes are the serialization of the object, the object has its keys
    sorted at every level, the bytes decode to the object, and the typed
    view is read from it. *)
Definition plugin_of (p : Json.value) (conf : NetworkConfig) : Prop :=
  Bytes conf = Json.encode p
  /\ Json.canonical p
  /\ Json.decode (Bytes conf) = Ok p
  /\ types.NetConf_of_json p = Ok (Network conf).

(** Modelled from the spec: [ConfListFromBytes] is not among the sources.
    By sections 4.2 and 6, a JSON object with [name], an optional
    [cniVersion] and [plugins], a non-empty array of plugin objects; the
    list keeps the file content, every plugin gets the canonical
    serialization of its own object. *)
Definition ConfListFromBytes (bytes : string) : res error NetworkConfigList.t :=
  match unmarshal_map bytes with
  | Err e => Err (parse_error "error parsing configuration list" e)
  | Ok rawList =>
      match SMap.get "name" rawList with
      | None => Err (list_error "no name")
      | Some (Json.Str name) =>
          match types.string_field "cniVersion" rawList with
          | Err _ => Err (list_error "invalid cniVersion type")
          | Ok cniVersion =>
              match SMap.get "plugins" rawList with
              | None => Err (list_error "no 'plugins' key")
              | Some (Json.Arr []) => Err (list_error "no plugins in list")
              | Some (Json.Arr plugins) =>
                  ps <- plugins_of plugins ;;
                  Ok {| NetworkConfigList.Name := name;
                        NetworkConfigList.CNIVersion := cniVersion;
                        NetworkConfigList.Plugins := ps;
                        NetworkConfigList.Bytes := bytes |}
              | Some _ => Err (list_error "invalid 'plugins' type")
              end
          end
      | Some _ => Err (list_error "invalid name type")
      end
  end.

(** Modelled from the spec: [ConfListFromFile], the [parseList(path)] of
    section 4.2. *)
Definition ConfListFromFile (root : fs.node) (filename : fs.path)
  : res error NetworkConfigList.t :=
  match fs.ReadFile root filename with
  | None => Err (read_error filename)
  | Some bytes => ConfListFromBytes bytes
  end.

(** Modelled from the spec: [LoadConfList], the [loadList(dir,
    networkName)] of section 4.2. *)
Definition LoadConfList (root : fs.node) (dir : fs.path) (name : string)
  : res error NetworkConfigList.t :=
  files <- ConfFiles root dir [".conflist"] ;;
  match files with
  | [] => Err (Error NotFound "no net configuration lists found")
  | _ :: _ =>
      scan_files (ConfListFromFile root) NetworkConfigList.Name
                 (not_found_by_name "no net configuration list" name dir)
                 dir name (sort_strings files)
  end.

End libcni.

(** ** The scenarios of [libcni_test]

    JSON texts are written with single quotes standing for the double
    quotes of the Go raw strings. *)
Module conf_test.
Import libcni.

Definition dq (s : string) : string :=
  string_of_list_ascii
    (map (fun c => if (c =? "'")%char then dquote else c) (list_ascii_of_string s)).

(** The temporary directory of the Ginkgo suites. *)
Definition configDir : fs.path := ["tmp"; "plugin-conf"].

Definition with_configDir (es : list (string * fs.node)) : fs.node :=
  fs.Dir [("tmp", fs.Dir [("plugin-conf", fs.Dir es)])].

Definition no_configDir : fs.node := fs.Dir [("tmp", fs.Dir [])].

Definition pluginConfig : string :=
  dq "{ 'name': 'some-plugin', 'some-key': 'some-value' }".

Definition deepConfig : string :=
  dq "{ 'name': 'deep', 'some-key': 'some-value' }".

Definition no_DNS : types.DNS :=
  {| types.Nameservers := []; types.Domain := "";
     types.Search := []; types.Options := [] |}.

(** [&types.NetConf{Name: name, Type: type}] *)
Definition NetConf_named (name type : string) : types.NetConf :=
  {| types.CNIVersion := ""; types.Name := name; types.Type_ := type;
     types.Dns := no_DNS |}.

Definition LoadConf_root : fs.node :=
  with_configDir [("50-whatever.conf", fs.File pluginConfig)].

Definition LoadConf_json_root : fs.node :=
  with_configDir [("50-whatever.json", fs.File pluginConfig)].

(** Not in the suite: the same content under another extension. *)
Definition LoadConf_txt_root : fs.node :=
  with_configDir [("50-whatever.txt", fs.File pluginConfig)].

Definition LoadConf_malformed_root : fs.node :=
  with_configDir [("00-bad.conf", fs.File "{");
                  ("50-whatever.conf", fs.File pluginConfig)].

(** Not in the suite: a configuration under another name sorts before
    the malformed file. *)
Definition otherConfig : string :=
  dq "{ 'name': 'some-other-plugin', 'type': 'bridge' }".

Definition LoadConf_malformed_between_root : fs.node :=
  with_configDir [("00-other.conf", fs.File otherConfig);
                  ("10-bad.conf", fs.File "{");
                  ("50-whatever.conf", fs.File pluginConfig)].

(** Not in the suite: the malformed file sorts after the match. *)
Definition LoadConf_malformed_last_root : fs.node :=
  with_configDir [("50-whatever.conf", fs.File pluginConfig);
                  ("90-bad.conf", fs.File "{")].

Definition LoadConf_nested_root : fs.node :=
  with_configDir
    [("50-whatever.conf", fs.File pluginConfig);
     ("subdir1", fs.Dir [("subdir2", fs.Dir [("90-deep.conf", fs.File deepConfig)])])].

Definition configList : string := dq "{
  'name': 'some-list',
  'cniVersion': '0.2.0',
  'plugins': [
    {
      'type': 'host-local',
      'subnet': '10.0.0.1/24'
    },
    {
      'type': 'bridge',
      'mtu': 1400
    },
    {
      'type': 'port-forwarding',
      'ports': {'20.0.0.1:8080': '80'}
    }
  ]
}".

(** The same list with other white space and other key orders. *)
Definition configList_reordered : string := dq
  "{'plugins':[{'subnet':'10.0.0.1/24','type':'host-local'},{'mtu':1400,'type':'bridge'},{'ports':{'20.0.0.1:8080':'80'},'type':'port-forwarding'}],'cniVersion':'0.2.0','name':'some-list'}".

Definition deepList : string := dq "{
  'name': 'deep',
  'cniVersion': '0.2.0',
  'plugins': [
    {
      'type': 'host-local',
      'subnet': '10.0.0.1/24'
    },
  ]
}".

(** The well-formed list that the nested scenario was meant to hold. *)
Definition deepList_valid : string :=
  dq "{ 'name': 'deep', 'cniVersion': '0.2.0', 'plugins': [ { 'type': 'host-local' } ] }".

Definition LoadConfList_root : fs.node :=
  with_configDir [("50-whatever.conflist", fs.File configList)].

Definition LoadConfList_malformed_root : fs.node :=
  with_configDir [("00-bad.conflist", fs.File "{");
                  ("50-whatever.conflist", fs.File configList)].

Definition LoadConfList_nested_root : fs.node :=
  with_configDir
    [("50-whatever.conflist", fs.File configList);
     ("subdir1",
      fs.Dir [("subdir2", fs.Dir [("90-deep.conflist", fs.File deepList_valid)])])].

Definition expected_plugins : list NetworkConfig :=
  [ {| Network := NetConf_named "" "host-local";
       Bytes := dq "{'subnet':'10.0.0.1/24','type':'host-local'}" |};
    {| Network := NetConf_named "" "bridge";
       Bytes := dq "{'mtu':1400,'type':'bridge'}" |};
    {| Network := NetConf_named "" "port-forwarding";
       Bytes := dq "{'ports':{'20.0.0.1:8080':'80'},'type':'port-forwarding'}" |} ].

Definition expected_list : NetworkConfigList.t :=
  {| NetworkConfigList.Name := "some-list";
     NetworkConfigList.CNIVersion := "0.2.0";
     NetworkConfigList.Plugins := expected_plugins;
     NetworkConfigList.Bytes := configList |}.

Definition testNetConfig : NetworkConfig :=
  {| Network := NetConf_named "some-plugin" "";
     Bytes := dq "{ 'name': 'some-plugin' }" |}.

Definition brokenNetConfig : NetworkConfig :=
  {| Network := NetConf_named "some-plugin" "";
     Bytes := "{ cc cc cc}" |}.

(** [&types.DNS{Nameservers: servers, Domain: "local"}], as a struct with
    its fields in declaration order. *)
Definition newDNS : Json.value :=
  Json.Obj [("nameservers", Json.Arr [Json.Str "server1"; Json.Str "server2"]);
            ("domain", Json.Str "local")].

(** Not in the suite: the directory of the nested scenario listed in
    another order, with a text file in the place of the subdirectory. *)
Definition LoadConf_shuffled_root : fs.node :=
  with_configDir [("notes.txt", fs.File deepConfig);
                  ("50-whatever.conf", fs.File pluginConfig)].

(** Not in the suite: two configurations under one name. *)
Definition firstConfig : string :=
  dq "{ 'name': 'some-plugin', 'type': 'bridge' }".

Definition LoadConf_two_matches_root : fs.node :=
  with_configDir [("50-whatever.conf", fs.File pluginConfig);
                  ("10-first.json", fs.File firstConfig)].

Definition loaded_first : NetworkConfig :=
  {| Network := NetConf_named "some-plugin" "bridge"; Bytes := firstConfig |}.

(** What the suite expects back from [LoadConf] and from the injections
    of ["test"] and of ["type"]. *)
Definition loaded_some_plugin : NetworkConfig :=
  {| Network := NetConf_named "some-plugin" ""; Bytes := pluginConfig |}.

Definition injected_test : NetworkConfig :=
  {| Network := NetConf_named "some-plugin" "";
     Bytes := dq "{'name':'some-plugin','test':'test'}" |}.

(** Not in the suite: the type alone, and the type after ["test"]. *)
Definition injected_type : NetworkConfig :=
  {| Network := NetConf_named "some-plugin" "bridge";
     Bytes := dq "{'name':'some-plugin','type':'bridge'}" |}.

Definition injected_test_type : NetworkConfig :=
  {| Network := NetConf_named "some-plugin" "bridge";
     Bytes := dq "{'name':'some-plugin','test':'test','type':'bridge'}" |}.

End conf_test.

(** ** A plugin that reports how it was run

    Stand-ins for the two functions of [pkg/invoke] that the engine calls:
    a search that returns the name it was asked for, and an execution that
    returns the path, the bytes and the arguments it was given. *)
Module probe.

Definition Result : Type := string * string * invoke.Args.

Definition FindInPath (plugin : string) (paths : list string) : string := plugin.

Definition ExecPlugin (pluginPath netconf : string) (args : invoke.Args)
  : res error Result :=
  Ok (pluginPath, netconf, args).

(** An execution that does not look at the command: it reports the
    executable and the directories it was told. *)
Definition ExecPlugin_blind (pluginPath netconf : string) (args : invoke.Args)
  : res error string :=
  Ok (pluginPath ++ " " ++ invoke.Path args).

Definition cniConfig : libcni.CNIConfig :=
  {| libcni.Path := ["/opt/cni/bin"; "/usr/lib/cni"] |}.

Definition rt : libcni.RuntimeConf :=
  {| libcni.ContainerID := "some-container-id";
     libcni.NetNS := "/some/netns/path";
     libcni.IfName := "eth0";
     libcni.Args := [("K8S_POD_NAME", "pod")] |}.


End probe.

(* ================================================================== *)
(** * Part II: properties                                              *)
(* ================================================================== *)

(** ** Test vectors for [Sum512] and [FormatChainName] *)

Example sha512_abc :
  hex_of_bytes (Sha512.Sum512 (bytes_of_string "abc")) =
  "ddaf35a193617abacc417349ae20413112e6fa4e89a97ea20a9eeee64b55d39a2192992a274fc1a836ba3c23a3feebbd454d4423643ce80e2a9ac94fa54ca49f"%string.
Proof. vm_compute. reflexivity. Qed.

Example sha512_empty :
  hex_of_bytes (Sha512.Sum512 (bytes_of_string "")) =
  "cf83e1357eefb8bdf1542850d66d8007d620e4050b5715dc83f4a921d36ce9ce47d0d13c5d85f2b0ff8318d2877eec2f63b931bd47417a81a538327af927da3e"%string.
Proof. vm_compute. reflexivity. Qed.

Example sha512_two_blocks :
  hex_of_bytes (Sha512.Sum512 (repeat 97 200)) =
  "4b11459c33f52a22ee8236782714c150a3b2c60994e9acee17fe68947a3e6789f31e7668394592da7bef827cddca88c4e6f86e4df7ed1ae6cba71f3e98faee9f"%string.
Proof. vm_compute. reflexivity. Qed.

Example FormatChainName_test_1234 :
  Utils.FormatChainName "test" "1234" = Some "CNI-2bbe0c48b91a7d1b8a6753a8"%string.
Proof. vm_compute. reflexivity. Qed.

(** ** The chain name *)

Section ChainName.

Lemma string_length_app (s t : string) :
  String.length (s ++ t) = (String.length s + String.length t)%nat.
Proof. induction s as [|c s IH]; simpl; [reflexivity | now rewrite IH]. Qed.

Lemma string_app_assoc (s t u : string) : (s ++ t) ++ u = s ++ t ++ u.
Proof. induction s as [|c s IH]; simpl; [reflexivity | now rewrite IH]. Qed.

Lemma digest_bytes_length (d : Sha512.digest) :
  List.length (Sha512.digest_bytes d) = 64%nat.
Proof. destruct d; reflexivity. Qed.

Lemma Sum512_length (data : list Z) :
  List.length (Sha512.Sum512 data) = 64%nat.
Proof. unfold Sha512.Sum512. apply digest_bytes_length. Qed.

Lemma hex_of_bytes_length (bs : list Z) :
  String.length (hex_of_bytes bs) = (2 * List.length bs)%nat.
Proof.
  induction bs as [|b bs IH]; simpl; [reflexivity|].
  rewrite IH. lia.
Qed.

Lemma substring_0_length (n : nat) (s : string) :
  (n <= String.length s)%nat -> String.length (substring 0 n s) = n.
Proof.
  revert s. induction n as [|n IH]; intros s H.
  - destruct s; reflexivity.
  - destruct s as [|c s]; simpl in *; [lia|].
    rewrite IH; [reflexivity | lia].
Qed.

Lemma slice_to_Some (s : string) (n : nat) :
  (n <= String.length s)%nat ->
  slice_to s n = Some (substring 0 n s).
Proof.
  intros H. unfold slice_to.
  apply Nat.leb_le in H. rewrite H. reflexivity.
Qed.

Lemma chain_length (data : list Z) :
  String.length (Utils.chainPrefix ++ hex_of_bytes (Sha512.Sum512 data)) = 132%nat.
Proof.
  rewrite string_length_app, hex_of_bytes_length, Sum512_length.
  reflexivity.
Qed.

(** The 28 bytes kept are the prefix and the first 12 bytes of the digest
    in hexadecimal. *)
Lemma chain_head (d : Sha512.digest) :
  substring 0 Utils.maxChainLength
            (Utils.chainPrefix ++ hex_of_bytes (Sha512.digest_bytes d))
  = Utils.chainPrefix ++ hex_of_bytes (firstn 12 (Sha512.digest_bytes d)).
Proof. destruct d; reflexivity. Qed.

(** The digest is an array of bytes. *)
Lemma byte_at_range (w i : Z) : 0 <= Sha512.byte_at w i < 256.
Proof.
  unfold Sha512.byte_at. change 255 with (Z.ones 8).
  rewrite Z.land_ones by lia. apply Z.mod_pos_bound. lia.
Qed.

Lemma Sum512_bytes (data : list Z) :
  Forall (fun b => 0 <= b < 256) (Sha512.Sum512 data).
Proof.
  unfold Sha512.Sum512, Sha512.digest_bytes, Sha512.be_bytes8.
  repeat (apply Forall_app; split); repeat constructor; apply byte_at_range.
Qed.

Lemma hex_digit_lower (n : Z) : 0 <= n < 16 -> is_lower_hex (hex_digit n) = true.
Proof.
  intros H.
  assert (Hall : forallb (fun k => is_lower_hex (hex_digit (Z.of_nat k))) (seq 0 16)
                 = true) by reflexivity.
  rewrite forallb_forall in Hall.
  specialize (Hall (Z.to_nat n)).
  rewrite Z2Nat.id in Hall by lia.
  apply Hall, in_seq. lia.
Qed.

Lemma hex_of_bytes_lower (bs : list Z) :
  Forall (fun b => 0 <= b < 256) bs ->
  forallb is_lower_hex (list_ascii_of_string (hex_of_bytes bs)) = true.
Proof.
  induction 1 as [|b bs Hb _ IH]; simpl; [reflexivity|].
  rewrite IH, !hex_digit_lower; [reflexivity | |].
  - apply Z.mod_pos_bound. lia.
  - split; [apply Z.div_pos; lia | apply Z.div_lt_upper_bound; lia].
Qed.

Lemma firstn_Forall {A : Type} (P : A -> Prop) (n : nat) (l : list A) :
  Forall P l -> Forall P (firstn n l).
Proof.
  revert l. induction n as [|n IH]; intros l H; simpl; [constructor|].
  destruct H as [|x l Hx Hl]; constructor; auto.
Qed.

(** After the prefix a chain name holds lower-case hexadecimal digits
    only. *)
Lemma FormatChainName_hex (name id : string) :
  exists digits : string,
    Utils.FormatChainName name id = Some (Utils.chainPrefix ++ digits)
    /\ String.length digits = 24%nat
    /\ forallb is_lower_hex (list_ascii_of_string digits) = true.
Proof.
  unfold Utils.FormatChainName.
  set (data := bytes_of_string (name ++ id)).
  exists (hex_of_bytes (firstn 12 (Sha512.Sum512 data))).
  split; [|split].
  - rewrite slice_to_Some
      by (rewrite (chain_length data); unfold Utils.maxChainLength; lia).
    unfold Sha512.Sum512. now rewrite chain_head.
  - rewrite hex_of_bytes_length, length_firstn, Sum512_length. reflexivity.
  - apply hex_of_bytes_lower, firstn_Forall, Sum512_bytes.
Qed.

End ChainName.

(** C2.  For all strings [name] and [id], [FormatChainName name id] does not
    panic and returns a string of exactly 28 bytes that starts with the
    prefix ["CNI-"]: the prefix followed by the first 24 hexadecimal digits
    of the SHA-512 digest of [name ++ id].  The result is thereby a function
    of the two inputs alone; the Go code has no state ([sha512.Sum512] and
    [fmt.Sprintf] are pure), so two calls on the same inputs return the same
    bytes. *)
Theorem FormatChainName_total_length_prefix :
  forall name id : string,
    exists chain : string,
      Utils.FormatChainName name id = Some chain
      /\ String.length chain = Utils.maxChainLength
      /\ String.prefix Utils.chainPrefix chain = true
      /\ chain = Utils.chainPrefix
                 ++ hex_of_bytes (firstn 12 (Sha512.Sum512 (bytes_of_string (name ++ id)))).
Proof.
  intros name id.
  unfold Utils.FormatChainName.
  set (data := bytes_of_string (name ++ id)).
  pose proof (chain_length data) as Hlen.
  exists (substring 0 Utils.maxChainLength
            (Utils.chainPrefix ++ hex_of_bytes (Sha512.Sum512 data))).
  split; [|split; [|split]].
  - apply slice_to_Some. rewrite Hlen. unfold Utils.maxChainLength. lia.
  - apply substring_0_length. rewrite Hlen. unfold Utils.maxChainLength. lia.
  - unfold Sha512.Sum512. rewrite chain_head. reflexivity.
  - unfold Sha512.Sum512. apply chain_head.
Qed.

(** C10.  [FormatChainName] sees its two inputs only through their
    concatenation: moving a piece from the end of [name] to the front of
    [id] does not change the chain name.  The distinct pairs [("ab", "c")]
    and [("a", "bc")] are an instance. *)
Theorem FormatChainName_concat_only :
  (forall a b c : string,
      Utils.FormatChainName (a ++ b) c = Utils.FormatChainName a (b ++ c))
  /\ Utils.FormatChainName "ab" "c" = Utils.FormatChainName "a" "bc"
  /\ String.eqb "ab" "a" = false.
Proof.
  split; [|split].
  - intros a b c. unfold Utils.FormatChainName.
    rewrite string_app_assoc. reflexivity.
  - reflexivity.
  - reflexivity.
Qed.

(** ** The digest behind a chain name *)

Section ChainDigest.

Lemma hex_digit_inj (a b : Z) :
  0 <= a < 16 -> 0 <= b < 16 -> hex_digit a = hex_digit b -> a = b.
Proof.
  intros Ha Hb H.
  assert (Hall : forallb
                   (fun i => forallb
                      (fun j => implb (Ascii.eqb (hex_digit (Z.of_nat i))
                                                 (hex_digit (Z.of_nat j)))
                                      (Nat.eqb i j))
                      (seq 0 16))
                   (seq 0 16) = true) by reflexivity.
  rewrite forallb_forall in Hall.
  specialize (Hall (Z.to_nat a) ltac:(apply in_seq; lia)).
  rewrite forallb_forall in Hall.
  specialize (Hall (Z.to_nat b) ltac:(apply in_seq; lia)).
  rewrite !Z2Nat.id in Hall by lia.
  rewrite H, Ascii.eqb_refl in Hall. simpl in Hall.
  apply Nat.eqb_eq in Hall. lia.
Qed.

Lemma hex_of_bytes_inj (l1 l2 : list Z) :
  Forall (fun b => 0 <= b < 256) l1 -> Forall (fun b => 0 <= b < 256) l2 ->
  hex_of_bytes l1 = hex_of_bytes l2 -> l1 = l2.
Proof.
  intros H1. revert l2.
  induction H1 as [|a l1 Ha _ IH]; intros l2 H2 H; destruct H2 as [|b l2 Hb H2];
    simpl in H; try discriminate; [reflexivity|].
  injection H as Hhi Hlo Hrest.
  apply hex_digit_inj in Hhi;
    [| split; [apply Z.div_pos; lia | apply Z.div_lt_upper_bound; lia] ..].
  apply hex_digit_inj in Hlo; [| apply Z.mod_pos_bound; lia ..].
  f_equal; [|now apply IH].
  rewrite (Z.div_mod a 16), (Z.div_mod b 16) by lia. congruence.
Qed.

Lemma FormatChainName_value (name id : string) :
  Utils.FormatChainName name id
  = Some (Utils.chainPrefix
          ++ hex_of_bytes (firstn 12 (Sha512.Sum512 (bytes_of_string (name ++ id)))))%string.
Proof.
  unfold Utils.FormatChainName.
  rewrite slice_to_Some
    by (rewrite chain_length; unfold Utils.maxChainLength; lia).
  unfold Sha512.Sum512. now rewrite chain_head.
Qed.

End ChainDigest.

(** Two pairs of inputs get the same chain name exactly when the SHA-512
    digests of their concatenations agree on the first 12 bytes: the 24
    hexadecimal digits kept by the slice are those 96 bits, nothing less and
    nothing more of the digest. *)
Theorem FormatChainName_eq_iff_digest_head :
  forall name1 id1 name2 id2 : string,
    Utils.FormatChainName name1 id1 = Utils.FormatChainName name2 id2
    <-> firstn 12 (Sha512.Sum512 (bytes_of_string (name1 ++ id1)))
        = firstn 12 (Sha512.Sum512 (bytes_of_string (name2 ++ id2))).
Proof.
  intros name1 id1 name2 id2. rewrite !FormatChainName_value. split.
  - intros H.
    apply hex_of_bytes_inj; try apply firstn_Forall, Sum512_bytes.
    remember (hex_of_bytes (firstn 12 (Sha512.Sum512 (bytes_of_string (name1 ++ id1)))))
      as h1.
    remember (hex_of_bytes (firstn 12 (Sha512.Sum512 (bytes_of_string (name2 ++ id2)))))
      as h2.
    inversion H. reflexivity.
  - intros ->. reflexivity.
Qed.

(** ** The chain name: bounds and collisions *)

Section ChainCollisions.

Lemma list_ascii_of_string_inj (s t : string) :
  list_ascii_of_string s = list_ascii_of_string t -> s = t.
Proof.
  intros H. rewrite <- (string_of_list_ascii_of_string s),
                    <- (string_of_list_ascii_of_string t).
  now rewrite H.
Qed.

Lemma N_of_ascii_inj (a b : ascii) : N_of_ascii a = N_of_ascii b -> a = b.
Proof.
  intros H. rewrite <- (ascii_N_embedding a), <- (ascii_N_embedding b).
  now rewrite H.
Qed.

(** The conversion [[]byte(s)] loses nothing. *)
Lemma bytes_of_string_inj (s t : string) :
  bytes_of_string s = bytes_of_string t -> s = t.
Proof.
  unfold bytes_of_string. intros H. apply list_ascii_of_string_inj.
  revert H. generalize (list_ascii_of_string s) (list_ascii_of_string t).
  induction l as [|a l IH]; intros [|b l'] H; simpl in H; try discriminate;
    [reflexivity|].
  inversion H as [[Hab Hl]].
  apply N2Z.inj, N_of_ascii_inj in Hab. subst. f_equal. now apply IH.
Qed.

End ChainCollisions.

(** Before the slice the formatted string has 132 bytes whatever the
    inputs are: the prefix and two hexadecimal digits for each of the 64
    bytes of the digest.  A slice of it panics exactly when its bound is
    above 132, so that the bound [maxChainLength] is in range for every
    input. *)
Theorem chain_slice_bounds :
  forall (name id : string) (n : nat),
    String.length (Utils.chainPrefix
                   ++ hex_of_bytes (Sha512.Sum512 (bytes_of_string (name ++ id))))
    = (Utils.prefixLength + 2 * 64)%nat
    /\ (slice_to (Utils.chainPrefix
                  ++ hex_of_bytes (Sha512.Sum512 (bytes_of_string (name ++ id)))) n
        = None
        <-> (Utils.prefixLength + 2 * 64 < n)%nat)
    /\ (Utils.maxChainLength <= Utils.prefixLength + 2 * 64)%nat.
Proof.
  intros name id n.
  pose proof (chain_length (bytes_of_string (name ++ id))) as Hlen.
  split; [exact Hlen|]. split.
  - unfold slice_to. rewrite Hlen.
    change (Utils.prefixLength + 2 * 64)%nat with 132%nat.
    destruct (Nat.leb_spec n 132); split; intros Hn;
      first [discriminate | reflexivity | lia].
  - unfold Utils.maxChainLength, Utils.prefixLength. simpl. lia.
Qed.

(** The digest is an array of 64 bytes for every input: [Sum512] returns
    64 numbers, each of them from 0 to 255, so that [%x] writes two digits
    for each. *)
Theorem Sum512_is_64_bytes :
  forall data : list Z,
    List.length (Sha512.Sum512 data) = 64%nat
    /\ Forall (fun b => 0 <= b < 256) (Sha512.Sum512 data)
    /\ String.length (hex_of_bytes (Sha512.Sum512 data)) = 128%nat.
Proof.
  intros data. split; [apply Sum512_length|]. split; [apply Sum512_bytes|].
  rewrite hex_of_bytes_length, Sum512_length. reflexivity.
Qed.

(** When two pairs of inputs get the same chain name, either they have
    the same concatenation, or the bytes of their concatenations are two
    different messages whose SHA-512 digests agree on the first 12 bytes;
    and in both cases the chain names are the same.  Nothing but such a
    collision of the shortened digest makes two different concatenations
    share a chain. *)
Theorem FormatChainName_collisions :
  forall name1 id1 name2 id2 : string,
    Utils.FormatChainName name1 id1 = Utils.FormatChainName name2 id2
    <-> (name1 ++ id1 = name2 ++ id2
         \/ (bytes_of_string (name1 ++ id1) <> bytes_of_string (name2 ++ id2)
             /\ firstn 12 (Sha512.Sum512 (bytes_of_string (name1 ++ id1)))
                = firstn 12 (Sha512.Sum512 (bytes_of_string (name2 ++ id2))))).
Proof.
  intros name1 id1 name2 id2. rewrite !FormatChainName_value. split.
  - intros H.
    destruct (string_dec (name1 ++ id1) (name2 ++ id2)) as [Heq|Hne];
      [now left | right].
    split.
    + intros Hb. apply Hne. now apply bytes_of_string_inj.
    + apply hex_of_bytes_inj; try apply firstn_Forall, Sum512_bytes.
      remember (hex_of_bytes
                  (firstn 12 (Sha512.Sum512 (bytes_of_string (name1 ++ id1))))) as h1.
      remember (hex_of_bytes
                  (firstn 12 (Sha512.Sum512 (bytes_of_string (name2 ++ id2))))) as h2.
      inversion H. reflexivity.
  - intros [->|[_ ->]]; reflexivity.
Qed.

(** ** What [Sum512] hashes *)

Section Padding.

Lemma repeat_Forall {A : Type} (P : A -> Prop) (x : A) (n : nat) :
  P x -> Forall P (repeat x n).
Proof. intros H. induction n; simpl; constructor; auto. Qed.

Lemma bytes_of_string_range (s : string) :
  Forall (fun b => 0 <= b < 256) (bytes_of_string s).
Proof.
  unfold bytes_of_string. apply Forall_forall. intros b Hb.
  apply in_map_iff in Hb. destruct Hb as (c & <- & _).
  pose proof (N_ascii_bounded c) as H. lia.
Qed.

Lemma bytes_of_string_length (s : string) :
  List.length (bytes_of_string s) = String.length s.
Proof.
  unfold bytes_of_string. rewrite length_map.
  induction s as [|c s IH]; simpl; [reflexivity | now rewrite IH].
Qed.

Lemma pad_length (msg : list Z) :
  Z.of_nat (List.length (Sha512.pad msg))
  = Z.of_nat (List.length msg) + 17 + (111 - Z.of_nat (List.length msg)) mod 128.
Proof.
  unfold Sha512.pad, Sha512.be_bytes8. rewrite !length_app, repeat_length.
  simpl List.length.
  pose proof (Z.mod_pos_bound (111 - Z.of_nat (List.length msg)) 128 ltac:(lia)).
  lia.
Qed.

End Padding.

(** [Sum512] hashes the whole of its input, whatever its length: the
    padded message begins with the bytes of the input, is between 17 and
    144 bytes longer, holds bytes only, and is a whole number of blocks of
    128 bytes, the number of blocks that [Sum512] goes through. *)
Theorem Sum512_hashes_whole_input :
  forall s : string,
    firstn (String.length s) (Sha512.pad (bytes_of_string s)) = bytes_of_string s
    /\ Forall (fun b => 0 <= b < 256) (Sha512.pad (bytes_of_string s))
    /\ (String.length s + 17 <= List.length (Sha512.pad (bytes_of_string s))
        <= String.length s + 144)%nat
    /\ (128 * (List.length (Sha512.pad (bytes_of_string s)) / 128)
        = List.length (Sha512.pad (bytes_of_string s)))%nat.
Proof.
  intros s.
  pose proof (pad_length (bytes_of_string s)) as Hlen.
  rewrite bytes_of_string_length in Hlen.
  set (n := Z.of_nat (String.length s)) in *.
  pose proof (Z.mod_pos_bound (111 - n) 128 ltac:(lia)) as Hk.
  split; [|split; [|split]].
  - unfold Sha512.pad. rewrite <- (bytes_of_string_length s).
    now rewrite firstn_app, Nat.sub_diag, firstn_all, firstn_O, List.app_nil_r.
  - unfold Sha512.pad, Sha512.be_bytes8.
    repeat (apply Forall_app; split);
      try apply bytes_of_string_range;
      try (apply repeat_Forall; lia);
      repeat constructor; try apply byte_at_range; lia.
  - lia.
  - assert (Hmod : Z.of_nat (List.length (Sha512.pad (bytes_of_string s))) mod 128 = 0).
    { rewrite Hlen.
      replace (n + 17 + (111 - n) mod 128) with (128 + ((111 - n) mod 128 - (111 - n)))
        by lia.
      rewrite (Z.mod_eq (111 - n) 128) by lia.
      replace (128 + (111 - n - 128 * ((111 - n) / 128) - (111 - n)))
        with ((1 - (111 - n) / 128) * 128) by lia.
      apply Z.mod_mul. lia. }
    set (L := List.length (Sha512.pad (bytes_of_string s))) in *.
    pose proof (Nat.div_mod_eq L 128) as Hd.
    assert (Hm : (L mod 128 = 0)%nat).
    { apply Nat2Z.inj. rewrite Nat2Z.inj_mod. exact Hmod. }
    lia.
Qed.

(** ** Byte-wise order on strings *)

Section StringOrder.

Lemma compare_refl (s : string) : String.compare s s = Eq.
Proof.
  induction s as [|c s IH]; simpl; [reflexivity|].
  unfold Ascii.compare. rewrite N.compare_refl. exact IH.
Qed.

Lemma compare_lt_gt (a b : string) :
  String.compare a b = Lt <-> String.compare b a = Gt.
Proof.
  rewrite (String.compare_antisym b a).
  destruct (String.compare a b); simpl; split; congruence.
Qed.

Lemma ascii_compare_lt_trans (a b c : ascii) :
  Ascii.compare a b = Lt -> Ascii.compare b c = Lt -> Ascii.compare a c = Lt.
Proof.
  unfold Ascii.compare. rewrite !N.compare_lt_iff. apply N.lt_trans.
Qed.

Lemma compare_lt_trans (a b c : string) :
  String.compare a b = Lt -> String.compare b c = Lt -> String.compare a c = Lt.
Proof.
  revert b c. induction a as [|x a IH]; intros [|y b] [|z c]; simpl;
    try congruence.
  destruct (Ascii.compare x y) eqn:Hxy; try congruence;
    destruct (Ascii.compare y z) eqn:Hyz; try congruence; intros H1 H2.
  - apply Ascii.compare_eq_iff in Hxy, Hyz. subst.
    unfold Ascii.compare. rewrite N.compare_refl. eapply IH; eassumption.
  - apply Ascii.compare_eq_iff in Hxy. subst. rewrite Hyz. reflexivity.
  - apply Ascii.compare_eq_iff in Hyz. subst. rewrite Hxy. reflexivity.
  - rewrite (ascii_compare_lt_trans _ _ _ Hxy Hyz). reflexivity.
Qed.

Lemma leb_trans (a b c : string) :
  String.leb a b = true -> String.leb b c = true -> String.leb a c = true.
Proof.
  unfold String.leb.
  destruct (String.compare a b) eqn:Hab; try discriminate;
    destruct (String.compare b c) eqn:Hbc; try discriminate; intros _ _.
  - apply String.compare_eq_iff in Hab, Hbc. subst. now rewrite compare_refl.
  - apply String.compare_eq_iff in Hab. subst. now rewrite Hbc.
  - apply String.compare_eq_iff in Hbc. subst. now rewrite Hab.
  - now rewrite (compare_lt_trans _ _ _ Hab Hbc).
Qed.

Lemma leb_false_lt (a b : string) :
  String.leb a b = false -> String.compare b a = Lt.
Proof.
  unfold String.leb. destruct (String.compare a b) eqn:H; try discriminate.
  intros _. now apply compare_lt_gt.
Qed.

End StringOrder.

(** ** Sorted maps *)

Section SMapFacts.
Context {A : Type}.
Implicit Types (m : list (string * A)) (k : string) (v : A).

Lemma set_set k v v' m : SMap.set k v (SMap.set k v' m) = SMap.set k v m.
Proof.
  induction m as [|[k' x] m IH]; simpl.
  - now rewrite compare_refl.
  - destruct (String.compare k k') eqn:Hc; simpl.
    + now rewrite compare_refl.
    + now rewrite compare_refl.
    + rewrite Hc, IH. reflexivity.
Qed.

Lemma set_In k v m (kx : string * A) :
  In kx (SMap.set k v m) -> kx = (k, v) \/ In kx m.
Proof.
  induction m as [|[k' x] m IH]; simpl.
  - intros [H|[]]; auto.
  - destruct (String.compare k k'); simpl; intros [H|H]; auto.
    destruct (IH H); auto.
Qed.

Lemma set_Forall (P : string * A -> Prop) k v m :
  P (k, v) -> Forall P m -> Forall P (SMap.set k v m).
Proof.
  intros Hk Hm. apply Forall_forall. intros kx Hin.
  destruct (set_In _ _ _ _ Hin) as [->|H]; [assumption|].
  rewrite Forall_forall in Hm. auto.
Qed.

Lemma sorted_set k v m : SMap.sorted m -> SMap.sorted (SMap.set k v m).
Proof.
  unfold SMap.sorted.
  induction m as [|[k' x] m IH]; simpl; intros Hs.
  - constructor; constructor.
  - inversion Hs as [|? ? Hs' Hall]; subst.
    destruct (String.compare k k') eqn:Hc.
    + apply String.compare_eq_iff in Hc. subst.
      constructor; assumption.
    + constructor; [assumption|].
      constructor; [exact Hc|].
      eapply Forall_impl; [|exact Hall].
      intros [k2 x2] H. unfold SMap.lt_key in *. simpl in *.
      eapply compare_lt_trans; eassumption.
    + constructor; [auto|].
      apply set_Forall; [|assumption].
      unfold SMap.lt_key. simpl. now apply compare_lt_gt.
Qed.

(** Assigning a key above all keys of the map appends the member. *)
Lemma set_above k v m :
  Forall (fun kx => String.compare (fst kx) k = Lt) m ->
  SMap.set k v m = (m ++ [(k, v)])%list.
Proof.
  induction m as [|[k' x] m IH]; simpl; intros H; [reflexivity|].
  inversion H as [|? ? Hlt Hrest]; subst. simpl in Hlt.
  apply compare_lt_gt in Hlt. rewrite Hlt, IH by assumption. reflexivity.
Qed.

Lemma sorted_app_inv (m1 m2 : list (string * A)) :
  SMap.sorted (m1 ++ m2)%list ->
  SMap.sorted m2
  /\ forall x y, In x m1 -> In y m2 -> String.compare (fst x) (fst y) = Lt.
Proof.
  unfold SMap.sorted. induction m1 as [|a m1 IH]; simpl; intros H.
  - split; [assumption | intros x y []].
  - inversion H as [|? ? Hs Hall]; subst.
    destruct (IH Hs) as [H2 Hlt]. split; [assumption|].
    intros x y [->|Hx] Hy.
    + rewrite Forall_forall in Hall. apply Hall, in_or_app. now right.
    + now apply Hlt.
Qed.

End SMapFacts.

Section SMapMap.
Context {A B : Type}.

(** Changing the values of a map commutes with an assignment. *)
Lemma map_set (g : A -> B) k v (m : list (string * A)) :
  map (fun kx => (fst kx, g (snd kx))) (SMap.set k v m)
  = SMap.set k (g v) (map (fun kx => (fst kx, g (snd kx))) m).
Proof.
  induction m as [|[k' x] m IH]; simpl; [reflexivity|].
  destruct (String.compare k k'); simpl; [reflexivity | reflexivity |].
  now rewrite IH.
Qed.

(** Assigning the members of a sorted list from left to right, with their
    values changed by [g], rebuilds the list. *)
Lemma fold_set_sorted (g : A -> B) (l : list (string * A)) (acc : list (string * B)) :
  SMap.sorted (map (fun kx => (fst kx, g (snd kx))) l) ->
  (forall x y, In x acc -> In y l -> String.compare (fst x) (fst y) = Lt) ->
  fold_left (fun acc kx => SMap.set (fst kx) (g (snd kx)) acc) l acc
  = (acc ++ map (fun kx => (fst kx, g (snd kx))) l)%list.
Proof.
  revert acc. induction l as [|[k x] l IH]; simpl; intros acc Hs Hlt.
  - now rewrite List.app_nil_r.
  - inversion Hs as [|? ? Hs' Hall]; subst.
    rewrite set_above.
    + rewrite IH; [now rewrite <- List.app_assoc | assumption |].
      intros a b Ha Hb. apply in_app_or in Ha. destruct Ha as [Ha|[<-|[]]].
      * apply Hlt; auto.
      * rewrite Forall_forall in Hall.
        apply (Hall (fst b, g (snd b))).
        apply in_map_iff. exists b. auto.
    + apply Forall_forall. intros a Ha. apply (Hlt a (k, x)); auto.
Qed.

End SMapMap.

(** ** Reading a sorted map after an assignment *)

Section SMapLookup.
Context {A : Type}.
Implicit Types (m : list (string * A)) (k : string) (v : A).

Lemma compare_eqb_false k k' :
  String.compare k k' <> Eq -> String.eqb k k' = false.
Proof.
  intros H. apply String.eqb_neq. intros ->. apply H, compare_refl.
Qed.

Lemma get_set_same k v m : SMap.get k (SMap.set k v m) = Some v.
Proof.
  induction m as [|[k' x] m IH]; simpl.
  - now rewrite String.eqb_refl.
  - destruct (String.compare k k') eqn:Hc; simpl.
    + now rewrite String.eqb_refl.
    + now rewrite String.eqb_refl.
    + rewrite compare_eqb_false by congruence. exact IH.
Qed.

Lemma get_set_other k k' v m :
  k' <> k -> SMap.get k' (SMap.set k v m) = SMap.get k' m.
Proof.
  intros Hne. apply String.eqb_neq in Hne.
  induction m as [|[k0 x] m IH]; simpl.
  - now rewrite Hne.
  - destruct (String.compare k k0) eqn:Hc; simpl.
    + apply String.compare_eq_iff in Hc. subst. now rewrite Hne.
    + now rewrite Hne.
    + now rewrite IH.
Qed.

Lemma compare_gt_trans (a b c : string) :
  String.compare a b = Gt -> String.compare b c = Gt -> String.compare a c = Gt.
Proof.
  rewrite <- !compare_lt_gt. intros H1 H2. eapply compare_lt_trans; eassumption.
Qed.

Lemma compare_gt_lt (a b : string) :
  String.compare a b = Gt -> String.compare b a = Lt.
Proof. apply compare_lt_gt. Qed.

Lemma compare_lt_irrefl (a : string) : String.compare a a <> Lt.
Proof. rewrite compare_refl. discriminate. Qed.

(** Facts on the order of keys, brought to [Lt] and to equalities, and the
    ways in which they contradict each other. *)
Ltac key_order :=
  repeat match goal with
         | H : String.compare _ _ = Gt |- _ => apply compare_gt_lt in H
         | H : String.compare _ _ = Eq |- _ =>
             apply String.compare_eq_iff in H; subst
         end.

Ltac key_order_absurd :=
  key_order; exfalso;
  match goal with
  | H : ?a <> ?a |- _ => now apply H
  | H : String.compare ?a ?a = Lt |- _ => exact (compare_lt_irrefl a H)
  | H1 : String.compare ?a ?b = Lt, H2 : String.compare ?b ?a = Lt |- _ =>
      exact (compare_lt_irrefl a (compare_lt_trans _ _ _ H1 H2))
  | H1 : String.compare ?a ?b = Lt, H2 : String.compare ?b ?c = Lt,
    H3 : String.compare ?c ?a = Lt |- _ =>
      exact (compare_lt_irrefl a
               (compare_lt_trans _ _ _ H1 (compare_lt_trans _ _ _ H2 H3)))
  end.

(** Assignments to two different keys can be made in either order. *)
Lemma set_comm k1 k2 v1 v2 m :
  k1 <> k2 ->
  SMap.set k1 v1 (SMap.set k2 v2 m) = SMap.set k2 v2 (SMap.set k1 v1 m).
Proof.
  intros Hne.
  induction m as [|[k x] m IH]; simpl.
  - rewrite (String.compare_antisym k2 k1).
    destruct (String.compare k1 k2) eqn:Hc; simpl;
      [key_order_absurd | reflexivity | reflexivity].
  - destruct (String.compare k2 k) eqn:C2; destruct (String.compare k1 k) eqn:C1;
      simpl; rewrite ?C1, ?C2; try (now rewrite IH);
      rewrite ?(String.compare_antisym k2 k1);
      destruct (String.compare k1 k2) eqn:Hc; simpl;
      first [reflexivity | key_order_absurd].
Qed.

End SMapLookup.

(** ** The JSON codec *)

Section JsonLexical.
Import Json.

Lemma string_app_nil_r (s : string) : s ++ "" = s.
Proof. induction s as [|c s IH]; simpl; [reflexivity | now rewrite IH]. Qed.

Lemma scan_string_escape_char (c : ascii) (tail : string) :
  scan_string (escape_char c ++ tail)
  = ('(t, rest) <- scan_string tail ;; Ok (String c t, rest)).
Proof.
  destruct c as [[] [] [] [] [] [] [] []]; reflexivity.
Qed.

Lemma scan_string_escape (s rest : string) :
  scan_string (escape s ++ String dquote rest) = Ok (s, rest).
Proof.
  induction s as [|c s IH]; simpl.
  - reflexivity.
  - rewrite string_app_assoc, scan_string_escape_char, IH. reflexivity.
Qed.

Lemma encode_string_app (k t : string) :
  encode_string k ++ t = String dquote (escape k ++ String dquote t).
Proof.
  unfold encode_string. simpl. rewrite string_app_assoc. reflexivity.
Qed.

Lemma value_start_not_ws (c : ascii) : value_start c = true -> is_ws c = false.
Proof.
  destruct c as [[] [] [] [] [] [] [] []]; intros H; (reflexivity || discriminate H).
Qed.

Lemma value_start_not_close (c : ascii) :
  value_start c = true -> (c =? "]")%char = false /\ (c =? "}")%char = false.
Proof.
  destruct c as [[] [] [] [] [] [] [] []]; intros H;
    ((split; reflexivity) || discriminate H).
Qed.

Lemma skip_ws_starts_value (s : string) :
  starts_value s = true -> skip_ws s = s.
Proof.
  destruct s as [|c s]; simpl; [reflexivity|].
  intros H. now rewrite (value_start_not_ws _ H).
Qed.

Lemma scan_digits_uint (u : Decimal.uint) (rest : string) :
  number_ends rest = true ->
  scan_digits (NilEmpty.string_of_uint u ++ rest) = (u, rest).
Proof.
  intros Hr. induction u; simpl; try (rewrite IHu; reflexivity).
  destruct rest as [|c r]; simpl in *; [reflexivity|].
  destruct (is_digit c); [discriminate | reflexivity].
Qed.

Lemma int_beq_refl (d : Decimal.int) : Decimal.int_beq d d = true.
Proof. now apply Decimal.internal_int_dec_lb. Qed.

Lemma number_ends_not_fraction (rest : string) :
  number_ends rest = true -> starts_fraction rest = false.
Proof.
  destruct rest as [|c r]; [reflexivity|]. unfold number_ends.
  destruct (starts_fraction (String c r)); [|reflexivity].
  rewrite andb_false_r. discriminate.
Qed.

Lemma norm_to_int (n : Z) : Decimal.norm (Z.to_int n) = Z.to_int n.
Proof.
  rewrite <- DecimalZ.to_of, DecimalZ.of_to. reflexivity.
Qed.

Lemma scan_number_pos (u : Decimal.uint) (rest : string) :
  u <> Decimal.Nil -> number_ends rest = true ->
  Decimal.norm (Decimal.Pos u) = Decimal.Pos u ->
  scan_number (NilEmpty.string_of_uint u ++ rest)
  = Ok (Z.of_int (Decimal.Pos u), rest).
Proof.
  intros Hu Hr Hn. unfold scan_number.
  assert (Hs : (let '(neg, body) :=
             match NilEmpty.string_of_uint u ++ rest with
             | String c r => if (c =? "-")%char then (true, r)
                             else (false, NilEmpty.string_of_uint u ++ rest)
             | EmptyString => (false, NilEmpty.string_of_uint u ++ rest)
             end in (neg, body)) = (false, NilEmpty.string_of_uint u ++ rest)).
  { destruct u; simpl; congruence. }
  destruct (match NilEmpty.string_of_uint u ++ rest with
            | String c r => if (c =? "-")%char then (true, r)
                            else (false, NilEmpty.string_of_uint u ++ rest)
            | EmptyString => (false, NilEmpty.string_of_uint u ++ rest)
            end) as [neg body].
  injection Hs as -> ->.
  rewrite (scan_digits_uint _ _ Hr), (number_ends_not_fraction _ Hr), Hn, int_beq_refl.
  destruct u; congruence.
Qed.

Lemma scan_number_neg (u : Decimal.uint) (rest : string) :
  u <> Decimal.Nil -> number_ends rest = true ->
  Decimal.norm (Decimal.Neg u) = Decimal.Neg u ->
  scan_number (String "-" (NilEmpty.string_of_uint u ++ rest))
  = Ok (Z.of_int (Decimal.Neg u), rest).
Proof.
  intros Hu Hr Hn. unfold scan_number.
  cbn -[Decimal.norm Decimal.int_beq Z.of_int scan_digits starts_fraction].
  rewrite (scan_digits_uint _ _ Hr), (number_ends_not_fraction _ Hr), Hn, int_beq_refl.
  destruct u; congruence.
Qed.

Lemma to_int_nonnil (n : Z) (u : Decimal.uint) :
  Z.to_int n = Decimal.Pos u \/ Z.to_int n = Decimal.Neg u -> u <> Decimal.Nil.
Proof.
  destruct n as [|p|p]; simpl; intros [H|H]; inversion H; subst;
    try discriminate; apply DecimalPos.Unsigned.to_uint_nonnil.
Qed.

Lemma scan_number_encode (n : Z) (rest : string) :
  number_ends rest = true ->
  scan_number (encode_number n ++ rest) = Ok (n, rest).
Proof.
  intros Hr. unfold encode_number.
  pose proof (norm_to_int n) as Hn.
  pose proof (DecimalZ.of_to n) as Hof.
  pose proof (to_int_nonnil n) as Hnil.
  destruct (Z.to_int n) as [u|u]; rewrite <- Hof.
  - apply scan_number_pos; auto.
  - apply scan_number_neg; auto.
Qed.

End JsonLexical.

Section JsonRoundTrip.
Import Json.

(** Induction on values that reaches into arrays and objects. *)
Lemma value_ind_nested (P : value -> Prop) :
  P Null ->
  (forall b, P (Bool b)) ->
  (forall n, P (Num n)) ->
  (forall s, P (Str s)) ->
  (forall l, Forall P l -> P (Arr l)) ->
  (forall m, Forall (fun kx => P (snd kx)) m -> P (Obj m)) ->
  forall v, P v.
Proof.
  intros HNull HBool HNum HStr HArr HObj.
  fix IH 1. intros [|b|n|s|l|m].
  - exact HNull.
  - apply HBool.
  - apply HNum.
  - apply HStr.
  - apply HArr. induction l as [|x l IHl]; constructor; [apply IH | exact IHl].
  - apply HObj. induction m as [|[k x] m IHm]; constructor; [apply IH | exact IHm].
Qed.

(** One unfolding of each of the three parsing functions. *)
Lemma parse_value_S (fuel : nat) (s : string) :
  parse_value (S fuel) s =
  match skip_ws s with
  | EmptyString => Err UnexpectedEnd
  | String c r =>
      if (c =? "{")%char then
        match skip_ws r with
        | EmptyString => Err UnexpectedEnd
        | String c1 r1 =>
            if (c1 =? "}")%char then Ok (Obj [], r1)
            else '(m, rest) <- parse_members fuel [] r ;; Ok (Obj m, rest)
        end
      else if (c =? "[")%char then
        match skip_ws r with
        | EmptyString => Err UnexpectedEnd
        | String c1 r1 =>
            if (c1 =? "]")%char then Ok (Arr [], r1)
            else '(l, rest) <- parse_elems fuel r ;; Ok (Arr l, rest)
        end
      else if (c =? dquote)%char then
        '(t, rest) <- scan_string r ;; Ok (Str t, rest)
      else if (c =? "n")%char then
        rest <- expect "ull" r ;; Ok (Null, rest)
      else if (c =? "t")%char then
        rest <- expect "rue" r ;; Ok (Bool true, rest)
      else if (c =? "f")%char then
        rest <- expect "alse" r ;; Ok (Bool false, rest)
      else if is_digit c || (c =? "-")%char then
        '(n, rest) <- scan_number (String c r) ;; Ok (Num n, rest)
      else Err InvalidCharacter
  end.
Proof. reflexivity. Qed.

Lemma parse_elems_S (fuel : nat) (s : string) :
  parse_elems (S fuel) s =
  ('(v, r1) <- parse_value fuel s ;;
   match skip_ws r1 with
   | EmptyString => Err UnexpectedEnd
   | String c r2 =>
       if (c =? ",")%char then
         '(l, rest) <- parse_elems fuel r2 ;; Ok (v :: l, rest)
       else if (c =? "]")%char then Ok ([v], r2)
       else Err InvalidCharacter
   end).
Proof. reflexivity. Qed.

Lemma parse_members_S (fuel : nat) (acc : list (string * value)) (s : string) :
  parse_members (S fuel) acc s =
  match skip_ws s with
  | EmptyString => Err UnexpectedEnd
  | String q r =>
      if (q =? dquote)%char then
        '(k, r1) <- scan_string r ;;
        match skip_ws r1 with
        | EmptyString => Err UnexpectedEnd
        | String c r2 =>
            if (c =? ":")%char then
              '(v, r3) <- parse_value fuel r2 ;;
              let acc' := SMap.set k v acc in
              match skip_ws r3 with
              | EmptyString => Err UnexpectedEnd
              | String c' r4 =>
                  if (c' =? ",")%char then parse_members fuel acc' r4
                  else if (c' =? "}")%char then Ok (acc', r4)
                  else Err InvalidCharacter
              end
            else Err InvalidCharacter
        end
      else Err InvalidCharacter
  end.
Proof. reflexivity. Qed.

(** The text of a value begins with a character that announces a value. *)
Lemma encode_number_starts (n : Z) (rest : string) :
  starts_value (encode_number n ++ rest) = true.
Proof.
  unfold encode_number.
  pose proof (to_int_nonnil n) as Hnil.
  destruct (Z.to_int n) as [u|u]; simpl.
  - specialize (Hnil u (or_introl eq_refl)). destruct u; try congruence; reflexivity.
  - reflexivity.
Qed.

Lemma encode_starts (v : value) (rest : string) :
  starts_value (encode v ++ rest) = true.
Proof.
  destruct v as [|[]|n|s|l|m]; try reflexivity.
  apply encode_number_starts.
Qed.

Lemma starts_value_length (s : string) :
  starts_value s = true -> (1 <= String.length s)%nat.
Proof. destruct s; simpl; [discriminate | lia]. Qed.

Lemma encode_length_pos (v : value) : (1 <= String.length (encode v))%nat.
Proof.
  apply starts_value_length. rewrite <- (string_app_nil_r (encode v)).
  apply encode_starts.
Qed.

Lemma join_with_cons_starts {A : Type} (f : A -> string) (x : A) (l : list A)
      (rest : string) :
  (forall t, starts_value (f x ++ t) = true) ->
  starts_value (join_with f (x :: l) ++ rest) = true.
Proof.
  intros H. destruct l as [|y l]; simpl.
  - apply H.
  - rewrite string_app_assoc. apply H.
Qed.

Lemma parse_elems_join (l : list value) :
  l <> [] -> Forall reads_back l ->
  forall (fuel : nat) (rest : string),
    (String.length (join_with encode l) + 1 <= fuel)%nat ->
    parse_elems fuel (join_with encode l ++ String "]" rest)
    = Ok (map norm l, rest).
Proof.
  induction l as [|x l IH]; [congruence|].
  intros _ Hall fuel rest Hfuel.
  inversion Hall as [|? ? Hx Hl]; subst.
  pose proof (encode_length_pos x) as Hpos.
  destruct fuel as [|fuel]; [lia|].
  rewrite parse_elems_S.
  destruct l as [|y l].
  - simpl join_with in *.
    rewrite Hx; [|lia|reflexivity].
    reflexivity.
  - change (join_with encode (x :: y :: l))
      with (encode x ++ "," ++ join_with encode (y :: l)) in *.
    rewrite !string_length_app in Hfuel.
    change (String.length ",") with 1%nat in Hfuel.
    rewrite !string_app_assoc.
    rewrite Hx; [|lia|reflexivity].
    cbn [bind append skip_ws is_ws Ascii.eqb Bool.eqb orb].
    rewrite IH; [reflexivity | discriminate | assumption | lia].
Qed.


Lemma parse_members_join (m : list (string * value)) :
  m <> [] -> Forall (fun kx => reads_back (snd kx)) m ->
  forall (fuel : nat) (acc : list (string * value)) (rest : string),
    (String.length (join_with member_text m) + 1 <= fuel)%nat ->
    parse_members fuel acc (join_with member_text m ++ String "}" rest)
    = Ok (fold_left (fun acc kx => SMap.set (fst kx) (norm (snd kx)) acc) m acc,
          rest).
Proof.
  induction m as [|[k x] m IH]; [congruence|].
  intros _ Hall fuel acc rest Hfuel.
  inversion Hall as [|? ? Hx Hm]; subst. simpl in Hx.
  destruct fuel as [|fuel]; [lia|].
  rewrite parse_members_S.
  destruct m as [|y m].
  - simpl join_with in *. unfold member_text in *. simpl fst in *. simpl snd in *.
    rewrite !string_length_app in Hfuel.
    rewrite string_app_assoc, encode_string_app.
    cbn [skip_ws is_ws Ascii.eqb Bool.eqb orb dquote].
    rewrite scan_string_escape.
    cbn [bind append skip_ws is_ws Ascii.eqb Bool.eqb orb].
    rewrite Hx; [|lia|reflexivity].
    reflexivity.
  - change (join_with member_text ((k, x) :: y :: m))
      with (member_text (k, x) ++ "," ++ join_with member_text (y :: m)) in *.
    unfold member_text at 1. unfold member_text at 1 in Hfuel.
    simpl fst in *. simpl snd in *.
    rewrite !string_length_app in Hfuel.
    change (String.length ",") with 1%nat in Hfuel.
    rewrite !string_app_assoc, encode_string_app.
    cbn [skip_ws is_ws Ascii.eqb Bool.eqb orb dquote].
    rewrite scan_string_escape.
    cbn [bind append skip_ws is_ws Ascii.eqb Bool.eqb orb].
    rewrite Hx; [|lia|reflexivity].
    cbn [bind append skip_ws is_ws Ascii.eqb Bool.eqb orb].
    rewrite IH; [reflexivity | discriminate | assumption | lia].
Qed.


Lemma number_char_dispatch (c : ascii) :
  is_digit c || (c =? "-")%char = true ->
  (c =? "{")%char = false /\ (c =? "[")%char = false /\ (c =? dquote)%char = false
  /\ (c =? "n")%char = false /\ (c =? "t")%char = false /\ (c =? "f")%char = false.
Proof.
  destruct c as [[] [] [] [] [] [] [] []]; intros H;
    ((repeat split; reflexivity) || discriminate H).
Qed.

Lemma encode_number_first (n : Z) (rest : string) :
  exists c r, encode_number n ++ rest = String c r
              /\ is_digit c || (c =? "-")%char = true.
Proof.
  unfold encode_number.
  pose proof (to_int_nonnil n) as Hnil.
  destruct (Z.to_int n) as [u|u]; simpl.
  - specialize (Hnil u (or_introl eq_refl)).
    destruct u; try congruence; eexists _, _; split; reflexivity.
  - eexists _, _; split; reflexivity.
Qed.

Lemma reads_back_number (n : Z) : reads_back (Num n).
Proof.
  intros fuel rest Hfuel Hrest.
  pose proof (encode_length_pos (Num n)) as Hpos.
  destruct fuel as [|fuel]; [lia|].
  rewrite parse_value_S.
  rewrite skip_ws_starts_value by apply (encode_starts (Num n)).
  simpl encode.
  destruct (encode_number_first n rest) as (c & r & E & Hc).
  pose proof (scan_number_encode n rest Hrest) as Hscan.
  rewrite E in *.
  destruct (number_char_dispatch c Hc) as (H1 & H2 & H3 & H4 & H5 & H6).
  rewrite H1, H2, H3, H4, H5, H6, Hc, Hscan. reflexivity.
Qed.

Lemma reads_back_string (s : string) : reads_back (Str s).
Proof.
  intros fuel rest Hfuel Hrest.
  pose proof (encode_length_pos (Str s)) as Hpos.
  destruct fuel as [|fuel]; [lia|].
  rewrite parse_value_S. simpl encode. rewrite encode_string_app.
  cbn [skip_ws is_ws Ascii.eqb Bool.eqb orb dquote].
  rewrite scan_string_escape. reflexivity.
Qed.

Lemma reads_back_array (l : list value) :
  Forall reads_back l -> reads_back (Arr l).
Proof.
  intros Hall fuel rest Hfuel Hrest.
  destruct fuel as [|fuel]; [pose proof (encode_length_pos (Arr l)); lia|].
  rewrite parse_value_S.
  change (encode (Arr l)) with ("[" ++ join_with encode l ++ "]") in *.
  rewrite !string_length_app in Hfuel.
  change (String.length "[") with 1%nat in Hfuel.
  change (String.length "]") with 1%nat in Hfuel.
  rewrite !string_app_assoc.
  cbn [append skip_ws is_ws Ascii.eqb Bool.eqb orb].
  destruct l as [|x l]; [reflexivity|].
  assert (Hs : starts_value (join_with encode (x :: l) ++ String "]" rest) = true).
  { apply join_with_cons_starts. intros t. apply encode_starts. }
  rewrite (skip_ws_starts_value _ Hs).
  rewrite parse_elems_join; [| discriminate | assumption | lia].
  destruct (join_with encode (x :: l) ++ String "]" rest) as [|c r];
    [discriminate|].
  destruct (value_start_not_close c Hs) as [-> _]. reflexivity.
Qed.

Lemma reads_back_object (m : list (string * value)) :
  Forall (fun kx => reads_back (snd kx)) m -> reads_back (Obj m).
Proof.
  intros Hall fuel rest Hfuel Hrest.
  destruct fuel as [|fuel]; [pose proof (encode_length_pos (Obj m)); lia|].
  rewrite parse_value_S.
  change (encode (Obj m)) with ("{" ++ join_with member_text m ++ "}") in *.
  rewrite !string_length_app in Hfuel.
  change (String.length "{") with 1%nat in Hfuel.
  change (String.length "}") with 1%nat in Hfuel.
  rewrite !string_app_assoc.
  cbn [append skip_ws is_ws Ascii.eqb Bool.eqb orb].
  destruct m as [|[k x] m]; [reflexivity|].
  assert (Hs : starts_value (join_with member_text ((k, x) :: m) ++ String "}" rest)
               = true).
  { apply join_with_cons_starts. intros t. unfold member_text.
    rewrite string_app_assoc, encode_string_app. reflexivity. }
  rewrite (skip_ws_starts_value _ Hs).
  rewrite parse_members_join; [| discriminate | assumption | lia].
  destruct (join_with member_text ((k, x) :: m) ++ String "}" rest) as [|c r];
    [discriminate|].
  destruct (value_start_not_close c Hs) as [_ ->]. reflexivity.
Qed.

Theorem parse_value_encode (v : value) : reads_back v.
Proof.
  induction v as [|b|n|s|l IH|m IH] using value_ind_nested.
  - intros [|fuel] rest Hfuel _; [simpl in Hfuel; lia | reflexivity].
  - intros [|fuel] rest Hfuel _; [destruct b; simpl in Hfuel; lia|].
    destruct b; reflexivity.
  - apply reads_back_number.
  - apply reads_back_string.
  - now apply reads_back_array.
  - now apply reads_back_object.
Qed.

(** Decoding the text of a value gives the value back, its objects turned
    into maps. *)
Theorem decode_encode (v : value) : decode (encode v) = Ok (norm v).
Proof.
  unfold decode.
  rewrite <- (string_app_nil_r (encode v)) at 2.
  rewrite parse_value_encode; [reflexivity | lia | reflexivity].
Qed.

End JsonRoundTrip.

Section JsonCanonical.
Import Json.

(** Case analysis on the code of a parser along a successful run. *)
Ltac break_ok H :=
  repeat (unfold bind in H;
          match type of H with
          | Err _ = Ok _ => discriminate H
          | Ok _ = Ok _ => inversion H; subst; clear H
          | context [match ?x with _ => _ end] => destruct x eqn:?
          end).

Lemma canonical_empty_object : canonical (Obj []).
Proof. constructor; constructor. Qed.

Lemma parse_canonical (fuel : nat) :
  (forall s v r, parse_value fuel s = Ok (v, r) -> canonical v)
  /\ (forall s l r, parse_elems fuel s = Ok (l, r) -> Forall canonical l)
  /\ (forall acc s m r,
         parse_members fuel acc s = Ok (m, r) ->
         SMap.sorted acc -> Forall (fun kx => canonical (snd kx)) acc ->
         SMap.sorted m /\ Forall (fun kx => canonical (snd kx)) m).
Proof.
  induction fuel as [|fuel (IHv & IHe & IHm)].
  - repeat split; intros; discriminate.
  - split; [|split].
    + intros s v r H. rewrite parse_value_S in H.
      break_ok H; try (constructor; fail); try apply canonical_empty_object.
      * match goal with
        | Hm : parse_members _ _ _ = Ok _ |- _ =>
            destruct (IHm _ _ _ _ Hm) as [Hs Hc]; [constructor | constructor |]
        end.
        now constructor.
      * constructor. constructor.
      * constructor. eapply IHe; eassumption.
    + intros s l r H. rewrite parse_elems_S in H.
      break_ok H.
      * constructor; [eapply IHv | eapply IHe]; eassumption.
      * constructor; [eapply IHv; eassumption | constructor].
    + intros acc s m r H Hs Hc. rewrite parse_members_S in H.
      destruct (skip_ws s) as [|q r0]; [discriminate|].
      destruct (q =? dquote)%char; [|discriminate].
      destruct (scan_string r0) as [[k r1]|]; [|discriminate]. simpl in H.
      destruct (skip_ws r1) as [|c r2]; [discriminate|].
      destruct (c =? ":")%char; [|discriminate].
      destruct (parse_value fuel r2) as [[v r3]|] eqn:Hv; [|discriminate].
      simpl in H.
      assert (Hs' : SMap.sorted (SMap.set k v acc)) by now apply sorted_set.
      assert (Hc' : Forall (fun kx => canonical (snd kx)) (SMap.set k v acc)).
      { apply set_Forall; [|assumption]. simpl. eapply IHv; eassumption. }
      destruct (skip_ws r3) as [|c' r4]; [discriminate|].
      destruct (c' =? ",")%char.
      * eapply IHm; eassumption.
      * destruct (c' =? "}")%char; [|discriminate].
        inversion H; subst. auto.
Qed.

(** The decoder returns maps only. *)
Theorem decode_canonical (s : string) (v : value) :
  decode s = Ok v -> canonical v.
Proof.
  unfold decode. intros H.
  destruct (parse_value (2 * String.length s + 2) s) as [[v' r]|] eqn:Hp;
    [|discriminate].
  simpl in H. destruct (skip_ws r); [|discriminate].
  inversion H; subst.
  eapply (proj1 (parse_canonical _)); eassumption.
Qed.

Lemma map_values_id (g : value -> value) (m : list (string * value)) :
  Forall (fun kx => g (snd kx) = snd kx) m ->
  map (fun kx => (fst kx, g (snd kx))) m = m.
Proof.
  induction 1 as [|[k x] m Hx _ IH]; simpl; [reflexivity|].
  simpl in Hx. now rewrite Hx, IH.
Qed.

(** On a sorted object the normal form changes the values only. *)
Lemma norm_sorted_object (m : list (string * value)) :
  SMap.sorted (map (fun kx => (fst kx, norm (snd kx))) m) ->
  norm (Obj m) = Obj (map (fun kx => (fst kx, norm (snd kx))) m).
Proof.
  intros Hs. simpl. f_equal.
  rewrite (fold_set_sorted norm m []); [reflexivity | assumption |].
  intros x y [].
Qed.

Theorem canonical_norm (v : value) : canonical v -> norm v = v.
Proof.
  induction v as [|b|n|s|l IH|m IH] using value_ind_nested;
    intros Hc; try reflexivity.
  - inversion Hc as [| | | |? Hl|]; subst. simpl. f_equal.
    induction IH as [|x l Hx _ IHl]; [reflexivity|].
    inversion Hl; subst. simpl. f_equal; auto.
    apply IHl; [constructor|]; assumption.
  - inversion Hc as [| | | | |? Hs Hm]; subst.
    assert (Hid : map (fun kx => (fst kx, norm (snd kx))) m = m).
    { apply map_values_id.
      rewrite Forall_forall in *. intros kx Hin. auto. }
    rewrite norm_sorted_object; rewrite Hid; auto.
Qed.

Lemma fold_set_canonical (m acc : list (string * value)) :
  Forall (fun kx => canonical (norm (snd kx))) m ->
  SMap.sorted acc -> Forall (fun kx => canonical (snd kx)) acc ->
  let r := fold_left (fun acc kx => SMap.set (fst kx) (norm (snd kx)) acc) m acc in
  SMap.sorted r /\ Forall (fun kx => canonical (snd kx)) r.
Proof.
  revert acc. induction m as [|[k x] m IH]; simpl; intros acc Hm Hs Hc.
  - auto.
  - inversion Hm; subst. apply IH; [assumption | now apply sorted_set |].
    apply set_Forall; assumption.
Qed.

Theorem norm_canonical (v : value) : canonical (norm v).
Proof.
  induction v as [|b|n|s|l IH|m IH] using value_ind_nested;
    try (constructor; fail).
  - simpl. constructor. induction IH; simpl; constructor; auto.
  - simpl.
    destruct (fold_set_canonical m [] IH) as [Hs Hc];
      [constructor | constructor |].
    now constructor.
Qed.

Corollary norm_idempotent (v : value) : norm (norm v) = norm v.
Proof. apply canonical_norm, norm_canonical. Qed.

End JsonCanonical.

Section JsonFuel.
Import Json.

Lemma skip_ws_length (s : string) :
  (String.length (skip_ws s) <= String.length s)%nat.
Proof.
  induction s as [|c s IH]; simpl; [lia|].
  destruct (is_ws c); simpl; lia.
Qed.

Lemma skip_ws_cons_length (s : string) (c : ascii) (r : string) :
  skip_ws s = String c r -> (String.length r < String.length s)%nat.
Proof.
  intros H. pose proof (skip_ws_length s) as Hl. rewrite H in Hl.
  simpl in Hl. lia.
Qed.

(** A string literal is scanned without fuel, and leaves less input. *)
Lemma scan_string_spec (n : nat) :
  forall s, (String.length s <= n)%nat ->
    scan_string s <> Err OutOfFuel
    /\ forall t r, scan_string s = Ok (t, r) ->
                   (String.length r < String.length s)%nat.
Proof.
  induction n as [|n IH]; intros s Hn.
  - destruct s; [|simpl in Hn; lia]. split; simpl; [discriminate|].
    intros t r H. discriminate H.
  - destruct s as [|c r0]; [split; simpl; [discriminate | intros; discriminate]|].
    simpl in Hn. simpl.
    destruct (c =? dquote)%char.
    { split; [discriminate|]. intros t r H. inversion H; subst. simpl. lia. }
    destruct (c =? backslash)%char.
    { destruct r0 as [|e r1]; [split; [discriminate | intros; discriminate]|].
      simpl in Hn.
      destruct (e =? "u")%char.
      - destruct r1 as [|x1 [|x2 [|x3 [|x4 r2]]]];
          try (match goal with
               | |- context [all_hex ?x] => destruct (all_hex x)
               end; (split; [discriminate | intros ? ? H; discriminate H])).
        destruct (hex4 x1 x2 x3 x4) as [k|];
          [|split; [discriminate | intros; discriminate]].
        destruct (is_surrogate k); [split; [discriminate | intros; discriminate]|].
        destruct (IH r2 ltac:(simpl in Hn; lia)) as [Hf Hs].
        destruct (scan_string r2) as [[t0 rest]|e0]; simpl.
        + split; [discriminate|]. intros t r H. inversion H; subst.
          specialize (Hs _ _ eq_refl). simpl. lia.
        + split; [congruence | intros; discriminate].
      - destruct (unescape e); [|split; [discriminate | intros; discriminate]].
        destruct (IH r1 ltac:(lia)) as [Hf Hs].
        destruct (scan_string r1) as [[t0 rest]|e0]; simpl.
        + split; [discriminate|]. intros t r H. inversion H; subst.
          specialize (Hs _ _ eq_refl). simpl. lia.
        + split; [congruence | intros; discriminate]. }
    destruct (N_of_ascii c <? 32)%N; [split; [discriminate | intros; discriminate]|].
    destruct (IH r0 ltac:(lia)) as [Hf Hs].
    destruct (scan_string r0) as [[t0 rest]|e0]; simpl.
    + split; [discriminate|]. intros t r H. inversion H; subst.
      specialize (Hs _ _ eq_refl). lia.
    + split; [congruence | intros; discriminate].
Qed.

Lemma scan_string_fueled (s : string) : scan_string s <> Err OutOfFuel.
Proof. exact (proj1 (scan_string_spec _ s (le_n _))). Qed.

Lemma scan_string_shrinks (s t r : string) :
  scan_string s = Ok (t, r) -> (String.length r < String.length s)%nat.
Proof. exact (proj2 (scan_string_spec _ s (le_n _)) t r). Qed.

Lemma scan_digits_length (s : string) :
  (String.length (snd (scan_digits s)) <= String.length s)%nat
  /\ (fst (scan_digits s) <> Decimal.Nil ->
      (String.length (snd (scan_digits s)) < String.length s)%nat).
Proof.
  induction s as [|c s [IH1 IH2]]; simpl; [split; [lia | congruence]|].
  destruct (is_digit c); simpl; [|split; [lia | congruence]].
  destruct (scan_digits s) as [u rest]; simpl in *. split; lia.
Qed.

Lemma reject_number_spec (d : Decimal.int) (A : Type) :
  exists e : error,
    match d with
    | Decimal.Neg (Decimal.D0 Decimal.Nil) => @Err error A OutsideFragment
    | _ => Err InvalidCharacter
    end = Err e /\ e <> OutOfFuel.
Proof.
  destruct d as [u|u]; [eexists; split; [reflexivity | discriminate]|].
  destruct u as [|u|u|u|u|u|u|u|u|u|u];
    try (eexists; split; [reflexivity | discriminate]).
  destruct u; eexists; split; try reflexivity; discriminate.
Qed.

Lemma scan_number_spec (s : string) :
  scan_number s <> Err OutOfFuel
  /\ forall n r, scan_number s = Ok (n, r) ->
                 (String.length r < String.length s)%nat.
Proof.
  unfold scan_number.
  set (nb := match s with
             | String c r => if (c =? "-")%char then (true, r) else (false, s)
             | EmptyString => (false, s)
             end).
  assert (Hb : (String.length (snd nb) <= String.length s)%nat).
  { subst nb. destruct s as [|c r]; simpl; [lia|].
    destruct (c =? "-")%char; simpl; lia. }
  destruct nb as [neg body]. simpl in Hb.
  pose proof (scan_digits_length body) as [_ Hd].
  destruct (scan_digits body) as [u rest]. simpl in Hd.
  assert (Key : u <> Decimal.Nil -> (String.length rest < String.length s)%nat).
  { intros Hu. specialize (Hd Hu). lia. }
  clear Hd Hb.
  assert (Hgen : forall d : Decimal.int,
             (if starts_fraction rest then Err OutsideFragment
              else if Decimal.int_beq (Decimal.norm d) d then Ok (Z.of_int d, rest)
                   else match d with
                        | Decimal.Neg (Decimal.D0 Decimal.Nil) => Err OutsideFragment
                        | _ => Err InvalidCharacter
                        end) <> Err OutOfFuel
             /\ forall n r,
                 (if starts_fraction rest then Err OutsideFragment
                  else if Decimal.int_beq (Decimal.norm d) d then Ok (Z.of_int d, rest)
                       else match d with
                            | Decimal.Neg (Decimal.D0 Decimal.Nil) =>
                                Err OutsideFragment
                            | _ => Err InvalidCharacter
                            end) = Ok (n, r) -> r = rest).
  { intros d. destruct (starts_fraction rest);
      [split; [discriminate | intros ? ? H; discriminate H]|].
    destruct (Decimal.int_beq (Decimal.norm d) d).
    - split; [discriminate|]. intros n r H. now inversion H.
    - destruct (reject_number_spec d (Z * string)) as (e & -> & He).
      split; [congruence | intros ? ? H; discriminate H]. }
  destruct u;
    try (destruct body; (split; [discriminate | intros ? ? H; discriminate H]));
    (split; [apply Hgen|]; intros n r H; apply Hgen in H; subst r;
     apply Key; discriminate).
Qed.

Lemma expect_spec (lit s : string) :
  expect lit s <> Err OutOfFuel
  /\ forall r, expect lit s = Ok r -> (String.length r <= String.length s)%nat.
Proof.
  revert s. induction lit as [|c lit IH]; intros s; simpl.
  - split; [discriminate|]. intros r H. inversion H. lia.
  - destruct s as [|d s]; [split; [discriminate | intros; discriminate]|].
    destruct (c =? d)%char; [|split; [discriminate | intros; discriminate]].
    destruct (IH s) as [Hf Hs]. split; [assumption|].
    intros r H. specialize (Hs r H). simpl. lia.
Qed.


(** A successful run of a parser leaves less input than it was given. *)
Lemma parse_shrinks (fuel : nat) :
  (forall s v r, parse_value fuel s = Ok (v, r) ->
                 (String.length r < String.length s)%nat)
  /\ (forall s l r, parse_elems fuel s = Ok (l, r) ->
                    (String.length r < String.length s)%nat)
  /\ (forall acc s m r, parse_members fuel acc s = Ok (m, r) ->
                        (String.length r < String.length s)%nat).
Proof.
  induction fuel as [|fuel (IHv & IHe & IHm)].
  - repeat split; intros; discriminate.
  - split; [|split].
    + intros s v r H. rewrite parse_value_S in H.
      destruct (skip_ws s) as [|c r0] eqn:Es; [discriminate|].
      pose proof (skip_ws_cons_length _ _ _ Es) as L0.
      destruct (c =? "{")%char.
      { destruct (skip_ws r0) as [|c1 r1] eqn:E1; [discriminate|].
        pose proof (skip_ws_cons_length _ _ _ E1) as L1.
        destruct (c1 =? "}")%char; [inversion H; subst; lia|].
        destruct (parse_members fuel [] r0) as [[m rest]|] eqn:Hm;
          [|discriminate].
        simpl in H. inversion H; subst. apply IHm in Hm. lia. }
      destruct (c =? "[")%char.
      { destruct (skip_ws r0) as [|c1 r1] eqn:E1; [discriminate|].
        pose proof (skip_ws_cons_length _ _ _ E1) as L1.
        destruct (c1 =? "]")%char; [inversion H; subst; lia|].
        destruct (parse_elems fuel r0) as [[l rest]|] eqn:Hl; [|discriminate].
        simpl in H. inversion H; subst. apply IHe in Hl. lia. }
      destruct (c =? dquote)%char.
      { destruct (scan_string r0) as [[t rest]|] eqn:Hs; [|discriminate].
        simpl in H. inversion H; subst. apply scan_string_shrinks in Hs. lia. }
      destruct (c =? "n")%char.
      { destruct (expect "ull" r0) as [rest|] eqn:He; [|discriminate].
        simpl in H. inversion H; subst. apply expect_spec in He. lia. }
      destruct (c =? "t")%char.
      { destruct (expect "rue" r0) as [rest|] eqn:He; [|discriminate].
        simpl in H. inversion H; subst. apply expect_spec in He. lia. }
      destruct (c =? "f")%char.
      { destruct (expect "alse" r0) as [rest|] eqn:He; [|discriminate].
        simpl in H. inversion H; subst. apply expect_spec in He. lia. }
      destruct (is_digit c || (c =? "-")%char); [|discriminate].
      destruct (scan_number (String c r0)) as [[n rest]|] eqn:Hn; [|discriminate].
      simpl in H. inversion H; subst. apply scan_number_spec in Hn.
      simpl in Hn. lia.
    + intros s l r H. rewrite parse_elems_S in H.
      destruct (parse_value fuel s) as [[v r1]|] eqn:Hv; [|discriminate].
      simpl in H. apply IHv in Hv.
      destruct (skip_ws r1) as [|c r2] eqn:E; [discriminate|].
      pose proof (skip_ws_cons_length _ _ _ E) as L.
      destruct (c =? ",")%char.
      { destruct (parse_elems fuel r2) as [[l' rest]|] eqn:Hl; [|discriminate].
        simpl in H. inversion H; subst. apply IHe in Hl. lia. }
      destruct (c =? "]")%char; [|discriminate].
      inversion H; subst. lia.
    + intros acc s m r H. rewrite parse_members_S in H.
      destruct (skip_ws s) as [|q r0] eqn:Es; [discriminate|].
      pose proof (skip_ws_cons_length _ _ _ Es) as L0.
      destruct (q =? dquote)%char; [|discriminate].
      destruct (scan_string r0) as [[k r1]|] eqn:Hs; [|discriminate].
      simpl in H. apply scan_string_shrinks in Hs.
      destruct (skip_ws r1) as [|c r2] eqn:E1; [discriminate|].
      pose proof (skip_ws_cons_length _ _ _ E1) as L1.
      destruct (c =? ":")%char; [|discriminate].
      destruct (parse_value fuel r2) as [[v r3]|] eqn:Hv; [|discriminate].
      simpl in H. apply IHv in Hv.
      destruct (skip_ws r3) as [|c' r4] eqn:E3; [discriminate|].
      pose proof (skip_ws_cons_length _ _ _ E3) as L3.
      destruct (c' =? ",")%char; [apply IHm in H; lia|].
      destruct (c' =? "}")%char; [|discriminate].
      inversion H; subst. lia.
Qed.

(** With twice the length of the input as fuel, and a little more, the
    parsers never run out of it. *)
Lemma parse_fueled (fuel : nat) :
  (forall s, (2 * String.length s + 1 <= fuel)%nat ->
             parse_value fuel s <> Err OutOfFuel)
  /\ (forall s, (2 * String.length s + 2 <= fuel)%nat ->
                parse_elems fuel s <> Err OutOfFuel)
  /\ (forall acc s, (2 * String.length s + 2 <= fuel)%nat ->
                    parse_members fuel acc s <> Err OutOfFuel).
Proof.
  induction fuel as [|fuel (IHv & IHe & IHm)].
  - repeat split; intros; lia.
  - destruct (parse_shrinks fuel) as (Sv & Se & Sm).
    split; [|split].
    + intros s Hlen H. rewrite parse_value_S in H.
      destruct (skip_ws s) as [|c r0] eqn:Es; [discriminate|].
      pose proof (skip_ws_cons_length _ _ _ Es) as L0.
      destruct (c =? "{")%char.
      { destruct (skip_ws r0) as [|c1 r1] eqn:E1; [discriminate|].
        destruct (c1 =? "}")%char; [discriminate|].
        destruct (parse_members fuel [] r0) as [[m rest]|e] eqn:Hm;
          [discriminate|].
        simpl in H. inversion H; subst.
        apply (IHm [] r0); [lia | exact Hm]. }
      destruct (c =? "[")%char.
      { destruct (skip_ws r0) as [|c1 r1] eqn:E1; [discriminate|].
        destruct (c1 =? "]")%char; [discriminate|].
        destruct (parse_elems fuel r0) as [[l rest]|e] eqn:Hl; [discriminate|].
        simpl in H. inversion H; subst.
        apply (IHe r0); [lia | exact Hl]. }
      destruct (c =? dquote)%char.
      { destruct (scan_string r0) as [[t rest]|e] eqn:Hs; [discriminate|].
        simpl in H. inversion H; subst. exact (scan_string_fueled _ Hs). }
      destruct (c =? "n")%char.
      { destruct (expect "ull" r0) as [rest|e] eqn:He; [discriminate|].
        simpl in H. inversion H; subst. exact (proj1 (expect_spec _ _) He). }
      destruct (c =? "t")%char.
      { destruct (expect "rue" r0) as [rest|e] eqn:He; [discriminate|].
        simpl in H. inversion H; subst. exact (proj1 (expect_spec _ _) He). }
      destruct (c =? "f")%char.
      { destruct (expect "alse" r0) as [rest|e] eqn:He; [discriminate|].
        simpl in H. inversion H; subst. exact (proj1 (expect_spec _ _) He). }
      destruct (is_digit c || (c =? "-")%char); [|discriminate].
      destruct (scan_number (String c r0)) as [[n rest]|e] eqn:Hn; [discriminate|].
      simpl in H. inversion H; subst. exact (proj1 (scan_number_spec _) Hn).
    + intros s Hlen H. rewrite parse_elems_S in H.
      destruct (parse_value fuel s) as [[v r1]|e] eqn:Hv.
      * simpl in H. apply Sv in Hv.
        destruct (skip_ws r1) as [|c r2] eqn:E; [discriminate|].
        pose proof (skip_ws_cons_length _ _ _ E) as L.
        destruct (c =? ",")%char.
        { destruct (parse_elems fuel r2) as [[l' rest]|e] eqn:Hl; [discriminate|].
          simpl in H. inversion H; subst.
          apply (IHe r2); [lia | exact Hl]. }
        destruct (c =? "]")%char; discriminate.
      * simpl in H. inversion H; subst.
        apply (IHv s); [lia | exact Hv].
    + intros acc s Hlen H. rewrite parse_members_S in H.
      destruct (skip_ws s) as [|q r0] eqn:Es; [discriminate|].
      pose proof (skip_ws_cons_length _ _ _ Es) as L0.
      destruct (q =? dquote)%char; [|discriminate].
      destruct (scan_string r0) as [[k r1]|e] eqn:Hs.
      * simpl in H. apply scan_string_shrinks in Hs.
        destruct (skip_ws r1) as [|c r2] eqn:E1; [discriminate|].
        pose proof (skip_ws_cons_length _ _ _ E1) as L1.
        destruct (c =? ":")%char; [|discriminate].
        destruct (parse_value fuel r2) as [[v r3]|e] eqn:Hv.
        { simpl in H. apply Sv in Hv.
          destruct (skip_ws r3) as [|c' r4] eqn:E3; [discriminate|].
          pose proof (skip_ws_cons_length _ _ _ E3) as L3.
          destruct (c' =? ",")%char.
          - apply (IHm (SMap.set k v acc) r4); [lia | exact H].
          - destruct (c' =? "}")%char; discriminate. }
        simpl in H. inversion H; subst.
        apply (IHv r2); [lia | exact Hv].
      * simpl in H. inversion H; subst. exact (scan_string_fueled _ Hs).
Qed.

(** The decoder never fails for want of fuel. *)
Theorem decode_fueled (s : string) : decode s <> Err OutOfFuel.
Proof.
  unfold decode. intros H.
  destruct (parse_value (2 * String.length s + 2) s) as [[v r]|e] eqn:Hp.
  - simpl in H. destruct (skip_ws r); discriminate.
  - simpl in H. inversion H; subst.
    apply (proj1 (parse_fueled (2 * String.length s + 2)) s); [lia | exact Hp].
Qed.

End JsonFuel.

(** ** Injection into a configuration *)

Section Inject.
Import libcni.

Lemma unmarshal_map_canonical (bytes : string) (m : list (string * Json.value)) :
  unmarshal_map bytes = Ok m ->
  SMap.sorted m /\ Forall (fun kx => Json.canonical (snd kx)) m.
Proof.
  unfold unmarshal_map. intros H.
  destruct (Json.decode bytes) as [v|] eqn:Hd; [|discriminate].
  simpl in H. destruct v; try discriminate; inversion H; subst.
  - split; constructor.
  - apply decode_canonical in Hd. inversion Hd; subst. auto.
Qed.

(** Serializing a map after an assignment and reading it back gives the
    map with the assigned value in normal form. *)
Lemma unmarshal_marshal_set (m : list (string * Json.value)) (key : string)
      (v : Json.value) :
  SMap.sorted m -> Forall (fun kx => Json.canonical (snd kx)) m ->
  Json.decode (Json.encode (Json.Obj (SMap.set key v m)))
  = Ok (Json.Obj (SMap.set key (Json.norm v) m)).
Proof.
  intros Hs Hc. rewrite decode_encode.
  assert (Hid : map (fun kx => (fst kx, Json.norm (snd kx))) m = m).
  { apply map_values_id. eapply Forall_impl; [|exact Hc].
    intros kx. apply canonical_norm. }
  assert (Hmap : map (fun kx => (fst kx, Json.norm (snd kx))) (SMap.set key v m)
                 = SMap.set key (Json.norm v) m).
  { rewrite map_set, Hid. reflexivity. }
  rewrite norm_sorted_object; rewrite Hmap; [reflexivity|].
  now apply sorted_set.
Qed.

(** The bytes and the map of the configuration that an injection returns. *)
Lemma InjectConf_Ok_inv (c c1 : NetworkConfig) (key : string) (v : Json.value) :
  InjectConf c key (Some v) = Ok c1 ->
  exists m,
    unmarshal_map (Bytes c) = Ok m
    /\ Bytes c1 = Json.encode (Json.Obj (SMap.set key v m))
    /\ unmarshal_map (Bytes c1) = Ok (SMap.set key (Json.norm v) m)
    /\ ConfFromBytes (Bytes c1) = Ok c1.
Proof.
  unfold InjectConf. intros H.
  destruct (unmarshal_map (Bytes c)) as [m|] eqn:Hm; [|discriminate].
  destruct (String.eqb key ""); [discriminate|].
  exists m. split; [reflexivity|].
  destruct (unmarshal_map_canonical _ _ Hm) as [Hs Hc].
  assert (Hb : Bytes c1 = Json.encode (Json.Obj (SMap.set key v m))).
  { unfold ConfFromBytes in H.
    destruct (Json.decode _); [|discriminate].
    destruct (types.NetConf_of_json _); [|discriminate].
    inversion H; reflexivity. }
  rewrite Hb. repeat split; [|exact H].
  unfold unmarshal_map. rewrite unmarshal_marshal_set by assumption.
  reflexivity.
Qed.

Lemma InjectConf_again (c c1 : NetworkConfig) (key : string) (v : Json.value) :
  InjectConf c key (Some v) = Ok c1 ->
  InjectConf c1 key (Some v) = Ok c1.
Proof.
  intros H.
  destruct (InjectConf_Ok_inv _ _ _ _ H) as (m & Hm & Hb & Hm1 & Hc1).
  assert (Hk : String.eqb key "" = false).
  { unfold InjectConf in H. rewrite Hm in H.
    destruct (String.eqb key ""); [discriminate | reflexivity]. }
  unfold InjectConf. rewrite Hm1, Hk, set_set, <- Hb. exact Hc1.
Qed.

End Inject.

(** In the model [InjectConf] is idempotent: injecting the same key and
    value into the result of a first injection returns that very result
    again, the same bytes and the same typed view; when the first
    injection fails, so does the composition, with the same error.  This
    is a fact about the codec of this file and reaches no further than its
    fragment of JSON: bytes that hold a number with a fraction or an
    exponent do not decode here, and integers are kept exact where Go
    takes them through [float64]. *)
Theorem InjectConf_idempotent :
  forall (c : libcni.NetworkConfig) (key : string) (newValue : option Json.value),
    (c1 <- libcni.InjectConf c key newValue ;; libcni.InjectConf c1 key newValue)
    = libcni.InjectConf c key newValue.
Proof.
  intros c key newValue.
  destruct (libcni.InjectConf c key newValue) as [c1|e] eqn:H; [|reflexivity].
  simpl. destruct newValue as [v|].
  - exact (InjectConf_again c c1 key v H).
  - unfold libcni.InjectConf in H.
    destruct (libcni.unmarshal_map (libcni.Bytes c)); [|discriminate].
    destruct (String.eqb key ""); discriminate.
Qed.

(** The three checks of the model of [InjectConf], in their order.  Bytes
    that do not unmarshal into a map here give the error that begins with
    "unmarshal existing network bytes", whatever the key and the value, an
    empty key included.  Otherwise an empty key gives "key value can not be
    empty", whatever the value.  Otherwise a nil value gives "newValue must
    be specified".  Bytes that do not unmarshal here are not the same as
    bytes that are not valid JSON: valid JSON outside the fragment of the
    codec, and valid JSON that is no object, are among them. *)
Theorem InjectConf_preconditions :
  forall (c : libcni.NetworkConfig) (key : string) (newValue : option Json.value),
    (forall e, libcni.unmarshal_map (libcni.Bytes c) = Err e ->
       libcni.InjectConf c key newValue
       = Err (Error ParseError
                ("unmarshal existing network bytes" ++ ": " ++ Json.error_text e)))
    /\ (forall m, libcni.unmarshal_map (libcni.Bytes c) = Ok m ->
          key = "" ->
          libcni.InjectConf c key newValue
          = Err (Error ValidationError "key value can not be empty"))
    /\ (forall m, libcni.unmarshal_map (libcni.Bytes c) = Ok m ->
          key <> "" -> newValue = None ->
          libcni.InjectConf c key newValue
          = Err (Error ValidationError "newValue must be specified")).
Proof.
  intros c key newValue. unfold libcni.InjectConf.
  split; [|split].
  - intros e ->. reflexivity.
  - intros m -> ->. reflexivity.
  - intros m -> Hk ->.
    apply String.eqb_neq in Hk. rewrite Hk. reflexivity.
Qed.

(** ** The file system and the scan *)

Section FileSystem.

Lemma resolve_app (root : fs.node) (p q : fs.path) :
  fs.resolve root (p ++ q)%list
  = match fs.resolve root p with
    | Some x => fs.resolve x q
    | None => None
    end.
Proof.
  revert root. induction p as [|c p IH]; intros root; simpl; [reflexivity|].
  destruct root as [content|es]; [reflexivity|].
  destruct (fs.lookup c es); [apply IH | reflexivity].
Qed.

Lemma lookup_In (es : list (string * fs.node)) (name : string) (x : fs.node) :
  NoDup (map fst es) -> In (name, x) es -> fs.lookup name es = Some x.
Proof.
  induction es as [|[n y] es IH]; simpl; intros Hnd Hin; [contradiction|].
  inversion Hnd as [|? ? Hnotin Hnd']; subst.
  destruct Hin as [H|H].
  - inversion H; subst. now rewrite String.eqb_refl.
  - destruct (String.eqb_spec name n) as [->|Hne].
    + exfalso. apply Hnotin. apply in_map_iff. exists (n, x). auto.
    + auto.
Qed.

(** Reading a regular file that the directory lists. *)
Lemma ReadFile_Join (root : fs.node) (dir : fs.path)
      (es : list (string * fs.node)) (name content : string) :
  fs.resolve root dir = Some (fs.Dir es) ->
  NoDup (map fst es) ->
  In (name, fs.File content) es ->
  fs.ReadFile root (fs.Join dir name) = Some content.
Proof.
  intros Hdir Hnd Hin. unfold fs.ReadFile, fs.Join.
  rewrite resolve_app, Hdir. simpl.
  rewrite (lookup_In _ _ _ Hnd Hin). reflexivity.
Qed.

Lemma candidates_In (es : list (string * fs.node)) (exts : list string)
      (f : string) :
  In f (libcni.candidates es exts) <->
  exists content, In (f, fs.File content) es
                  /\ existsb (String.eqb (fs.Ext f)) exts = true.
Proof.
  unfold libcni.candidates. rewrite in_map_iff. split.
  - intros ([n x] & Hf & Hin). simpl in Hf. subst.
    apply filter_In in Hin. destruct Hin as [Hin Hb]. simpl in Hb.
    apply andb_true_iff in Hb. destruct Hb as [Hfile Hext].
    destruct x as [content|]; [|discriminate].
    exists content. auto.
  - intros (content & Hin & Hext). exists (f, fs.File content).
    split; [reflexivity|]. apply filter_In. split; [assumption|].
    simpl. exact Hext.
Qed.

(** Subdirectories are never candidates, whatever they are called and
    whatever they hold. *)
Lemma candidates_skip_dir (es : list (string * fs.node)) (exts : list string)
      (sub : string) (below : list (string * fs.node)) :
  libcni.candidates ((sub, fs.Dir below) :: es) exts = libcni.candidates es exts.
Proof. reflexivity. Qed.

End FileSystem.

Section Sorting.

Lemma insert_sorted_In (x y : string) (l : list string) :
  In y (insert_sorted x l) <-> y = x \/ In y l.
Proof.
  induction l as [|z l IH]; simpl.
  - intuition.
  - destruct (String.leb x z); simpl; [intuition|].
    rewrite IH. intuition.
Qed.

Lemma sort_strings_In (y : string) (l : list string) :
  In y (sort_strings l) <-> In y l.
Proof.
  induction l as [|x l IH]; simpl; [reflexivity|].
  rewrite insert_sorted_In, IH. intuition.
Qed.

Lemma insert_sorted_sorted (x : string) (l : list string) :
  StronglySorted le_string l -> StronglySorted le_string (insert_sorted x l).
Proof.
  induction l as [|z l IH]; simpl; intros Hs.
  - constructor; constructor.
  - inversion Hs as [|? ? Hs' Hall]; subst.
    destruct (String.leb x z) eqn:Hxz.
    + constructor; [assumption|]. constructor; [exact Hxz|].
      eapply Forall_impl; [|exact Hall].
      intros a Ha. eapply leb_trans; eassumption.
    + constructor; [auto|].
      apply Forall_forall. intros a Ha.
      apply insert_sorted_In in Ha. destruct Ha as [->|Ha].
      * unfold le_string. apply leb_false_lt in Hxz.
        unfold String.leb. now rewrite Hxz.
      * rewrite Forall_forall in Hall. auto.
Qed.

Lemma sort_strings_sorted (l : list string) :
  StronglySorted le_string (sort_strings l).
Proof.
  induction l as [|x l IH]; simpl; [constructor|].
  now apply insert_sorted_sorted.
Qed.

Lemma sort_strings_single (x : string) : sort_strings [x] = [x].
Proof. reflexivity. Qed.

Lemma sort_strings_nil_inv (l : list string) : sort_strings l = [] -> l = [].
Proof.
  destruct l as [|x l]; [reflexivity|]. intros H.
  assert (Hin : In x (sort_strings (x :: l))) by (apply sort_strings_In; now left).
  rewrite H in Hin. contradiction.
Qed.

End Sorting.

Section Scan.
Context {A : Type}.
Variables (load : fs.path -> res error A) (name_of : A -> string).
Variables (missing : error) (dir : fs.path) (name : string).

Local Abbreviation passes := (libcni.passes load name_of dir name).

Lemma scan_files_all_pass (files : list string) :
  (forall f, In f files -> passes f) ->
  libcni.scan_files load name_of missing dir name files = Err missing.
Proof.
  induction files as [|f files IH]; simpl; intros H; [reflexivity|].
  destruct (H f (or_introl eq_refl)) as (conf & -> & Hne).
  apply String.eqb_neq in Hne. rewrite Hne.
  apply IH. intros g Hg. apply H. now right.
Qed.

(** The scan stops at a file that fails to load when every file sorted
    before it passes. *)
Lemma scan_files_first_error (files : list string) (bad : string) (e : error) :
  StronglySorted le_string files ->
  In bad files ->
  load (fs.Join dir bad) = Err e ->
  (forall g, In g files -> String.ltb g bad = true -> passes g) ->
  libcni.scan_files load name_of missing dir name files = Err e.
Proof.
  induction files as [|f files IH]; simpl; intros Hs Hin Hbad Hbefore;
    [contradiction|].
  inversion_clear Hs as [|? ? Hs' Hall].
  destruct (String.eqb_spec f bad) as [->|Hne].
  - now rewrite Hbad.
  - destruct Hin as [Hin|Hin]; [congruence|].
    assert (Hlt : String.ltb f bad = true).
    { rewrite Forall_forall in Hall. specialize (Hall bad Hin).
      unfold le_string, String.leb in Hall. unfold String.ltb.
      destruct (String.compare f bad) eqn:Hc; try reflexivity; try discriminate.
      apply String.compare_eq_iff in Hc. congruence. }
    destruct (Hbefore f (or_introl eq_refl) Hlt) as (conf & -> & Hn).
    apply String.eqb_neq in Hn. rewrite Hn.
    apply IH; auto.
Qed.

(** The scan returns the first configuration with the requested name when
    every file sorted before it passes. *)
Lemma scan_files_first_match (files : list string) (f : string) (conf : A) :
  StronglySorted le_string files ->
  In f files ->
  load (fs.Join dir f) = Ok conf -> name_of conf = name ->
  (forall g, In g files -> String.ltb g f = true -> passes g) ->
  libcni.scan_files load name_of missing dir name files = Ok conf.
Proof.
  induction files as [|g files IH]; simpl; intros Hs Hin Hload Hname Hbefore;
    [contradiction|].
  inversion_clear Hs as [|? ? Hs' Hall].
  destruct (String.eqb_spec g f) as [->|Hne].
  - rewrite Hload, Hname, String.eqb_refl. reflexivity.
  - destruct Hin as [Hin|Hin]; [congruence|].
    assert (Hlt : String.ltb g f = true).
    { rewrite Forall_forall in Hall. specialize (Hall f Hin).
      unfold le_string, String.leb in Hall. unfold String.ltb.
      destruct (String.compare g f) eqn:Hc; try reflexivity; try discriminate.
      apply String.compare_eq_iff in Hc. congruence. }
    destruct (Hbefore g (or_introl eq_refl) Hlt) as (conf' & -> & Hn).
    apply String.eqb_neq in Hn. rewrite Hn.
    apply IH; auto.
Qed.

End Scan.

(** ** Loading by name *)

Section Loader.
Import libcni.

Lemma existsb_eqb_In (x : string) (l : list string) :
  existsb (String.eqb x) l = true <-> In x l.
Proof.
  rewrite existsb_exists. split.
  - intros (y & Hin & Heq). apply String.eqb_eq in Heq. now subst.
  - intros Hin. exists x. split; [assumption | apply String.eqb_refl].
Qed.

Lemma candidates_has_ext (es : list (string * fs.node)) (exts : list string)
      (f : string) :
  In f (candidates es exts) <->
  exists content, In (f, fs.File content) es /\ has_ext exts f.
Proof.
  rewrite candidates_In. unfold has_ext.
  split; intros (content & Hin & H); exists content; split; auto;
    now apply existsb_eqb_In.
Qed.

Lemma ConfFromBytes_error_class (bytes : string) (e : error) :
  ConfFromBytes bytes = Err e -> class e = ParseError.
Proof.
  unfold ConfFromBytes. intros H.
  destruct (Json.decode bytes) as [v|je].
  - destruct (types.NetConf_of_json v); inversion H; reflexivity.
  - inversion H; reflexivity.
Qed.

Lemma ConfFromBytes_Bytes (bytes : string) (conf : NetworkConfig) :
  ConfFromBytes bytes = Ok conf -> Bytes conf = bytes.
Proof.
  unfold ConfFromBytes. intros H.
  destruct (Json.decode bytes) as [v|je]; [|discriminate].
  destruct (types.NetConf_of_json v); inversion H; reflexivity.
Qed.

Lemma LoadConf_listing (root : fs.node) (dir : fs.path)
      (es : list (string * fs.node)) (name : string) :
  fs.resolve root dir = Some (fs.Dir es) ->
  LoadConf root dir name =
  match candidates es [".conf"; ".json"] with
  | [] => Err (Error NotFound "no net configurations found")
  | _ :: _ =>
      scan_files (ConfFromFile root) (fun conf => types.Name (Network conf))
                 (not_found_by_name "no net configuration" name dir)
                 dir name (sort_strings (candidates es [".conf"; ".json"]))
  end.
Proof. intros H. unfold LoadConf, ConfFiles. rewrite H. reflexivity. Qed.

Lemma LoadConfList_listing (root : fs.node) (dir : fs.path)
      (es : list (string * fs.node)) (name : string) :
  fs.resolve root dir = Some (fs.Dir es) ->
  LoadConfList root dir name =
  match candidates es [".conflist"] with
  | [] => Err (Error NotFound "no net configuration lists found")
  | _ :: _ =>
      scan_files (ConfListFromFile root) NetworkConfigList.Name
                 (not_found_by_name "no net configuration list" name dir)
                 dir name (sort_strings (candidates es [".conflist"]))
  end.
Proof. intros H. unfold LoadConfList, ConfFiles. rewrite H. reflexivity. Qed.

Lemma ConfFromFile_listed (root : fs.node) (dir : fs.path)
      (es : list (string * fs.node)) (f content : string) :
  fs.resolve root dir = Some (fs.Dir es) -> NoDup (map fst es) ->
  In (f, fs.File content) es ->
  ConfFromFile root (fs.Join dir f) = ConfFromBytes content.
Proof.
  intros Hdir Hnd Hin. unfold ConfFromFile.
  rewrite (ReadFile_Join _ _ _ _ _ Hdir Hnd Hin). reflexivity.
Qed.

Lemma ConfListFromFile_listed (root : fs.node) (dir : fs.path)
      (es : list (string * fs.node)) (f content : string) :
  fs.resolve root dir = Some (fs.Dir es) -> NoDup (map fst es) ->
  In (f, fs.File content) es ->
  ConfListFromFile root (fs.Join dir f) = ConfListFromBytes content.
Proof.
  intros Hdir Hnd Hin. unfold ConfListFromFile.
  rewrite (ReadFile_Join _ _ _ _ _ Hdir Hnd Hin). reflexivity.
Qed.

(** When the direct files all pass, every sorted candidate passes. *)
Lemma sorted_candidates_pass {A : Type} (root : fs.node) (dir : fs.path)
      (es : list (string * fs.node)) (name : string) (exts : list string)
      (load_bytes : string -> res error A) (load : fs.path -> res error A)
      (name_of : A -> string) :
  (forall f content, In (f, fs.File content) es ->
                     load (fs.Join dir f) = load_bytes content) ->
  direct_files_pass load_bytes name_of exts es name ->
  forall f, In f (sort_strings (candidates es exts)) ->
            passes load name_of dir name f.
Proof.
  intros Hload Hpass f Hin.
  apply sort_strings_In, candidates_has_ext in Hin.
  destruct Hin as (content & Hin & Hext).
  destruct (Hpass f content Hin Hext) as (conf & Hc & Hn).
  exists conf. split; [|assumption].
  now rewrite (Hload f content Hin).
Qed.

Lemma not_found_by_name_mentions (what name : string) (dir : fs.path) :
  mentions name (message (not_found_by_name what name dir))
  /\ mentions (fs.path_string dir) (message (not_found_by_name what name dir)).
Proof.
  unfold not_found_by_name, mentions, quoted. simpl. split.
  - exists (what ++ " with name " ++ String dquote ""),
           (String dquote "" ++ " in " ++ fs.path_string dir).
    rewrite !string_app_assoc. simpl. reflexivity.
  - exists (what ++ " with name " ++ String dquote (name ++ String dquote "")
                 ++ " in "), "".
    rewrite !string_app_assoc, string_app_nil_r. simpl.
    rewrite !string_app_assoc. reflexivity.
Qed.

(** Without a candidate the answer is the short message. *)
Lemma LoadConf_no_candidates (root : fs.node) (dir : fs.path) (name : string) :
  (fs.resolve root dir = None
   \/ exists es, fs.resolve root dir = Some (fs.Dir es)
                 /\ forall f content, In (f, fs.File content) es ->
                                      ~ has_ext [".conf"; ".json"] f) ->
  LoadConf root dir name = Err (Error NotFound "no net configurations found").
Proof.
  intros [H|(es & H & Hnone)].
  - unfold LoadConf, ConfFiles. rewrite H. reflexivity.
  - rewrite (LoadConf_listing _ _ _ _ H).
    destruct (candidates es [".conf"; ".json"]) as [|f l] eqn:Hc; [reflexivity|].
    exfalso.
    assert (Hin : In f (candidates es [".conf"; ".json"])) by (rewrite Hc; now left).
    apply candidates_has_ext in Hin. destruct Hin as (content & Hin & Hext).
    exact (Hnone f content Hin Hext).
Qed.

(** With candidates that all pass, the scan runs to its end. *)
Lemma LoadConf_all_pass (root : fs.node) (dir : fs.path)
      (es : list (string * fs.node)) (name : string) :
  fs.resolve root dir = Some (fs.Dir es) -> NoDup (map fst es) ->
  direct_files_pass ConfFromBytes (fun conf => types.Name (Network conf))
                    [".conf"; ".json"] es name ->
  LoadConf root dir name
  = match candidates es [".conf"; ".json"] with
    | [] => Err (Error NotFound "no net configurations found")
    | _ :: _ => Err (not_found_by_name "no net configuration" name dir)
    end.
Proof.
  intros Hdir Hnd Hpass. rewrite (LoadConf_listing _ _ _ _ Hdir).
  destruct (candidates es [".conf"; ".json"]) as [|f l] eqn:Hc; [reflexivity|].
  rewrite <- Hc. apply scan_files_all_pass.
  apply (sorted_candidates_pass root dir es name _ ConfFromBytes); [|exact Hpass].
  intros g content Hin. eapply ConfFromFile_listed; eassumption.
Qed.

Lemma LoadConfList_all_pass (root : fs.node) (dir : fs.path)
      (es : list (string * fs.node)) (name : string) :
  fs.resolve root dir = Some (fs.Dir es) -> NoDup (map fst es) ->
  direct_files_pass ConfListFromBytes NetworkConfigList.Name
                    [".conflist"] es name ->
  LoadConfList root dir name
  = match candidates es [".conflist"] with
    | [] => Err (Error NotFound "no net configuration lists found")
    | _ :: _ => Err (not_found_by_name "no net configuration list" name dir)
    end.
Proof.
  intros Hdir Hnd Hpass. rewrite (LoadConfList_listing _ _ _ _ Hdir).
  destruct (candidates es [".conflist"]) as [|f l] eqn:Hc; [reflexivity|].
  rewrite <- Hc. apply scan_files_all_pass.
  apply (sorted_candidates_pass root dir es name _ ConfListFromBytes); [|exact Hpass].
  intros g content Hin. eapply ConfListFromFile_listed; eassumption.
Qed.


End Loader.



(** The scan of the model stops at a file that does not decode.  When a
    candidate file does not decode and every candidate that sorts before
    it loads and bears another name than the requested one, [LoadConf]
    fails with the ParseError of that file; whatever sorts after it, a
    valid configuration with the requested name included, is not looked
    at. *)
Theorem LoadConf_malformed_first :
  forall (root : fs.node) (dir : fs.path) (es : list (string * fs.node))
         (name bad content : string) (je : Json.error),
    fs.resolve root dir = Some (fs.Dir es) ->
    NoDup (map fst es) ->
    In (bad, fs.File content) es ->
    libcni.has_ext [".conf"; ".json"] bad ->
    Json.decode content = Err je ->
    (forall g c, In (g, fs.File c) es ->
                 libcni.has_ext [".conf"; ".json"] g ->
                 String.ltb g bad = true ->
                 exists conf, libcni.ConfFromBytes c = Ok conf
                              /\ types.Name (libcni.Network conf) <> name) ->
    libcni.LoadConf root dir name
    = Err (Error ParseError
             ("error parsing configuration" ++ ": " ++ Json.error_text je)).
Proof.
  intros root dir es name bad content je Hdir Hnd Hin Hext Hdec Hbefore.
  rewrite (LoadConf_listing _ _ _ _ Hdir).
  assert (Hcand : In bad (libcni.candidates es [".conf"; ".json"])).
  { apply candidates_has_ext. exists content. auto. }
  destruct (libcni.candidates es [".conf"; ".json"]) as [|f l] eqn:Hc;
    [contradiction|].
  rewrite <- Hc in *.
  apply scan_files_first_error with (bad := bad).
  - apply sort_strings_sorted.
  - now apply sort_strings_In.
  - rewrite (ConfFromFile_listed _ _ _ _ _ Hdir Hnd Hin).
    unfold libcni.ConfFromBytes. rewrite Hdec. reflexivity.
  - intros g Hg Hlt.
    apply sort_strings_In, candidates_has_ext in Hg.
    destruct Hg as (c & Hgin & Hgext).
    destruct (Hbefore g c Hgin Hgext Hlt) as (conf & Hconf & Hn).
    exists conf. split; [|assumption].
    now rewrite (ConfFromFile_listed _ _ _ _ _ Hdir Hnd Hgin).
Qed.

Lemma LoadConf_malformed_first_witness :
  libcni.LoadConf conf_test.LoadConf_malformed_between_root conf_test.configDir
                  "some-plugin"
  = Err (Error ParseError "error parsing configuration: unexpected end of JSON input").
Proof.
  apply (LoadConf_malformed_first conf_test.LoadConf_malformed_between_root
           conf_test.configDir
           [("00-other.conf", fs.File conf_test.otherConfig);
            ("10-bad.conf", fs.File "{");
            ("50-whatever.conf", fs.File conf_test.pluginConfig)]
           "some-plugin" "10-bad.conf" "{" Json.UnexpectedEnd).
  - reflexivity.
  - repeat constructor; simpl; intuition discriminate.
  - right. left. reflexivity.
  - left. reflexivity.
  - reflexivity.
  - intros g c [H|[H|[H|[]]]] _ Hlt; inversion H; subst;
      try discriminate Hlt.
    exists {| libcni.Network := conf_test.NetConf_named "some-other-plugin" "bridge";
              libcni.Bytes := conf_test.otherConfig |}.
    split; [vm_compute; reflexivity | discriminate].
Defined.

(** In the model, which returns the first match without reading on, a
    malformed candidate that sorts after the match is not read:
    [LoadConf] returns the configuration that sorts before it.  Section
    4.2 of the specification reads this way; its section 9 speaks of a
    later malformed file that hides an earlier match. *)
Lemma LoadConf_malformed_last_succeeds :
  fs.resolve conf_test.LoadConf_malformed_last_root conf_test.configDir
  = Some (fs.Dir [("50-whatever.conf", fs.File conf_test.pluginConfig);
                  ("90-bad.conf", fs.File "{")])
  /\ libcni.has_ext [".conf"; ".json"] "90-bad.conf"
  /\ Json.decode "{" = Err Json.UnexpectedEnd
  /\ libcni.LoadConf conf_test.LoadConf_malformed_last_root conf_test.configDir
                     "some-plugin"
     = Ok {| libcni.Network := conf_test.NetConf_named "some-plugin" "";
             libcni.Bytes := conf_test.pluginConfig |}.
Proof.
  split; [reflexivity|]. split; [left; reflexivity|].
  split; [reflexivity|]. vm_compute. reflexivity.
Qed.

(** C7.  The two NotFound answers of [LoadConf] are kept apart.  When the
    directory is missing, is empty, or holds no [.conf] or [.json] file, the
    message is exactly "no net configurations found".  When the directory
    holds such files, all of them configurations under other names, the
    error is a NotFound whose message mentions the requested name and the
    directory searched. *)
Theorem LoadConf_not_found_cases :
  forall (root : fs.node) (dir : fs.path) (name : string),
    ((fs.resolve root dir = None
      \/ fs.resolve root dir = Some (fs.Dir [])
      \/ (exists es, fs.resolve root dir = Some (fs.Dir es)
                     /\ forall f content, In (f, fs.File content) es ->
                                          ~ libcni.has_ext [".conf"; ".json"] f)) ->
     libcni.LoadConf root dir name
     = Err (Error NotFound "no net configurations found"))
    /\ (forall es,
           fs.resolve root dir = Some (fs.Dir es) ->
           NoDup (map fst es) ->
           (exists f content, In (f, fs.File content) es
                              /\ libcni.has_ext [".conf"; ".json"] f) ->
           libcni.direct_files_pass libcni.ConfFromBytes
             (fun conf => types.Name (libcni.Network conf))
             [".conf"; ".json"] es name ->
           exists msg,
             libcni.LoadConf root dir name = Err (Error NotFound msg)
             /\ mentions name msg
             /\ mentions (fs.path_string dir) msg).
Proof.
  intros root dir name. split.
  - intros [H|[H|H]]; apply LoadConf_no_candidates; auto.
    right. exists []. split; [assumption|]. intros f content [].
  - intros es Hdir Hnd (f & content & Hin & Hext) Hpass.
    rewrite (LoadConf_all_pass _ _ _ _ Hdir Hnd Hpass).
    assert (Hc : In f (libcni.candidates es [".conf"; ".json"])).
    { apply candidates_has_ext. exists content. auto. }
    destruct (libcni.candidates es [".conf"; ".json"]); [contradiction|].
    exists (message (libcni.not_found_by_name "no net configuration" name dir)).
    split; [reflexivity|].
    apply not_found_by_name_mentions.
Qed.

Lemma LoadConf_not_found_cases_witness :
  libcni.LoadConf conf_test.no_configDir conf_test.configDir "some-plugin"
  = Err (Error NotFound "no net configurations found")
  /\ exists msg,
       libcni.LoadConf conf_test.LoadConf_root conf_test.configDir "some-other-plugin"
       = Err (Error NotFound msg)
       /\ mentions "some-other-plugin" msg
       /\ mentions (fs.path_string conf_test.configDir) msg.
Proof.
  split.
  - apply (proj1 (LoadConf_not_found_cases conf_test.no_configDir
                    conf_test.configDir "some-plugin")).
    left. reflexivity.
  - apply (proj2 (LoadConf_not_found_cases conf_test.LoadConf_root
                    conf_test.configDir "some-other-plugin")
             [("50-whatever.conf", fs.File conf_test.pluginConfig)]).
    + reflexivity.
    + repeat constructor; simpl; intuition discriminate.
    + exists "50-whatever.conf", conf_test.pluginConfig.
      split; [left; reflexivity | left; reflexivity].
    + intros f content [H|[]] _. inversion H; subst.
      exists {| libcni.Network := conf_test.NetConf_named "some-plugin" "";
                libcni.Bytes := conf_test.pluginConfig |}.
      split; [vm_compute; reflexivity | discriminate].
Defined.

(** C8.  A file below a subdirectory of the scanned directory, at any
    depth, is not seen by [LoadConf] nor by [LoadConfList]: when the files
    directly inside the directory do not hold the requested name, the
    lookup fails with a NotFound error although the nested file is a valid
    configuration (or list) of that name. *)
Theorem nested_files_invisible :
  forall (root : fs.node) (dir : fs.path) (es : list (string * fs.node))
         (name sub : string) (below : fs.path) (content : string),
    fs.resolve root dir = Some (fs.Dir es) ->
    NoDup (map fst es) ->
    below <> [] ->
    fs.resolve root (dir ++ sub :: below)%list = Some (fs.File content) ->
    (libcni.direct_files_pass libcni.ConfFromBytes
       (fun conf => types.Name (libcni.Network conf)) [".conf"; ".json"] es name ->
     (exists conf, libcni.ConfFromBytes content = Ok conf
                   /\ types.Name (libcni.Network conf) = name) ->
     exists e, libcni.LoadConf root dir name = Err e /\ class e = NotFound)
    /\ (libcni.direct_files_pass libcni.ConfListFromBytes
          libcni.NetworkConfigList.Name [".conflist"] es name ->
        (exists l, libcni.ConfListFromBytes content = Ok l
                   /\ libcni.NetworkConfigList.Name l = name) ->
        exists e, libcni.LoadConfList root dir name = Err e /\ class e = NotFound).
Proof.
  intros root dir es name sub below content Hdir Hnd _ _. split.
  - intros Hpass _. rewrite (LoadConf_all_pass _ _ _ _ Hdir Hnd Hpass).
    destruct (libcni.candidates es [".conf"; ".json"]);
      eexists; split; reflexivity.
  - intros Hpass _. rewrite (LoadConfList_all_pass _ _ _ _ Hdir Hnd Hpass).
    destruct (libcni.candidates es [".conflist"]);
      eexists; split; reflexivity.
Qed.

Lemma nested_files_invisible_witness :
  (exists e, libcni.LoadConf conf_test.LoadConf_nested_root conf_test.configDir "deep"
             = Err e /\ class e = NotFound)
  /\ (exists e, libcni.LoadConfList conf_test.LoadConfList_nested_root
                  conf_test.configDir "deep" = Err e /\ class e = NotFound).
Proof.
  split.
  - apply (proj1 (nested_files_invisible conf_test.LoadConf_nested_root
                    conf_test.configDir
                    [("50-whatever.conf", fs.File conf_test.pluginConfig);
                     ("subdir1", fs.Dir [("subdir2",
                        fs.Dir [("90-deep.conf", fs.File conf_test.deepConfig)])])]
                    "deep" "subdir1" ["subdir2"; "90-deep.conf"] conf_test.deepConfig
                    eq_refl
                    ltac:(repeat constructor; simpl; intuition discriminate)
                    ltac:(discriminate) eq_refl)).
    + intros f content [H|[H|[]]] _; inversion H; subst.
      exists {| libcni.Network := conf_test.NetConf_named "some-plugin" "";
                libcni.Bytes := conf_test.pluginConfig |}.
      split; [vm_compute; reflexivity | discriminate].
    + exists {| libcni.Network := conf_test.NetConf_named "deep" "";
                libcni.Bytes := conf_test.deepConfig |}.
      split; [vm_compute; reflexivity | reflexivity].
  - apply (proj2 (nested_files_invisible conf_test.LoadConfList_nested_root
                    conf_test.configDir
                    [("50-whatever.conflist", fs.File conf_test.configList);
                     ("subdir1", fs.Dir [("subdir2",
                        fs.Dir [("90-deep.conflist", fs.File conf_test.deepList_valid)])])]
                    "deep" "subdir1" ["subdir2"; "90-deep.conflist"]
                    conf_test.deepList_valid
                    eq_refl
                    ltac:(repeat constructor; simpl; intuition discriminate)
                    ltac:(discriminate) eq_refl)).
    + intros f content [H|[H|[]]] _; inversion H; subst.
      exists conf_test.expected_list.
      split; [vm_compute; reflexivity | discriminate].
    + eexists. split; [vm_compute; reflexivity | reflexivity].
Defined.

(** ** Configuration lists *)

Section ConfList.
Import libcni.

Lemma get_In {A : Type} (k : string) (m : list (string * A)) (v : A) :
  SMap.get k m = Some v -> In (k, v) m.
Proof.
  induction m as [|[k' x] m IH]; simpl; [discriminate|].
  destruct (String.eqb_spec k k') as [->|Hne].
  - intros H. inversion H. now left.
  - intros H. right. auto.
Qed.

Lemma ConfFromBytes_encode (p : Json.value) (conf : NetworkConfig) :
  Json.canonical p ->
  ConfFromBytes (Json.encode p) = Ok conf -> plugin_of p conf.
Proof.
  intros Hc H. unfold plugin_of.
  pose proof (ConfFromBytes_Bytes _ _ H) as Hb.
  unfold ConfFromBytes in H.
  rewrite decode_encode, (canonical_norm _ Hc) in H.
  destruct (types.NetConf_of_json p) as [n|] eqn:Hn; [|discriminate].
  inversion H; subst. simpl.
  rewrite decode_encode, (canonical_norm _ Hc). auto.
Qed.

Lemma plugins_of_Forall2 (l : list Json.value) (ps : list NetworkConfig) :
  Forall Json.canonical l ->
  plugins_of l = Ok ps -> Forall2 plugin_of l ps.
Proof.
  revert ps. induction l as [|p l IH]; simpl; intros ps Hc H.
  - inversion H. constructor.
  - inversion Hc as [|? ? Hp Hl]; subst.
    destruct (ConfFromBytes (Json.encode p)) as [conf|] eqn:Hconf; [|discriminate].
    simpl in H.
    destruct (plugins_of l) as [rest|]; [|discriminate].
    simpl in H. inversion H; subst.
    constructor; [now apply ConfFromBytes_encode | now apply IH].
Qed.

Lemma ConfListFromBytes_inv (bytes : string) (l : NetworkConfigList.t) :
  ConfListFromBytes bytes = Ok l ->
  exists rawList plugins,
    unmarshal_map bytes = Ok rawList
    /\ SMap.get "name" rawList = Some (Json.Str (NetworkConfigList.Name l))
    /\ types.string_field "cniVersion" rawList = Ok (NetworkConfigList.CNIVersion l)
    /\ SMap.get "plugins" rawList = Some (Json.Arr plugins)
    /\ plugins_of plugins = Ok (NetworkConfigList.Plugins l)
    /\ NetworkConfigList.Bytes l = bytes.
Proof.
  unfold ConfListFromBytes. intros H.
  destruct (unmarshal_map bytes) as [rawList|]; [|discriminate].
  destruct (SMap.get "name" rawList) as [[| | |name| |]|] eqn:Hn;
    try discriminate.
  destruct (types.string_field "cniVersion" rawList) as [ver|] eqn:Hv;
    [|discriminate].
  destruct (SMap.get "plugins" rawList) as [[| | | |plugins|]|] eqn:Hp;
    try discriminate.
  destruct plugins as [|p plugins]; [discriminate|].
  destruct (plugins_of (p :: plugins)) as [ps|] eqn:Hps; [|discriminate].
  simpl in H. inversion H; subst. simpl.
  exists rawList, (p :: plugins). repeat split; assumption.
Qed.

(** The list depends on the bytes only through the decoded value, its own
    bytes apart. *)
Lemma ConfListFromBytes_same_value (b1 b2 : string) (l1 : NetworkConfigList.t) :
  Json.decode b1 = Json.decode b2 ->
  ConfListFromBytes b1 = Ok l1 ->
  ConfListFromBytes b2
  = Ok {| NetworkConfigList.Name := NetworkConfigList.Name l1;
          NetworkConfigList.CNIVersion := NetworkConfigList.CNIVersion l1;
          NetworkConfigList.Plugins := NetworkConfigList.Plugins l1;
          NetworkConfigList.Bytes := b2 |}.
Proof.
  intros Hd H.
  destruct (ConfListFromBytes_inv _ _ H) as (raw & plugins & Hu & Hn & Hv & Hp & Hps & _).
  assert (Hu2 : unmarshal_map b2 = Ok raw).
  { unfold unmarshal_map in *. now rewrite <- Hd. }
  unfold ConfListFromBytes. rewrite Hu2, Hn, Hv, Hp.
  destruct plugins as [|p plugins]; [simpl in Hps|].
  - unfold ConfListFromBytes in H.
    rewrite Hu, Hn, Hv, Hp in H. discriminate.
  - rewrite Hps. reflexivity.
Qed.

End ConfList.

Section ConfListLoad.
Import libcni.

(** A successful scan returns what one of the files loads to. *)
Lemma scan_files_Ok_inv {A : Type} (load : fs.path -> res error A)
      (name_of : A -> string) (missing : error) (dir : fs.path) (name : string)
      (files : list string) (conf : A) :
  scan_files load name_of missing dir name files = Ok conf ->
  exists f, In f files /\ load (fs.Join dir f) = Ok conf.
Proof.
  induction files as [|f files IH]; simpl; [discriminate|].
  destruct (load (fs.Join dir f)) as [conf'|] eqn:Hl; [|discriminate].
  destruct (String.eqb (name_of conf') name).
  - intros H. inversion H; subst. exists f. auto.
  - intros H. destruct (IH H) as (g & Hg & Hload). exists g. auto.
Qed.

Lemma ConfListFromFile_Ok_inv (root : fs.node) (filename : fs.path)
      (l : NetworkConfigList.t) :
  ConfListFromFile root filename = Ok l ->
  exists content, fs.ReadFile root filename = Some content
                  /\ ConfListFromBytes content = Ok l.
Proof.
  unfold ConfListFromFile.
  destruct (fs.ReadFile root filename) as [content|]; [|discriminate].
  intros H. exists content. auto.
Qed.

Lemma LoadConfList_Ok_inv (root : fs.node) (dir : fs.path) (name : string)
      (l : NetworkConfigList.t) :
  LoadConfList root dir name = Ok l ->
  exists f, ConfListFromFile root (fs.Join dir f) = Ok l.
Proof.
  unfold LoadConfList.
  destruct (ConfFiles root dir [".conflist"]) as [files|]; [|discriminate].
  simpl. destruct files as [|f0 files]; [discriminate|].
  intros H. apply scan_files_Ok_inv in H. destruct H as (f & _ & H).
  exists f. exact H.
Qed.

(** What [ConfListFromBytes] returns: the bytes it was given, and one
    plugin for every element of the array, in the order of the array. *)
Lemma ConfListFromBytes_spec (bytes : string) (l : NetworkConfigList.t) :
  ConfListFromBytes bytes = Ok l ->
  NetworkConfigList.Bytes l = bytes
  /\ (exists rawList plugins,
        unmarshal_map bytes = Ok rawList
        /\ SMap.get "plugins" rawList = Some (Json.Arr plugins)
        /\ Forall2 plugin_of plugins (NetworkConfigList.Plugins l)).
Proof.
  intros H.
  destruct (ConfListFromBytes_inv _ _ H)
    as (raw & plugins & Hu & Hn & Hv & Hp & Hps & Hb).
  split; [exact Hb|].
  exists raw, plugins. repeat split; try assumption.
  apply plugins_of_Forall2; [|assumption].
  destruct (unmarshal_map_canonical _ _ Hu) as [_ Hc].
  rewrite Forall_forall in Hc.
  specialize (Hc _ (get_In _ _ _ Hp)). simpl in Hc.
  now inversion Hc.
Qed.

End ConfListLoad.

(** In the model, a configuration list that [ConfListFromFile] or
    [LoadConfList] returns was parsed from a file: its own bytes are the
    content of that file, and it holds one plugin for every element of the
    [plugins] array of the file, in the order of the array, none merged
    and none dropped.  The bytes of a plugin are the serialization of its
    own object by the codec of this file: [Json.encode], which emits no
    white space, of the decoded object, whose keys are sorted at every
    level; they decode to that object again, and the typed view is read
    from it.  Another text that decodes to the same value gives the same
    plugins.  The codec covers a fragment of JSON and keeps integers
    exact; what [encoding/json] writes for numbers that went through
    [float64] is not modelled. *)
Theorem ConfList_plugins :
  forall (root : fs.node) (l : libcni.NetworkConfigList.t),
    (exists filename, libcni.ConfListFromFile root filename = Ok l)
    \/ (exists dir name, libcni.LoadConfList root dir name = Ok l) ->
    exists (filename : fs.path) (content : string)
           (rawList : list (string * Json.value)) (plugins : list Json.value),
      fs.ReadFile root filename = Some content
      /\ libcni.NetworkConfigList.Bytes l = content
      /\ libcni.unmarshal_map content = Ok rawList
      /\ SMap.get "plugins" rawList = Some (Json.Arr plugins)
      /\ Forall2 libcni.plugin_of plugins (libcni.NetworkConfigList.Plugins l)
      /\ (forall bytes',
            Json.decode bytes' = Json.decode content ->
            exists l',
              libcni.ConfListFromBytes bytes' = Ok l'
              /\ libcni.NetworkConfigList.Plugins l'
                 = libcni.NetworkConfigList.Plugins l
              /\ libcni.NetworkConfigList.Bytes l' = bytes').
Proof.
  intros root l H.
  assert (Hfile : exists filename, libcni.ConfListFromFile root filename = Ok l).
  { destruct H as [H|(dir & name & H)]; [exact H|].
    destruct (LoadConfList_Ok_inv _ _ _ _ H) as (f & Hf). eauto. }
  destruct Hfile as (filename & Hfile).
  destruct (ConfListFromFile_Ok_inv _ _ _ Hfile) as (content & Hread & Hbytes).
  destruct (ConfListFromBytes_spec _ _ Hbytes)
    as (Hb & raw & plugins & Hu & Hp & Hall).
  exists filename, content, raw, plugins.
  repeat split; try assumption.
  intros bytes' Hd. eexists. split; [|split].
  - apply (ConfListFromBytes_same_value content bytes' l);
      [now symmetry | exact Hbytes].
  - reflexivity.
  - reflexivity.
Qed.

Lemma ConfList_plugins_witness :
  exists (filename : fs.path) (content : string)
         (rawList : list (string * Json.value)) (plugins : list Json.value),
    fs.ReadFile conf_test.LoadConfList_root filename = Some content
    /\ libcni.NetworkConfigList.Bytes conf_test.expected_list = content
    /\ libcni.unmarshal_map content = Ok rawList
    /\ SMap.get "plugins" rawList = Some (Json.Arr plugins)
    /\ Forall2 libcni.plugin_of plugins
               (libcni.NetworkConfigList.Plugins conf_test.expected_list)
    /\ (forall bytes',
          Json.decode bytes' = Json.decode content ->
          exists l',
            libcni.ConfListFromBytes bytes' = Ok l'
            /\ libcni.NetworkConfigList.Plugins l'
               = libcni.NetworkConfigList.Plugins conf_test.expected_list
            /\ libcni.NetworkConfigList.Bytes l' = bytes').
Proof.
  apply (ConfList_plugins conf_test.LoadConfList_root conf_test.expected_list).
  right. exists conf_test.configDir, "some-list".
  vm_compute. reflexivity.
Defined.

Lemma InjectConf_preconditions_witness :
  libcni.InjectConf conf_test.brokenNetConfig "" None
  = Err (Error ParseError "unmarshal existing network bytes: invalid character")
  /\ libcni.InjectConf conf_test.testNetConfig "" None
     = Err (Error ValidationError "key value can not be empty")
  /\ libcni.InjectConf conf_test.testNetConfig "test" None
     = Err (Error ValidationError "newValue must be specified").
Proof.
  split; [|split].
  - apply (proj1 (InjectConf_preconditions conf_test.brokenNetConfig "" None)
             Json.InvalidCharacter).
    reflexivity.
  - apply (proj1 (proj2 (InjectConf_preconditions conf_test.testNetConfig "" None))
             [("name", Json.Str "some-plugin")]).
    + reflexivity.
    + reflexivity.
  - apply (proj2 (proj2 (InjectConf_preconditions conf_test.testNetConfig "test" None))
             [("name", Json.Str "some-plugin")]).
    + reflexivity.
    + discriminate.
    + reflexivity.
Defined.

(** ** Further facts on the loader *)

Section LoaderOrder.
Import libcni.

Lemma filter_andb {A : Type} (f g : A -> bool) (l : list A) :
  filter (fun x => f x && g x) l = filter g (filter f l).
Proof.
  induction l as [|x l IH]; simpl; [reflexivity|].
  destruct (f x); simpl; [|exact IH].
  destruct (g x); now rewrite IH.
Qed.

(** The counterpart of the malformed file that sorts first: the first
    configuration with the requested name is returned when every
    candidate that sorts before it passes; what sorts after it, malformed
    files included, is not read. *)
Lemma LoadConf_first_match (root : fs.node) (dir : fs.path)
      (es : list (string * fs.node)) (name f content : string)
      (conf : NetworkConfig) :
  fs.resolve root dir = Some (fs.Dir es) ->
  NoDup (map fst es) ->
  In (f, fs.File content) es ->
  has_ext [".conf"; ".json"] f ->
  ConfFromBytes content = Ok conf ->
  types.Name (Network conf) = name ->
  (forall g c, In (g, fs.File c) es -> has_ext [".conf"; ".json"] g ->
               String.ltb g f = true ->
               exists conf', ConfFromBytes c = Ok conf'
                             /\ types.Name (Network conf') <> name) ->
  LoadConf root dir name = Ok conf.
Proof.
  intros Hdir Hnd Hin Hext Hconf Hname Hbefore.
  rewrite (LoadConf_listing _ _ _ _ Hdir).
  assert (Hcand : In f (candidates es [".conf"; ".json"])).
  { apply candidates_has_ext. exists content. auto. }
  destruct (candidates es [".conf"; ".json"]) as [|f0 l] eqn:Hc; [contradiction|].
  rewrite <- Hc in *.
  apply scan_files_first_match with (f := f).
  - apply sort_strings_sorted.
  - now apply sort_strings_In.
  - now rewrite (ConfFromFile_listed _ _ _ _ _ Hdir Hnd Hin).
  - exact Hname.
  - intros g Hg Hlt.
    apply sort_strings_In, candidates_has_ext in Hg.
    destruct Hg as (c & Hgin & Hgext).
    destruct (Hbefore g c Hgin Hgext Hlt) as (conf' & Hconf' & Hn).
    exists conf'. split; [|assumption].
    now rewrite (ConfFromFile_listed _ _ _ _ _ Hdir Hnd Hgin).
Qed.

(** [LoadConf] depends on the directory only through the regular files
    directly inside it: two trees that list the same regular files there
    give the same answer, whatever their subdirectories hold. *)
Lemma LoadConf_direct_files_only (root1 root2 : fs.node) (dir : fs.path)
      (es1 es2 : list (string * fs.node)) (name : string) :
  fs.resolve root1 dir = Some (fs.Dir es1) ->
  fs.resolve root2 dir = Some (fs.Dir es2) ->
  NoDup (map fst es1) -> NoDup (map fst es2) ->
  filter (fun e => fs.is_file (snd e)) es1
  = filter (fun e => fs.is_file (snd e)) es2 ->
  LoadConf root1 dir name = LoadConf root2 dir name.
Proof.
  intros H1 H2 Hnd1 Hnd2 Hfiles.
  rewrite (LoadConf_listing _ _ _ _ H1), (LoadConf_listing _ _ _ _ H2).
  assert (Hin : forall f c, In (f, fs.File c) es1 <-> In (f, fs.File c) es2).
  { intros f c.
    assert (Hf : forall es, In (f, fs.File c) es
                            <-> In (f, fs.File c)
                                   (filter (fun e => fs.is_file (snd e)) es)).
    { intros es. rewrite filter_In. simpl. tauto. }
    rewrite (Hf es1), (Hf es2), Hfiles. tauto. }
  assert (Hcand : candidates es1 [".conf"; ".json"]
                  = candidates es2 [".conf"; ".json"]).
  { unfold candidates.
    now rewrite !filter_andb, Hfiles. }
  rewrite Hcand.
  destruct (candidates es2 [".conf"; ".json"]) as [|f0 l] eqn:Hc; [reflexivity|].
  rewrite <- Hc.
  assert (Hload : forall f, In f (sort_strings (candidates es2 [".conf"; ".json"])) ->
                            ConfFromFile root1 (fs.Join dir f)
                            = ConfFromFile root2 (fs.Join dir f)).
  { intros f Hf. apply sort_strings_In, candidates_has_ext in Hf.
    destruct Hf as (c & Hf & _).
    rewrite (ConfFromFile_listed _ _ _ _ _ H2 Hnd2 Hf).
    apply Hin in Hf.
    now rewrite (ConfFromFile_listed _ _ _ _ _ H1 Hnd1 Hf). }
  induction (sort_strings (candidates es2 [".conf"; ".json"])) as [|f l' IH];
    simpl; [reflexivity|].
  rewrite (Hload f (or_introl eq_refl)).
  destruct (ConfFromFile root2 (fs.Join dir f)) as [conf|]; [|reflexivity].
  destruct (String.eqb _ name); [reflexivity|].
  apply IH. intros g Hg. apply Hload. now right.
Qed.

End LoaderOrder.

(** ** The invocation engine *)

Section EngineFacts.
Import libcni.
Variable Result : Type.
Variable FindInPath : string -> list string -> string.
Variable ExecPlugin : string -> string -> invoke.Args -> res error Result.

(** The engine adds no check of its own between the search for the plugin
    and its execution: whatever [FindInPath] returns goes to
    [ExecPlugin], and the outcome is the one of [ExecPlugin]. *)
Lemma AddNetwork_delegates (c : CNIConfig) (net : NetworkConfig) (rt : RuntimeConf) :
  AddNetwork Result FindInPath ExecPlugin c net rt
  = ExecPlugin (FindInPath (types.Type_ (Network net)) (Path c)) (Bytes net)
      {| invoke.Command := "ADD";
         invoke.ContainerID := ContainerID rt;
         invoke.NetNS := NetNS rt;
         invoke.PluginArgs := Args rt;
         invoke.IfName := IfName rt;
         invoke.Path := String.concat ":" (Path c) |}.
Proof. reflexivity. Qed.

Lemma DelNetwork_delegates (c : CNIConfig) (net : NetworkConfig) (rt : RuntimeConf) :
  DelNetwork Result FindInPath ExecPlugin c net rt
  = match ExecPlugin (FindInPath (types.Type_ (Network net)) (Path c)) (Bytes net)
            {| invoke.Command := "DEL";
               invoke.ContainerID := ContainerID rt;
               invoke.NetNS := NetNS rt;
               invoke.PluginArgs := Args rt;
               invoke.IfName := IfName rt;
               invoke.Path := String.concat ":" (Path c) |}
    with
    | Ok _ => None
    | Err e => Some e
    end.
Proof. reflexivity. Qed.

(** The type of the plugin reaches [ExecPlugin] only through the path that
    [FindInPath] returns: two configurations with the same bytes whose
    types resolve to the same path have the same outcome. *)
Lemma execPlugin_type_through_path (c : CNIConfig) (action : string)
      (net1 net2 : NetworkConfig) (rt : RuntimeConf) :
  Bytes net1 = Bytes net2 ->
  FindInPath (types.Type_ (Network net1)) (Path c)
  = FindInPath (types.Type_ (Network net2)) (Path c) ->
  execPlugin Result FindInPath ExecPlugin c action net1 rt
  = execPlugin Result FindInPath ExecPlugin c action net2 rt.
Proof.
  intros Hb Hp. unfold execPlugin. rewrite Hb, Hp. reflexivity.
Qed.

End EngineFacts.

(** ** The engine: what reaches the plugin *)

Section JoinFacts.

Lemma colon_free_app_colon (a t : string) : colon_free (a ++ ":" ++ t) = false.
Proof.
  induction a as [|x a IH]; [reflexivity|].
  change (negb (Ascii.eqb x ":") && colon_free (a ++ ":" ++ t) = false).
  rewrite IH. apply andb_false_r.
Qed.

Lemma colon_free_cons (x : ascii) (a : string) :
  colon_free (String x a) = true -> x <> ":"%char /\ colon_free a = true.
Proof.
  change (negb (Ascii.eqb x ":") && colon_free a = true -> x <> ":"%char /\ colon_free a = true).
  intros H. apply andb_true_iff in H.
  destruct H as [Hx Ha]. split; [|exact Ha].
  intros ->. discriminate Hx.
Qed.

(** Two colon-free heads in front of a colon are cut at the same place. *)
Lemma app_colon_inj (a b s t : string) :
  colon_free a = true -> colon_free b = true ->
  a ++ ":" ++ s = b ++ ":" ++ t -> a = b /\ s = t.
Proof.
  revert b. induction a as [|x a IH]; intros [|y b] Ha Hb H; simpl in H.
  - inversion H. auto.
  - inversion H; subst. apply colon_free_cons in Hb. now destruct Hb.
  - inversion H; subst. apply colon_free_cons in Ha. now destruct Ha.
  - inversion H; subst.
    apply colon_free_cons in Ha. apply colon_free_cons in Hb.
    destruct (IH b (proj2 Ha) (proj2 Hb) H2) as [-> ->]. auto.
Qed.

Lemma concat_colon_inj (l1 l2 : list string) :
  forallb colon_free l1 = true -> forallb colon_free l2 = true ->
  l1 <> [] -> l2 <> [] ->
  String.concat ":" l1 = String.concat ":" l2 -> l1 = l2.
Proof.
  revert l2. induction l1 as [|a l1 IH]; intros l2 H1 H2 N1 N2 H;
    [contradiction|].
  destruct l2 as [|b l2]; [contradiction|].
  simpl in H1, H2. apply andb_true_iff in H1, H2.
  destruct H1 as [Ha H1], H2 as [Hb H2].
  destruct l1 as [|a' l1], l2 as [|b' l2].
  - simpl in H. now subst.
  - exfalso. change (a = b ++ ":" ++ String.concat ":" (b' :: l2)) in H.
    rewrite H, colon_free_app_colon in Ha. discriminate.
  - exfalso. change (a ++ ":" ++ String.concat ":" (a' :: l1) = b) in H.
    rewrite <- H, colon_free_app_colon in Hb. discriminate.
  - change (a ++ ":" ++ String.concat ":" (a' :: l1)
            = b ++ ":" ++ String.concat ":" (b' :: l2)) in H.
    destruct (app_colon_inj _ _ _ _ Ha Hb H) as [-> Hrest].
    f_equal. apply IH; auto; discriminate.
Qed.

End JoinFacts.



(** The arguments that a plugin is run with tell the runs of an engine
    apart.  With a plugin that reports the arguments it was given, two runs
    under one engine and on one configuration report the same exactly when
    they have the same action and the same runtime configuration:
    [ContainerID], [NetNS], [IfName] and [Args] alike.  No field of the
    runtime configuration is dropped on the way to the plugin, and no two
    of them are merged. *)
Theorem execPlugin_arguments_determine_run :
  forall (FindInPath : string -> list string -> string)
         (c : libcni.CNIConfig) (net : libcni.NetworkConfig)
         (action1 action2 : string) (rt1 rt2 : libcni.RuntimeConf),
    libcni.execPlugin invoke.Args FindInPath (fun _ _ args => Ok args)
                      c action1 net rt1
    = libcni.execPlugin invoke.Args FindInPath (fun _ _ args => Ok args)
                        c action2 net rt2
    <-> (action1 = action2 /\ rt1 = rt2).
Proof.
  intros FindInPath c net action1 action2 [i1 n1 f1 a1] [i2 n2 f2 a2].
  unfold libcni.execPlugin. simpl. split.
  - intros H. inversion H. auto.
  - intros [-> H]. inversion H. reflexivity.
Qed.

(** The runs of [AddNetwork] and of [DelNetwork] on one configuration are
    told apart by their command, and two runs for two interfaces by
    [IfName]. *)
Example execPlugin_tells_runs_apart :
  libcni.execPlugin invoke.Args probe.FindInPath (fun _ _ args => Ok args)
                    probe.cniConfig "ADD" conf_test.testNetConfig probe.rt
  <> libcni.execPlugin invoke.Args probe.FindInPath (fun _ _ args => Ok args)
                       probe.cniConfig "DEL" conf_test.testNetConfig probe.rt
  /\ libcni.execPlugin invoke.Args probe.FindInPath (fun _ _ args => Ok args)
                       probe.cniConfig "ADD" conf_test.testNetConfig probe.rt
     <> libcni.execPlugin invoke.Args probe.FindInPath (fun _ _ args => Ok args)
                          probe.cniConfig "ADD" conf_test.testNetConfig
                          {| libcni.ContainerID := libcni.ContainerID probe.rt;
                             libcni.NetNS := libcni.NetNS probe.rt;
                             libcni.IfName := "eth1";
                             libcni.Args := libcni.Args probe.rt |}.
Proof. split; discriminate. Qed.

(** The plugin is told the search path as one string, the directories
    joined by colons.  When no directory of a non-empty [Path] holds a
    colon, that string gives the directories back: two engines whose
    plugins are told the same string search the same directories. *)
Theorem execPlugin_Path_unambiguous :
  forall (FindInPath : string -> list string -> string)
         (c1 c2 : libcni.CNIConfig) (action : string)
         (net : libcni.NetworkConfig) (rt : libcni.RuntimeConf),
    forallb colon_free (libcni.Path c1) = true ->
    forallb colon_free (libcni.Path c2) = true ->
    libcni.Path c1 <> [] -> libcni.Path c2 <> [] ->
    libcni.execPlugin string FindInPath (fun _ _ args => Ok (invoke.Path args))
                      c1 action net rt
    = libcni.execPlugin string FindInPath (fun _ _ args => Ok (invoke.Path args))
                        c2 action net rt ->
    c1 = c2.
Proof.
  intros FindInPath [p1] [p2] action net rt H1 H2 N1 N2 H.
  unfold libcni.execPlugin in H. simpl in *.
  inversion H as [Hp]. f_equal. now apply concat_colon_inj.
Qed.

Lemma execPlugin_Path_unambiguous_witness :
  probe.cniConfig = probe.cniConfig.
Proof.
  apply (execPlugin_Path_unambiguous probe.FindInPath probe.cniConfig
           probe.cniConfig "ADD" conf_test.testNetConfig probe.rt);
    try reflexivity; discriminate.
Defined.

(** With a colon inside a directory name the string is ambiguous, and an
    empty [Path] is told like a [Path] of one empty name. *)
Example execPlugin_Path_ambiguous :
  String.concat ":" ["/a:/b"] = String.concat ":" ["/a"; "/b"]
  /\ String.concat ":" [] = String.concat ":" [""].
Proof. split; reflexivity. Qed.

(** ** The engine: failures and commands *)

(** The engine has no failure of its own: it makes no check between the
    search for the plugin and its run, so that with a runner that returns
    a result for every run, [AddNetwork] returns a result and [DelNetwork]
    returns [nil], whatever the configuration, the search path and the
    outcome of the search are. *)
Theorem engine_never_fails_by_itself :
  forall (Result : Type) (FindInPath : string -> list string -> string)
         (ExecPlugin : string -> string -> invoke.Args -> res error Result),
    (forall pluginPath netconf args,
        exists r, ExecPlugin pluginPath netconf args = Ok r) ->
    forall (c : libcni.CNIConfig) (net : libcni.NetworkConfig)
           (rt : libcni.RuntimeConf),
      (exists r, libcni.AddNetwork Result FindInPath ExecPlugin c net rt = Ok r)
      /\ libcni.DelNetwork Result FindInPath ExecPlugin c net rt = None.
Proof.
  intros Result FindInPath ExecPlugin Htotal c net rt.
  unfold libcni.AddNetwork, libcni.DelNetwork, libcni.execPlugin. split.
  - apply Htotal.
  - destruct (Htotal
                (FindInPath (types.Type_ (libcni.Network net)) (libcni.Path c))
                (libcni.Bytes net)
                {| invoke.Command := "DEL";
                   invoke.ContainerID := libcni.ContainerID rt;
                   invoke.NetNS := libcni.NetNS rt;
                   invoke.PluginArgs := libcni.Args rt;
                   invoke.IfName := libcni.IfName rt;
                   invoke.Path := String.concat ":" (libcni.Path c) |})
      as (r & ->).
    reflexivity.
Qed.

Lemma engine_never_fails_by_itself_witness :
  (exists r, libcni.AddNetwork probe.Result (fun _ _ => "") probe.ExecPlugin
               {| libcni.Path := [] |} conf_test.brokenNetConfig probe.rt = Ok r)
  /\ libcni.DelNetwork probe.Result (fun _ _ => "") probe.ExecPlugin
       {| libcni.Path := [] |} conf_test.brokenNetConfig probe.rt = None.
Proof.
  apply (engine_never_fails_by_itself probe.Result (fun _ _ => "") probe.ExecPlugin).
  intros pluginPath netconf args. eexists. reflexivity.
Defined.

(** [DelNetwork] runs what [AddNetwork] runs, under another command: the
    same executable, the same bytes on its input and the same arguments
    but for the command.  With a runner that does not look at the command,
    [DelNetwork] returns [nil] where [AddNetwork] returns a result, and the
    error of [AddNetwork] where it fails. *)
Theorem DelNetwork_runs_what_AddNetwork_runs :
  forall (Result : Type) (FindInPath : string -> list string -> string)
         (ExecPlugin : string -> string -> invoke.Args -> res error Result),
    (forall pluginPath netconf args command,
        ExecPlugin pluginPath netconf args
        = ExecPlugin pluginPath netconf
            {| invoke.Command := command;
               invoke.ContainerID := invoke.ContainerID args;
               invoke.NetNS := invoke.NetNS args;
               invoke.PluginArgs := invoke.PluginArgs args;
               invoke.IfName := invoke.IfName args;
               invoke.Path := invoke.Path args |}) ->
    forall (c : libcni.CNIConfig) (net : libcni.NetworkConfig)
           (rt : libcni.RuntimeConf),
      libcni.DelNetwork Result FindInPath ExecPlugin c net rt
      = match libcni.AddNetwork Result FindInPath ExecPlugin c net rt with
        | Ok _ => None
        | Err e => Some e
        end.
Proof.
  intros Result FindInPath ExecPlugin Hblind c net rt.
  unfold libcni.DelNetwork, libcni.AddNetwork, libcni.execPlugin.
  rewrite (Hblind _ _ _ "ADD"). reflexivity.
Qed.

Lemma DelNetwork_runs_what_AddNetwork_runs_witness :
  libcni.DelNetwork string probe.FindInPath probe.ExecPlugin_blind
                    probe.cniConfig conf_test.testNetConfig probe.rt
  = match libcni.AddNetwork string probe.FindInPath probe.ExecPlugin_blind
            probe.cniConfig conf_test.testNetConfig probe.rt with
    | Ok _ => None
    | Err e => Some e
    end.
Proof.
  apply (DelNetwork_runs_what_AddNetwork_runs string probe.FindInPath
           probe.ExecPlugin_blind).
  reflexivity.
Defined.

(** ** The search path told to the plugin *)

Section JoinMentions.

Lemma mentions_concat (d : string) (l : list string) :
  In d l -> mentions d (String.concat ":" l).
Proof.
  induction l as [|a l IH]; [contradiction|].
  intros Hin. destruct l as [|b l].
  - destruct Hin as [->|[]]. exists "", "". simpl. now rewrite string_app_nil_r.
  - change (mentions d (a ++ ":" ++ String.concat ":" (b :: l))).
    destruct Hin as [->|Hin].
    + exists "", (":" ++ String.concat ":" (b :: l)). reflexivity.
    + destruct (IH Hin) as (pre & post & Heq).
      exists (a ++ ":" ++ pre), post. rewrite Heq.
      now rewrite !string_app_assoc.
Qed.

End JoinMentions.

(** Every directory of the search path is told to the plugin: the string
    that a run receives as its [Path] holds each directory of the engine's
    [Path], whatever the directories are called. *)
Theorem execPlugin_Path_tells_every_directory :
  forall (FindInPath : string -> list string -> string)
         (c : libcni.CNIConfig) (action : string)
         (net : libcni.NetworkConfig) (rt : libcni.RuntimeConf),
    exists told : string,
      libcni.execPlugin string FindInPath (fun _ _ args => Ok (invoke.Path args))
                        c action net rt = Ok told
      /\ forall d, In d (libcni.Path c) -> mentions d told.
Proof.
  intros FindInPath c action net rt.
  exists (String.concat ":" (libcni.Path c)).
  split; [reflexivity|]. intros d. apply mentions_concat.
Qed.

(** ** Injection: what the new bytes hold *)

Section InjectFacts.
Import libcni.

Lemma InjectConf_key_nonempty (c c1 : NetworkConfig) (key : string)
      (v : option Json.value) :
  InjectConf c key v = Ok c1 -> String.eqb key "" = false.
Proof.
  unfold InjectConf.
  destruct (unmarshal_map (Bytes c)); [|discriminate].
  destruct (String.eqb key ""); [discriminate | reflexivity].
Qed.

Lemma ConfFromBytes_again (bytes : string) (conf : NetworkConfig) :
  ConfFromBytes bytes = Ok conf -> ConfFromBytes (Bytes conf) = Ok conf.
Proof.
  intros H. now rewrite (ConfFromBytes_Bytes _ _ H).
Qed.

Lemma ConfFromBytes_inv (bytes : string) (conf : NetworkConfig) :
  ConfFromBytes bytes = Ok conf ->
  exists m, Json.decode bytes = Ok (Json.Obj m)
            /\ types.NetConf_of_json (Json.Obj m) = Ok (Network conf)
            /\ Bytes conf = bytes.
Proof.
  unfold ConfFromBytes. intros H.
  destruct (Json.decode bytes) as [v|]; [|discriminate].
  destruct (types.NetConf_of_json v) as [n|] eqn:Hn; [|discriminate].
  inversion H; subst. simpl.
  destruct v; try discriminate. eauto.
Qed.

Lemma NetConf_of_json_type (m : list (string * Json.value)) (net : types.NetConf)
      (t : string) :
  types.NetConf_of_json (Json.Obj m) = Ok net ->
  SMap.get "type" m = Some (Json.Str t) ->
  types.Type_ net = t.
Proof.
  unfold types.NetConf_of_json, types.string_field at 3. intros H Ht.
  rewrite Ht in H.
  destruct (types.string_field "cniVersion" m); [|discriminate].
  simpl in H.
  destruct (types.string_field "name" m); [|discriminate].
  simpl in H.
  destruct (types.DNS_of_json (SMap.get "dns" m)); [|discriminate].
  inversion H. reflexivity.
Qed.

Lemma NetConf_of_json_type_field (m : list (string * Json.value))
      (net : types.NetConf) :
  types.NetConf_of_json (Json.Obj m) = Ok net ->
  types.string_field "type" m = Ok (types.Type_ net).
Proof.
  unfold types.NetConf_of_json. intros H.
  destruct (types.string_field "cniVersion" m); [|discriminate].
  simpl in H.
  destruct (types.string_field "name" m); [|discriminate].
  simpl in H.
  destruct (types.string_field "type" m); [|discriminate].
  simpl in H.
  destruct (types.DNS_of_json (SMap.get "dns" m)); [|discriminate].
  inversion H. reflexivity.
Qed.

Lemma plugins_of_in_sync (l : list Json.value) (ps : list NetworkConfig) :
  plugins_of l = Ok ps ->
  Forall (fun conf => ConfFromBytes (Bytes conf) = Ok conf) ps.
Proof.
  revert ps. induction l as [|p l IH]; simpl; intros ps H.
  - inversion H. constructor.
  - destruct (ConfFromBytes (Json.encode p)) as [conf|] eqn:Hc; [|discriminate].
    simpl in H. destruct (plugins_of l) as [rest|]; [|discriminate].
    simpl in H. inversion H; subst.
    constructor; [eapply ConfFromBytes_again; eassumption | now apply IH].
Qed.

End InjectFacts.

(** A later injection under the same key replaces the earlier one: after
    a first injection has succeeded, injecting another value under that key
    gives what injecting it into the original configuration gives, the
    same bytes and typed view or the same error. *)
Theorem InjectConf_last_write_wins :
  forall (c c1 : libcni.NetworkConfig) (key : string) (v v' : Json.value),
    libcni.InjectConf c key (Some v) = Ok c1 ->
    libcni.InjectConf c1 key (Some v') = libcni.InjectConf c key (Some v').
Proof.
  intros c c1 key v v' H.
  pose proof (InjectConf_key_nonempty _ _ _ _ H) as Hk.
  destruct (InjectConf_Ok_inv _ _ _ _ H) as (m & Hm & _ & Hm1 & _).
  unfold libcni.InjectConf. rewrite Hm, Hm1, Hk, set_set. reflexivity.
Qed.

Lemma InjectConf_last_write_wins_witness :
  libcni.InjectConf conf_test.injected_test "test" (Some (Json.Str "changedValue"))
  = libcni.InjectConf conf_test.testNetConfig "test" (Some (Json.Str "changedValue")).
Proof.
  apply (InjectConf_last_write_wins conf_test.testNetConfig conf_test.injected_test
           "test" (Json.Str "test")).
  vm_compute. reflexivity.
Defined.

(** What an injection leaves in the bytes: they unmarshal into a map that
    holds the new value, in its marshalled form, under the key, and under
    every other key what the original bytes held there, absent keys staying
    absent. *)
Theorem InjectConf_read_back :
  forall (c c1 : libcni.NetworkConfig) (key : string) (v : Json.value),
    libcni.InjectConf c key (Some v) = Ok c1 ->
    exists m m1 : list (string * Json.value),
      libcni.unmarshal_map (libcni.Bytes c) = Ok m
      /\ libcni.unmarshal_map (libcni.Bytes c1) = Ok m1
      /\ SMap.get key m1 = Some (Json.norm v)
      /\ forall k, k <> key -> SMap.get k m1 = SMap.get k m.
Proof.
  intros c c1 key v H.
  destruct (InjectConf_Ok_inv _ _ _ _ H) as (m & Hm & _ & Hm1 & _).
  exists m, (SMap.set key (Json.norm v) m).
  repeat split; try assumption.
  - apply get_set_same.
  - intros k Hk. now apply get_set_other.
Qed.

Lemma InjectConf_read_back_witness :
  exists m m1 : list (string * Json.value),
    libcni.unmarshal_map (libcni.Bytes conf_test.testNetConfig) = Ok m
    /\ libcni.unmarshal_map (libcni.Bytes conf_test.injected_test) = Ok m1
    /\ SMap.get "test" m1 = Some (Json.norm (Json.Str "test"))
    /\ forall k, k <> "test" -> SMap.get k m1 = SMap.get k m.
Proof.
  apply (InjectConf_read_back conf_test.testNetConfig conf_test.injected_test
           "test" (Json.Str "test")).
  vm_compute. reflexivity.
Defined.

(** Injections under two different keys can be made in either order: when
    the values are in marshalled form and both orders succeed, they end in
    the same configuration, bytes and typed view. *)
Theorem InjectConf_commutes :
  forall (c a ab b ba : libcni.NetworkConfig) (k1 k2 : string)
         (v1 v2 : Json.value),
    k1 <> k2 -> Json.canonical v1 -> Json.canonical v2 ->
    libcni.InjectConf c k1 (Some v1) = Ok a ->
    libcni.InjectConf a k2 (Some v2) = Ok ab ->
    libcni.InjectConf c k2 (Some v2) = Ok b ->
    libcni.InjectConf b k1 (Some v1) = Ok ba ->
    ab = ba.
Proof.
  intros c a ab b ba k1 k2 v1 v2 Hne Hc1 Hc2 Ha Hab Hb Hba.
  destruct (InjectConf_Ok_inv _ _ _ _ Ha) as (m & Hm & _ & Hma & _).
  destruct (InjectConf_Ok_inv _ _ _ _ Hb) as (m' & Hm' & _ & Hmb & _).
  destruct (InjectConf_Ok_inv _ _ _ _ Hab) as (ma & Hma' & Hbab & _ & Hcab).
  destruct (InjectConf_Ok_inv _ _ _ _ Hba) as (mb & Hmb' & Hbba & _ & Hcba).
  rewrite Hm in Hm'. inversion Hm'; subst m'.
  rewrite Hma in Hma'. inversion Hma'; subst ma.
  rewrite Hmb in Hmb'. inversion Hmb'; subst mb.
  rewrite (canonical_norm _ Hc1) in Hbab.
  rewrite (canonical_norm _ Hc2) in Hbba.
  assert (Hbytes : libcni.Bytes ab = libcni.Bytes ba).
  { rewrite Hbab, Hbba. f_equal. f_equal. apply not_eq_sym in Hne.
    now apply set_comm. }
  rewrite Hbytes in Hcab. rewrite Hcab in Hcba. now inversion Hcba.
Qed.

Lemma InjectConf_commutes_witness :
  conf_test.injected_test_type = conf_test.injected_test_type.
Proof.
  apply (InjectConf_commutes conf_test.testNetConfig
           conf_test.injected_test conf_test.injected_test_type
           conf_test.injected_type conf_test.injected_test_type
           "test" "type" (Json.Str "test") (Json.Str "bridge"));
    first [discriminate | constructor | (vm_compute; reflexivity)].
Defined.

(** The bytes that an injection of a marshalled value returns are in
    marshalled form themselves, whatever the layout of the original bytes:
    they decode, and encoding what they decode to gives them back, with no
    white space and the keys sorted at every level. *)
Theorem InjectConf_bytes_marshalled :
  forall (c c1 : libcni.NetworkConfig) (key : string) (v : Json.value),
    Json.canonical v ->
    libcni.InjectConf c key (Some v) = Ok c1 ->
    exists j : Json.value,
      Json.decode (libcni.Bytes c1) = Ok j
      /\ Json.canonical j
      /\ Json.encode j = libcni.Bytes c1.
Proof.
  intros c c1 key v Hv H.
  destruct (InjectConf_Ok_inv _ _ _ _ H) as (m & Hm & Hb & Hm1 & _).
  rewrite (canonical_norm _ Hv) in Hm1.
  exists (Json.Obj (SMap.set key v m)).
  assert (Hd : Json.decode (libcni.Bytes c1) = Ok (Json.Obj (SMap.set key v m))).
  { destruct (unmarshal_map_canonical _ _ Hm) as [Hs Hc].
    rewrite Hb, unmarshal_marshal_set by assumption.
    now rewrite (canonical_norm _ Hv). }
  split; [exact Hd|]. split; [|now rewrite Hb].
  eapply decode_canonical. exact Hd.
Qed.

Lemma InjectConf_bytes_marshalled_witness :
  exists j : Json.value,
    Json.decode (libcni.Bytes conf_test.injected_test) = Ok j
    /\ Json.canonical j
    /\ Json.encode j = libcni.Bytes conf_test.injected_test.
Proof.
  apply (InjectConf_bytes_marshalled conf_test.testNetConfig
           conf_test.injected_test "test" (Json.Str "test")).
  - constructor.
  - vm_compute. reflexivity.
Defined.

(** The typed view of whatever the library returns is the one read from
    the bytes it is returned with: a configuration from [LoadConf] or
    [InjectConf], and every plugin of a list from [LoadConfList], is what
    [ConfFromBytes] makes of its own bytes. *)
Theorem returned_configurations_in_sync :
  forall (root : fs.node) (dir : fs.path) (name : string)
         (c0 : libcni.NetworkConfig) (key : string) (v : option Json.value),
    (forall c, libcni.LoadConf root dir name = Ok c ->
               libcni.ConfFromBytes (libcni.Bytes c) = Ok c)
    /\ (forall c, libcni.InjectConf c0 key v = Ok c ->
                  libcni.ConfFromBytes (libcni.Bytes c) = Ok c)
    /\ (forall l, libcni.LoadConfList root dir name = Ok l ->
                  Forall (fun c => libcni.ConfFromBytes (libcni.Bytes c) = Ok c)
                         (libcni.NetworkConfigList.Plugins l)).
Proof.
  intros root dir name c0 key v. split; [|split].
  - intros c H. unfold libcni.LoadConf in H.
    destruct (libcni.ConfFiles root dir [".conf"; ".json"]) as [files|];
      [|discriminate].
    simpl in H. destruct files as [|f0 files]; [discriminate|].
    apply scan_files_Ok_inv in H. destruct H as (f & _ & H).
    unfold libcni.ConfFromFile in H.
    destruct (fs.ReadFile root (fs.Join dir f)); [|discriminate].
    eapply ConfFromBytes_again; eassumption.
  - intros c H. destruct v as [v|].
    + now destruct (InjectConf_Ok_inv _ _ _ _ H) as (m & _ & _ & _ & Hc).
    + unfold libcni.InjectConf in H.
      destruct (libcni.unmarshal_map (libcni.Bytes c0)); [|discriminate].
      destruct (String.eqb key ""); discriminate.
  - intros l H. destruct (LoadConfList_Ok_inv _ _ _ _ H) as (f & Hf).
    destruct (ConfListFromFile_Ok_inv _ _ _ Hf) as (content & _ & Hl).
    destruct (ConfListFromBytes_inv _ _ Hl) as (raw & plugins & _ & _ & _ & _ & Hps & _).
    eapply plugins_of_in_sync. exact Hps.
Qed.

Lemma returned_configurations_in_sync_witness :
  libcni.ConfFromBytes (libcni.Bytes conf_test.loaded_some_plugin)
  = Ok conf_test.loaded_some_plugin
  /\ libcni.ConfFromBytes (libcni.Bytes conf_test.injected_test)
     = Ok conf_test.injected_test
  /\ Forall (fun c => libcni.ConfFromBytes (libcni.Bytes c) = Ok c)
            (libcni.NetworkConfigList.Plugins conf_test.expected_list).
Proof.
  pose proof (returned_configurations_in_sync conf_test.LoadConf_root
                conf_test.configDir "some-plugin" conf_test.testNetConfig "test"
                (Some (Json.Str "test"))) as (H1 & H2 & _).
  pose proof (returned_configurations_in_sync conf_test.LoadConfList_root
                conf_test.configDir "some-list" conf_test.testNetConfig "test"
                (Some (Json.Str "test"))) as (_ & _ & H3).
  split; [|split].
  - apply H1. vm_compute. reflexivity.
  - apply H2. vm_compute. reflexivity.
  - apply H3. vm_compute. reflexivity.
Defined.

(** Injecting a plugin type decides which plugin the engine runs: after
    ["type"] has been injected, the typed view bears that type, and
    [AddNetwork] runs the executable that [FindInPath] gives for it, on the
    new bytes. *)
Theorem InjectConf_type_selects_plugin :
  forall (c0 c1 : libcni.NetworkConfig) (type : string),
    libcni.InjectConf c0 "type" (Some (Json.Str type)) = Ok c1 ->
    types.Type_ (libcni.Network c1) = type
    /\ forall (Result : Type) (FindInPath : string -> list string -> string)
              (ExecPlugin : string -> string -> invoke.Args -> res error Result)
              (c : libcni.CNIConfig) (rt : libcni.RuntimeConf),
         libcni.AddNetwork Result FindInPath ExecPlugin c c1 rt
         = ExecPlugin (FindInPath type (libcni.Path c)) (libcni.Bytes c1)
             {| invoke.Command := "ADD";
                invoke.ContainerID := libcni.ContainerID rt;
                invoke.NetNS := libcni.NetNS rt;
                invoke.PluginArgs := libcni.Args rt;
                invoke.IfName := libcni.IfName rt;
                invoke.Path := String.concat ":" (libcni.Path c) |}.
Proof.
  intros c0 c1 type H.
  destruct (InjectConf_Ok_inv _ _ _ _ H) as (m & _ & _ & Hm1 & Hc1).
  assert (Ht : types.Type_ (libcni.Network c1) = type).
  { destruct (ConfFromBytes_inv _ _ Hc1) as (m1 & Hd & Hn & _).
    unfold libcni.unmarshal_map in Hm1. rewrite Hd in Hm1. simpl in Hm1.
    inversion Hm1; subst m1.
    eapply NetConf_of_json_type; [exact Hn|]. apply get_set_same. }
  split; [exact Ht|].
  intros Result FindInPath ExecPlugin c rt.
  unfold libcni.AddNetwork, libcni.execPlugin. now rewrite Ht.
Qed.

Lemma InjectConf_type_selects_plugin_witness :
  types.Type_ (libcni.Network conf_test.injected_type) = "bridge"
  /\ forall (Result : Type) (FindInPath : string -> list string -> string)
            (ExecPlugin : string -> string -> invoke.Args -> res error Result)
            (c : libcni.CNIConfig) (rt : libcni.RuntimeConf),
       libcni.AddNetwork Result FindInPath ExecPlugin c conf_test.injected_type rt
       = ExecPlugin (FindInPath "bridge" (libcni.Path c))
           (libcni.Bytes conf_test.injected_type)
           {| invoke.Command := "ADD";
              invoke.ContainerID := libcni.ContainerID rt;
              invoke.NetNS := libcni.NetNS rt;
              invoke.PluginArgs := libcni.Args rt;
              invoke.IfName := libcni.IfName rt;
              invoke.Path := String.concat ":" (libcni.Path c) |}.
Proof.
  apply (InjectConf_type_selects_plugin conf_test.testNetConfig).
  vm_compute. reflexivity.
Defined.

(** ** The loader: what it returns and what it looks at *)

Section LoaderFacts.
Import libcni.

Lemma prefix_app (s t : string) : String.prefix s (s ++ t) = true.
Proof.
  induction s as [|a s IH]; simpl; [now destruct t|].
  destruct (ascii_dec a a); [exact IH | contradiction].
Qed.

(** A successful scan returns a configuration with the requested name. *)
Lemma scan_files_Ok_name {A : Type} (load : fs.path -> res error A)
      (name_of : A -> string) (missing : error) (dir : fs.path) (name : string)
      (files : list string) (conf : A) :
  scan_files load name_of missing dir name files = Ok conf ->
  name_of conf = name.
Proof.
  induction files as [|f files IH]; simpl; [discriminate|].
  destruct (load (fs.Join dir f)) as [conf'|]; [|discriminate].
  destruct (String.eqb_spec (name_of conf') name) as [Heq|Hne].
  - intros H. congruence.
  - exact IH.
Qed.

(** Two ways of loading that agree on the files scanned give the same
    scan. *)
Lemma scan_files_ext {A : Type} (load1 load2 : fs.path -> res error A)
      (name_of : A -> string) (missing : error) (dir : fs.path) (name : string)
      (files : list string) :
  (forall f, In f files -> load1 (fs.Join dir f) = load2 (fs.Join dir f)) ->
  scan_files load1 name_of missing dir name files
  = scan_files load2 name_of missing dir name files.
Proof.
  induction files as [|f files IH]; simpl; intros H; [reflexivity|].
  rewrite (H f (or_introl eq_refl)).
  destruct (load2 (fs.Join dir f)) as [conf|]; [|reflexivity].
  destruct (String.eqb (name_of conf) name); [reflexivity|].
  apply IH. intros g Hg. apply H. now right.
Qed.

Lemma ConfFiles_Ok_inv (root : fs.node) (dir : fs.path) (exts : list string)
      (f : string) (files : list string) :
  ConfFiles root dir exts = Ok (f :: files) ->
  exists es, fs.resolve root dir = Some (fs.Dir es)
             /\ candidates es exts = f :: files.
Proof.
  unfold ConfFiles.
  destruct (fs.resolve root dir) as [[content|es]|]; try discriminate.
  intros H. inversion H. eauto.
Qed.

Lemma ConfListFromBytes_error_class (bytes : string) (e : error) :
  ConfListFromBytes bytes = Err e -> class e = ParseError.
Proof.
  assert (Hps : forall l e', plugins_of l = Err e' -> class e' = ParseError).
  { induction l as [|p l IH]; simpl; intros e' H; [discriminate|].
    destruct (ConfFromBytes (Json.encode p)) as [conf|e0] eqn:Hc; simpl in H.
    - destruct (plugins_of l) as [rest|e1]; simpl in H; [discriminate|].
      inversion H; subst. now apply IH.
    - inversion H; subst. eapply ConfFromBytes_error_class; eassumption. }
  unfold ConfListFromBytes. intros H.
  destruct (unmarshal_map bytes) as [rawList|]; [|now inversion H].
  destruct (SMap.get "name" rawList) as [[| | |name| |]|];
    try (now inversion H).
  destruct (types.string_field "cniVersion" rawList); [|now inversion H].
  destruct (SMap.get "plugins" rawList) as [[| | | |plugins|]|];
    try (now inversion H).
  destruct plugins as [|p plugins]; [now inversion H|].
  destruct (plugins_of (p :: plugins)) as [ps|e1] eqn:Hl; simpl in H;
    [discriminate|].
  inversion H; subst. eapply Hps; eassumption.
Qed.

Lemma LoadConfList_no_candidates (root : fs.node) (dir : fs.path) (name : string) :
  (fs.resolve root dir = None
   \/ exists es, fs.resolve root dir = Some (fs.Dir es)
                 /\ forall f content, In (f, fs.File content) es ->
                                      ~ has_ext [".conflist"] f) ->
  LoadConfList root dir name
  = Err (Error NotFound "no net configuration lists found").
Proof.
  intros [H|(es & H & Hnone)].
  - unfold LoadConfList, ConfFiles. rewrite H. reflexivity.
  - rewrite (LoadConfList_listing _ _ _ _ H).
    destruct (candidates es [".conflist"]) as [|f l] eqn:Hc; [reflexivity|].
    exfalso.
    assert (Hin : In f (candidates es [".conflist"])) by (rewrite Hc; now left).
    apply candidates_has_ext in Hin. destruct Hin as (content & Hin & Hext).
    exact (Hnone f content Hin Hext).
Qed.

(** *** Sorted lists of distinct names *)

Lemma leb_antisym (a b : string) :
  String.leb a b = true -> String.leb b a = true -> a = b.
Proof.
  unfold String.leb. rewrite (String.compare_antisym b a).
  destruct (String.compare a b) eqn:H; simpl; try discriminate.
  intros _ _. now apply String.compare_eq_iff.
Qed.

Lemma sorted_same_elements (l1 l2 : list string) :
  StronglySorted le_string l1 -> StronglySorted le_string l2 ->
  NoDup l1 -> NoDup l2 ->
  (forall x, In x l1 <-> In x l2) -> l1 = l2.
Proof.
  intros S1. revert l2.
  induction S1 as [|a l1 S1 IH A1]; intros l2 S2 N1 N2 Hin.
  - destruct l2 as [|b l2]; [reflexivity|].
    exfalso. apply (proj2 (Hin b)). now left.
  - destruct S2 as [|b l2 S2 A2].
    + exfalso. apply (proj1 (Hin a)). now left.
    + inversion N1 as [|? ? Na N1']; subst.
      inversion N2 as [|? ? Nb N2']; subst.
      rewrite Forall_forall in A1, A2.
      assert (Hab : a = b).
      { destruct (proj1 (Hin a) (or_introl eq_refl)) as [Hba|Ha]; [now symmetry|].
        destruct (proj2 (Hin b) (or_introl eq_refl)) as [Hab|Hb]; [assumption|].
        apply leb_antisym; [apply A1 | apply A2]; assumption. }
      subst b. f_equal. apply IH; try assumption.
      intros x. split; intros Hx.
      * destruct (proj1 (Hin x) (or_intror Hx)) as [<-|H]; [contradiction | exact H].
      * destruct (proj2 (Hin x) (or_intror Hx)) as [<-|H]; [contradiction | exact H].
Qed.

Lemma insert_sorted_NoDup (x : string) (l : list string) :
  ~ In x l -> NoDup l -> NoDup (insert_sorted x l).
Proof.
  induction l as [|y l IH]; simpl; intros Hx Hl.
  - constructor; [tauto | constructor].
  - destruct (String.leb x y).
    + constructor; assumption.
    + inversion Hl as [|? ? Hy Hl']; subst.
      constructor.
      * rewrite insert_sorted_In. intros [->|H]; [apply Hx; now left | contradiction].
      * apply IH; [tauto | assumption].
Qed.

Lemma sort_strings_NoDup (l : list string) : NoDup l -> NoDup (sort_strings l).
Proof.
  induction 1 as [|x l Hx Hl IH]; simpl; [constructor|].
  apply insert_sorted_NoDup; [|exact IH].
  now rewrite sort_strings_In.
Qed.

Lemma candidates_NoDup (es : list (string * fs.node)) (exts : list string) :
  NoDup (map fst es) -> NoDup (candidates es exts).
Proof.
  unfold candidates.
  induction es as [|[n x] es IH]; simpl; intros H; [constructor|].
  inversion H as [|? ? Hn H']; subst.
  destruct (fs.is_file x && existsb (String.eqb (fs.Ext n)) exts); simpl; [|auto].
  constructor; [|auto].
  intros Hin. apply Hn.
  apply in_map_iff in Hin. destruct Hin as (e & He & Hin).
  apply filter_In in Hin. destruct Hin as [Hin _].
  apply in_map_iff. eauto.
Qed.

(** The scan of a directory depends on the directory through its
    candidates only. *)
Lemma sorted_candidates_same (es1 es2 : list (string * fs.node))
      (exts : list string) :
  NoDup (map fst es1) -> NoDup (map fst es2) ->
  (forall f content, has_ext exts f ->
                     (In (f, fs.File content) es1 <-> In (f, fs.File content) es2)) ->
  sort_strings (candidates es1 exts) = sort_strings (candidates es2 exts).
Proof.
  intros N1 N2 H.
  apply sorted_same_elements;
    try apply sort_strings_sorted;
    try (apply sort_strings_NoDup, candidates_NoDup; assumption).
  intros f. rewrite !sort_strings_In, !candidates_has_ext.
  split; intros (content & Hin & Hext); exists content;
    (split; [|exact Hext]); now apply (H f content Hext).
Qed.

End LoaderFacts.

(** A file that does not exist cannot be loaded: [ConfFromFile] and
    [ConfListFromFile] fail with an IO error whose message begins with
    "error reading", the path, ": open" and the path again. *)
Theorem ConfFromFile_missing_file :
  forall (root : fs.node) (filename : fs.path),
    fs.resolve root filename = None ->
    exists msg : string,
      libcni.ConfFromFile root filename = Err (Error IOError msg)
      /\ libcni.ConfListFromFile root filename = Err (Error IOError msg)
      /\ String.prefix ("error reading " ++ fs.path_string filename ++ ": open "
                        ++ fs.path_string filename) msg = true.
Proof.
  intros root filename H.
  exists (message (libcni.read_error filename)).
  unfold libcni.ConfFromFile, libcni.ConfListFromFile, fs.ReadFile.
  rewrite H. split; [reflexivity|]. split; [reflexivity|].
  unfold libcni.read_error. cbn [message].
  set (p := fs.path_string filename).
  replace ("error reading " ++ p ++ ": open " ++ p ++ ": no such file or directory")
    with (("error reading " ++ p ++ ": open " ++ p) ++ ": no such file or directory")
    by (now rewrite !string_app_assoc).
  apply prefix_app.
Qed.

Lemma ConfFromFile_missing_file_witness :
  exists msg : string,
    libcni.ConfFromFile conf_test.LoadConf_root ["tmp"; "nope"; "not-here"]
    = Err (Error IOError msg)
    /\ libcni.ConfListFromFile conf_test.LoadConf_root ["tmp"; "nope"; "not-here"]
       = Err (Error IOError msg)
    /\ String.prefix ("error reading " ++ fs.path_string ["tmp"; "nope"; "not-here"]
                      ++ ": open " ++ fs.path_string ["tmp"; "nope"; "not-here"])
                     msg = true.
Proof.
  apply (ConfFromFile_missing_file conf_test.LoadConf_root ["tmp"; "nope"; "not-here"]).
  reflexivity.
Defined.

(** The two NotFound answers of [LoadConfList].  When the directory is
    missing, is empty, or holds no [.conflist] file, the message is exactly
    "no net configuration lists found".  When it holds such files, all of
    them lists under other names, the error is a NotFound whose message
    begins with "no net configuration list with name", quotes the requested
    name and ends with the directory searched. *)
Theorem LoadConfList_not_found_cases :
  forall (root : fs.node) (dir : fs.path) (name : string),
    ((fs.resolve root dir = None
      \/ fs.resolve root dir = Some (fs.Dir [])
      \/ (exists es, fs.resolve root dir = Some (fs.Dir es)
                     /\ forall f content, In (f, fs.File content) es ->
                                          ~ libcni.has_ext [".conflist"] f)) ->
     libcni.LoadConfList root dir name
     = Err (Error NotFound "no net configuration lists found"))
    /\ (forall es,
           fs.resolve root dir = Some (fs.Dir es) ->
           NoDup (map fst es) ->
           (exists f content, In (f, fs.File content) es
                              /\ libcni.has_ext [".conflist"] f) ->
           libcni.direct_files_pass libcni.ConfListFromBytes
             libcni.NetworkConfigList.Name [".conflist"] es name ->
           libcni.LoadConfList root dir name
           = Err (Error NotFound
                    ("no net configuration list with name " ++ quoted name
                     ++ " in " ++ fs.path_string dir))).
Proof.
  intros root dir name. split.
  - intros [H|[H|H]]; apply LoadConfList_no_candidates; auto.
    right. exists []. split; [assumption|]. intros f content [].
  - intros es Hdir Hnd (f & content & Hin & Hext) Hpass.
    rewrite (LoadConfList_all_pass _ _ _ _ Hdir Hnd Hpass).
    assert (Hc : In f (libcni.candidates es [".conflist"])).
    { apply candidates_has_ext. exists content. auto. }
    destruct (libcni.candidates es [".conflist"]); [contradiction|].
    reflexivity.
Qed.

Lemma LoadConfList_not_found_cases_witness :
  libcni.LoadConfList conf_test.no_configDir conf_test.configDir "some-plugin"
  = Err (Error NotFound "no net configuration lists found")
  /\ libcni.LoadConfList conf_test.LoadConfList_root conf_test.configDir
                         "some-other-plugin"
     = Err (Error NotFound
              ("no net configuration list with name " ++ quoted "some-other-plugin"
               ++ " in " ++ fs.path_string conf_test.configDir)).
Proof.
  split.
  - apply (proj1 (LoadConfList_not_found_cases conf_test.no_configDir
                    conf_test.configDir "some-plugin")).
    left. reflexivity.
  - apply (proj2 (LoadConfList_not_found_cases conf_test.LoadConfList_root
                    conf_test.configDir "some-other-plugin")
             [("50-whatever.conflist", fs.File conf_test.configList)]).
    + reflexivity.
    + repeat constructor; simpl; intuition discriminate.
    + exists "50-whatever.conflist", conf_test.configList.
      split; [left; reflexivity | left; reflexivity].
    + intros f content [H|[]] _. inversion H; subst.
      exists conf_test.expected_list.
      split; [vm_compute; reflexivity | discriminate].
Defined.

(** A list file that does not load stops [LoadConfList] when every list
    file that sorts before it loads and bears another name than the
    requested one: the answer is the error of that file, a ParseError,
    whatever sorts after it.  For a file that is not JSON the message is
    "error parsing configuration list: " and the message of the decoder. *)
Theorem LoadConfList_malformed_first :
  forall (root : fs.node) (dir : fs.path) (es : list (string * fs.node))
         (name bad content : string) (e : error),
    fs.resolve root dir = Some (fs.Dir es) ->
    NoDup (map fst es) ->
    In (bad, fs.File content) es ->
    libcni.has_ext [".conflist"] bad ->
    libcni.ConfListFromBytes content = Err e ->
    (forall g c, In (g, fs.File c) es ->
                 libcni.has_ext [".conflist"] g ->
                 String.ltb g bad = true ->
                 exists l, libcni.ConfListFromBytes c = Ok l
                           /\ libcni.NetworkConfigList.Name l <> name) ->
    libcni.LoadConfList root dir name = Err e
    /\ class e = ParseError
    /\ (forall je, Json.decode content = Err je ->
                   message e = "error parsing configuration list: "
                               ++ Json.error_text je).
Proof.
  intros root dir es name bad content e Hdir Hnd Hin Hext Hbad Hbefore.
  split; [|split].
  - rewrite (LoadConfList_listing _ _ _ _ Hdir).
    assert (Hcand : In bad (libcni.candidates es [".conflist"])).
    { apply candidates_has_ext. exists content. auto. }
    destruct (libcni.candidates es [".conflist"]) as [|f l] eqn:Hc;
      [contradiction|].
    rewrite <- Hc in *.
    apply scan_files_first_error with (bad := bad).
    + apply sort_strings_sorted.
    + now apply sort_strings_In.
    + now rewrite (ConfListFromFile_listed _ _ _ _ _ Hdir Hnd Hin).
    + intros g Hg Hlt.
      apply sort_strings_In, candidates_has_ext in Hg.
      destruct Hg as (c & Hgin & Hgext).
      destruct (Hbefore g c Hgin Hgext Hlt) as (l' & Hl' & Hn).
      exists l'. split; [|assumption].
      now rewrite (ConfListFromFile_listed _ _ _ _ _ Hdir Hnd Hgin).
  - eapply ConfListFromBytes_error_class; eassumption.
  - intros je Hje. unfold libcni.ConfListFromBytes, libcni.unmarshal_map in Hbad.
    rewrite Hje in Hbad. simpl in Hbad. inversion Hbad. reflexivity.
Qed.

Lemma LoadConfList_malformed_first_witness :
  libcni.LoadConfList conf_test.LoadConfList_malformed_root conf_test.configDir
                      "some-plugin"
  = Err (Error ParseError
           "error parsing configuration list: unexpected end of JSON input")
  /\ class (Error ParseError
              "error parsing configuration list: unexpected end of JSON input")
     = ParseError
  /\ (forall je, Json.decode "{" = Err je ->
                 message (Error ParseError
                            "error parsing configuration list: unexpected end of JSON input")
                 = "error parsing configuration list: " ++ Json.error_text je).
Proof.
  apply (LoadConfList_malformed_first conf_test.LoadConfList_malformed_root
           conf_test.configDir
           [("00-bad.conflist", fs.File "{");
            ("50-whatever.conflist", fs.File conf_test.configList)]
           "some-plugin" "00-bad.conflist" "{").
  - reflexivity.
  - repeat constructor; simpl; intuition discriminate.
  - left. reflexivity.
  - left. reflexivity.
  - reflexivity.
  - intros g c [H|[H|[]]] _ Hlt; inversion H; subst; discriminate Hlt.
Defined.

(** What [LoadConf] returns comes from the directory itself: the
    configuration bears the requested name, and its bytes are the content,
    unchanged, of a regular file directly inside the directory whose name
    ends in [.conf] or [.json]. *)
Theorem LoadConf_returns_a_candidate :
  forall (root : fs.node) (dir : fs.path) (name : string)
         (conf : libcni.NetworkConfig),
    libcni.LoadConf root dir name = Ok conf ->
    types.Name (libcni.Network conf) = name
    /\ exists (es : list (string * fs.node)) (f : string),
         fs.resolve root dir = Some (fs.Dir es)
         /\ (exists content, In (f, fs.File content) es)
         /\ libcni.has_ext [".conf"; ".json"] f
         /\ fs.ReadFile root (fs.Join dir f) = Some (libcni.Bytes conf).
Proof.
  intros root dir name conf H. unfold libcni.LoadConf in H.
  destruct (libcni.ConfFiles root dir [".conf"; ".json"]) as [files|] eqn:Hf;
    [|discriminate].
  cbn [bind] in H. destruct files as [|f0 files]; [discriminate|].
  split; [exact (scan_files_Ok_name _ _ _ _ _ _ _ H)|].
  destruct (ConfFiles_Ok_inv _ _ _ _ _ Hf) as (es & Hdir & Hc).
  apply scan_files_Ok_inv in H. destruct H as (f & Hin & Hload).
  rewrite sort_strings_In, <- Hc in Hin.
  apply candidates_has_ext in Hin. destruct Hin as (content & Hin & Hext).
  exists es, f. repeat split; try assumption; [now exists content|].
  unfold libcni.ConfFromFile in Hload.
  destruct (fs.ReadFile root (fs.Join dir f)) as [bytes|]; [|discriminate].
  now rewrite (ConfFromBytes_Bytes _ _ Hload).
Qed.

Lemma LoadConf_returns_a_candidate_witness :
  types.Name (libcni.Network conf_test.loaded_some_plugin) = "some-plugin"
  /\ exists (es : list (string * fs.node)) (f : string),
       fs.resolve conf_test.LoadConf_root conf_test.configDir = Some (fs.Dir es)
       /\ (exists content, In (f, fs.File content) es)
       /\ libcni.has_ext [".conf"; ".json"] f
       /\ fs.ReadFile conf_test.LoadConf_root (fs.Join conf_test.configDir f)
          = Some (libcni.Bytes conf_test.loaded_some_plugin).
Proof.
  apply (LoadConf_returns_a_candidate conf_test.LoadConf_root conf_test.configDir).
  vm_compute. reflexivity.
Defined.

(** What [LoadConfList] returns comes from the directory itself: the list
    bears the requested name, and its bytes are the content, unchanged, of
    a regular file directly inside the directory whose name ends in
    [.conflist]. *)
Theorem LoadConfList_returns_a_candidate :
  forall (root : fs.node) (dir : fs.path) (name : string)
         (l : libcni.NetworkConfigList.t),
    libcni.LoadConfList root dir name = Ok l ->
    libcni.NetworkConfigList.Name l = name
    /\ exists (es : list (string * fs.node)) (f : string),
         fs.resolve root dir = Some (fs.Dir es)
         /\ (exists content, In (f, fs.File content) es)
         /\ libcni.has_ext [".conflist"] f
         /\ fs.ReadFile root (fs.Join dir f)
            = Some (libcni.NetworkConfigList.Bytes l).
Proof.
  intros root dir name l H. unfold libcni.LoadConfList in H.
  destruct (libcni.ConfFiles root dir [".conflist"]) as [files|] eqn:Hf;
    [|discriminate].
  cbn [bind] in H. destruct files as [|f0 files]; [discriminate|].
  split; [exact (scan_files_Ok_name _ _ _ _ _ _ _ H)|].
  destruct (ConfFiles_Ok_inv _ _ _ _ _ Hf) as (es & Hdir & Hc).
  apply scan_files_Ok_inv in H. destruct H as (f & Hin & Hload).
  rewrite sort_strings_In, <- Hc in Hin.
  apply candidates_has_ext in Hin. destruct Hin as (content & Hin & Hext).
  exists es, f. repeat split; try assumption; [now exists content|].
  destruct (ConfListFromFile_Ok_inv _ _ _ Hload) as (bytes & Hread & Hl).
  destruct (ConfListFromBytes_inv _ _ Hl) as (_ & _ & _ & _ & _ & _ & _ & Hb).
  now rewrite Hb.
Qed.

Lemma LoadConfList_returns_a_candidate_witness :
  libcni.NetworkConfigList.Name conf_test.expected_list = "some-list"
  /\ exists (es : list (string * fs.node)) (f : string),
       fs.resolve conf_test.LoadConfList_root conf_test.configDir
       = Some (fs.Dir es)
       /\ (exists content, In (f, fs.File content) es)
       /\ libcni.has_ext [".conflist"] f
       /\ fs.ReadFile conf_test.LoadConfList_root (fs.Join conf_test.configDir f)
          = Some (libcni.NetworkConfigList.Bytes conf_test.expected_list).
Proof.
  apply (LoadConfList_returns_a_candidate conf_test.LoadConfList_root
           conf_test.configDir).
  vm_compute. reflexivity.
Defined.

(** [LoadConf] depends on the directory through its candidates only: two
    trees that hold, directly inside the directory, the same regular files
    with names ending in [.conf] or [.json] give the same answer.  Neither
    the order in which the directory lists its entries, nor its
    subdirectories and what they hold, nor its files under other
    extensions make a difference. *)
Theorem LoadConf_sees_candidates_only :
  forall (root1 root2 : fs.node) (dir : fs.path)
         (es1 es2 : list (string * fs.node)) (name : string),
    fs.resolve root1 dir = Some (fs.Dir es1) ->
    fs.resolve root2 dir = Some (fs.Dir es2) ->
    NoDup (map fst es1) -> NoDup (map fst es2) ->
    (forall f content,
        libcni.has_ext [".conf"; ".json"] f ->
        (In (f, fs.File content) es1 <-> In (f, fs.File content) es2)) ->
    libcni.LoadConf root1 dir name = libcni.LoadConf root2 dir name.
Proof.
  intros root1 root2 dir es1 es2 name H1 H2 N1 N2 Hsame.
  rewrite (LoadConf_listing _ _ _ _ H1), (LoadConf_listing _ _ _ _ H2).
  pose proof (sorted_candidates_same es1 es2 _ N1 N2 Hsame) as Hsort.
  destruct (libcni.candidates es1 [".conf"; ".json"]) as [|f1 l1] eqn:C1;
    destruct (libcni.candidates es2 [".conf"; ".json"]) as [|f2 l2] eqn:C2.
  - reflexivity.
  - symmetry in Hsort. apply sort_strings_nil_inv in Hsort. discriminate.
  - apply sort_strings_nil_inv in Hsort. discriminate.
  - rewrite Hsort. apply scan_files_ext.
    intros f Hf. rewrite <- C2 in Hf.
    apply sort_strings_In, candidates_has_ext in Hf.
    destruct Hf as (content & Hin2 & Hext).
    rewrite (ConfFromFile_listed _ _ _ _ _ H2 N2 Hin2).
    apply (Hsame f content Hext) in Hin2.
    now rewrite (ConfFromFile_listed _ _ _ _ _ H1 N1 Hin2).
Qed.

Lemma LoadConf_sees_candidates_only_witness :
  libcni.LoadConf conf_test.LoadConf_nested_root conf_test.configDir "deep"
  = libcni.LoadConf conf_test.LoadConf_shuffled_root conf_test.configDir "deep".
Proof.
  apply (LoadConf_sees_candidates_only conf_test.LoadConf_nested_root
           conf_test.LoadConf_shuffled_root conf_test.configDir
           [("50-whatever.conf", fs.File conf_test.pluginConfig);
            ("subdir1", fs.Dir [("subdir2",
               fs.Dir [("90-deep.conf", fs.File conf_test.deepConfig)])])]
           [("notes.txt", fs.File conf_test.deepConfig);
            ("50-whatever.conf", fs.File conf_test.pluginConfig)]).
  - reflexivity.
  - reflexivity.
  - repeat constructor; simpl; intuition discriminate.
  - repeat constructor; simpl; intuition discriminate.
  - intros f content Hext. split.
    + intros [H|[H|[]]]; inversion H; subst. right. now left.
    + intros [H|[H|[]]]; inversion H; subst.
      * destruct Hext as [Hext|[Hext|[]]]; discriminate Hext.
      * now left.
Defined.

Lemma LoadConf_first_match_witness :
  libcni.LoadConf conf_test.LoadConf_two_matches_root conf_test.configDir
                  "some-plugin"
  = Ok conf_test.loaded_first.
Proof.
  apply (LoadConf_first_match conf_test.LoadConf_two_matches_root
           conf_test.configDir
           [("50-whatever.conf", fs.File conf_test.pluginConfig);
            ("10-first.json", fs.File conf_test.firstConfig)]
           "some-plugin" "10-first.json" conf_test.firstConfig).
  - reflexivity.
  - repeat constructor; simpl; intuition discriminate.
  - right. left. reflexivity.
  - right. left. reflexivity.
  - vm_compute. reflexivity.
  - reflexivity.
  - intros g c [H|[H|[]]] _ Hlt; inversion H; subst; discriminate Hlt.
Defined.

(** From the directory to the plugin: the configuration that [LoadConf]
    returns is run by [AddNetwork] under the plugin named by the ["type"]
    of the file it was read from, and the plugin is handed the content of
    that file, byte for byte. *)
Theorem LoadConf_then_AddNetwork :
  forall (root : fs.node) (dir : fs.path) (name : string)
         (conf : libcni.NetworkConfig),
    libcni.LoadConf root dir name = Ok conf ->
    exists (f content : string) (m : list (string * Json.value)),
      fs.ReadFile root (fs.Join dir f) = Some content
      /\ Json.decode content = Ok (Json.Obj m)
      /\ types.string_field "type" m = Ok (types.Type_ (libcni.Network conf))
      /\ forall (Result : Type) (FindInPath : string -> list string -> string)
                (ExecPlugin : string -> string -> invoke.Args -> res error Result)
                (c : libcni.CNIConfig) (rt : libcni.RuntimeConf),
           libcni.AddNetwork Result FindInPath ExecPlugin c conf rt
           = ExecPlugin
               (FindInPath (types.Type_ (libcni.Network conf)) (libcni.Path c))
               content
               {| invoke.Command := "ADD";
                  invoke.ContainerID := libcni.ContainerID rt;
                  invoke.NetNS := libcni.NetNS rt;
                  invoke.PluginArgs := libcni.Args rt;
                  invoke.IfName := libcni.IfName rt;
                  invoke.Path := String.concat ":" (libcni.Path c) |}.
Proof.
  intros root dir name conf H. unfold libcni.LoadConf in H.
  destruct (libcni.ConfFiles root dir [".conf"; ".json"]) as [files|];
    [|discriminate].
  simpl in H. destruct files as [|f0 files]; [discriminate|].
  apply scan_files_Ok_inv in H. destruct H as (f & _ & Hload).
  unfold libcni.ConfFromFile in Hload.
  destruct (fs.ReadFile root (fs.Join dir f)) as [content|] eqn:Hread;
    [|discriminate].
  destruct (ConfFromBytes_inv _ _ Hload) as (m & Hd & Hn & Hb).
  exists f, content, m. repeat split; try assumption.
  - now apply NetConf_of_json_type_field.
  - intros Result FindInPath ExecPlugin c rt.
    unfold libcni.AddNetwork, libcni.execPlugin. now rewrite Hb.
Qed.

Lemma LoadConf_then_AddNetwork_witness :
  exists (f content : string) (m : list (string * Json.value)),
    fs.ReadFile conf_test.LoadConf_root (fs.Join conf_test.configDir f)
    = Some content
    /\ Json.decode content = Ok (Json.Obj m)
    /\ types.string_field "type" m
       = Ok (types.Type_ (libcni.Network conf_test.loaded_some_plugin))
    /\ forall (Result : Type) (FindInPath : string -> list string -> string)
              (ExecPlugin : string -> string -> invoke.Args -> res error Result)
              (c : libcni.CNIConfig) (rt : libcni.RuntimeConf),
         libcni.AddNetwork Result FindInPath ExecPlugin c
                           conf_test.loaded_some_plugin rt
         = ExecPlugin
             (FindInPath (types.Type_ (libcni.Network conf_test.loaded_some_plugin))
                         (libcni.Path c))
             content
             {| invoke.Command := "ADD";
                invoke.ContainerID := libcni.ContainerID rt;
                invoke.NetNS := libcni.NetNS rt;
                invoke.PluginArgs := libcni.Args rt;
                invoke.IfName := libcni.IfName rt;
                invoke.Path := String.concat ":" (libcni.Path c) |}.
Proof.
  apply (LoadConf_then_AddNetwork conf_test.LoadConf_root conf_test.configDir
           "some-plugin").
  vm_compute. reflexivity.
Defined.

(** ** Which names are candidates *)

Section Extensions.

Lemma Ext_no_dot (w : string) :
  forallb (fun c => negb (Ascii.eqb c ".")) (list_ascii_of_string w) = true ->
  fs.Ext w = "".
Proof.
  induction w as [|c w IH]; simpl; [reflexivity|].
  intros H. apply andb_true_iff in H. destruct H as [Hc Hw].
  rewrite (IH Hw). apply negb_true_iff in Hc. now rewrite Hc.
Qed.

(** The extension of a name is what follows its last dot, the dot
    included. *)
Lemma Ext_last_dot (stem w : string) :
  forallb (fun c => negb (Ascii.eqb c ".")) (list_ascii_of_string w) = true ->
  fs.Ext (stem ++ String "." w) = String "." w.
Proof.
  intros Hw. induction stem as [|c stem IH].
  - change (fs.Ext (String "." w) = String "." w).
    simpl. now rewrite (Ext_no_dot w Hw).
  - change (fs.Ext (String c (stem ++ String "." w)) = String "." w).
    simpl. now rewrite IH.
Qed.

(** The extension is an end of the name. *)
Lemma Ext_suffix (f : string) : exists stem, f = stem ++ fs.Ext f.
Proof.
  induction f as [|c f (stem & IH)].
  - now exists "".
  - simpl. destruct (fs.Ext f) as [|d e] eqn:He.
    + destruct (Ascii.eqb c "."); [now exists "" | ].
      exists (String c f). now rewrite string_app_nil_r.
    + exists (String c stem). simpl. now rewrite <- IH.
Qed.

End Extensions.

(** The files that [LoadConf] reads are the regular files directly inside
    the directory whose names end in [.conf] or in [.json], a name that is
    nothing but the extension included; a name that goes on after the
    extension, or a directory of such a name, is not among them. *)
Theorem candidates_by_name :
  forall (es : list (string * fs.node)) (f : string),
    In f (libcni.candidates es [".conf"; ".json"])
    <-> exists content stem : string,
          In (f, fs.File content) es
          /\ (f = stem ++ ".conf" \/ f = stem ++ ".json").
Proof.
  intros es f. rewrite candidates_has_ext. unfold libcni.has_ext.
  split.
  - intros (content & Hin & Hext).
    destruct (Ext_suffix f) as (stem & Hf).
    exists content, stem. split; [exact Hin|].
    destruct Hext as [H|[H|[]]]; rewrite <- H in Hf; auto.
  - intros (content & stem & Hin & Hf).
    exists content. split; [exact Hin|].
    destruct Hf as [->| ->].
    + left. symmetry. now apply (Ext_last_dot stem "conf").
    + right. left. symmetry. now apply (Ext_last_dot stem "json").
Qed.

(** ** The scenarios of [libcni_test], evaluated *)

Section Scenarios.
Import libcni conf_test.

Example LoadConf_finds_config :
  LoadConf LoadConf_root configDir "some-plugin"
  = Ok {| Network := NetConf_named "some-plugin" ""; Bytes := pluginConfig |}.
Proof. vm_compute. reflexivity. Qed.

Example LoadConf_no_directory :
  LoadConf no_configDir configDir "some-plugin"
  = Err (Error NotFound "no net configurations found").
Proof. reflexivity. Qed.

Example LoadConf_json_extension :
  LoadConf LoadConf_json_root configDir "some-plugin"
  = Ok {| Network := NetConf_named "some-plugin" ""; Bytes := pluginConfig |}.
Proof. vm_compute. reflexivity. Qed.

(** A file that is not called [.conf] or [.json] is no candidate, whatever
    it holds. *)
Example LoadConf_other_extension :
  LoadConf LoadConf_txt_root configDir "some-plugin"
  = Err (Error NotFound "no net configurations found").
Proof. reflexivity. Qed.

Example LoadConf_no_such_plugin :
  LoadConf LoadConf_root configDir "some-other-plugin"
  = Err (Error NotFound
           (dq "no net configuration with name 'some-other-plugin' in /tmp/plugin-conf")).
Proof. vm_compute. reflexivity. Qed.

Example LoadConf_malformed :
  LoadConf LoadConf_malformed_root configDir "some-plugin"
  = Err (Error ParseError "error parsing configuration: unexpected end of JSON input").
Proof. vm_compute. reflexivity. Qed.

Example LoadConf_nested :
  LoadConf LoadConf_nested_root configDir "deep"
  = Err (Error NotFound
           (dq "no net configuration with name 'deep' in /tmp/plugin-conf")).
Proof. vm_compute. reflexivity. Qed.

Example ConfFromFile_cannot_open :
  ConfFromFile LoadConf_root ["tmp"; "nope"; "not-here"]
  = Err (Error IOError
           "error reading /tmp/nope/not-here: open /tmp/nope/not-here: no such file or directory").
Proof. vm_compute. reflexivity. Qed.

Example LoadConfList_finds_list :
  LoadConfList LoadConfList_root configDir "some-list" = Ok expected_list.
Proof. vm_compute. reflexivity. Qed.

Example LoadConfList_no_directory :
  LoadConfList no_configDir configDir "some-plugin"
  = Err (Error NotFound "no net configuration lists found").
Proof. reflexivity. Qed.

Example LoadConfList_malformed :
  LoadConfList LoadConfList_malformed_root configDir "some-plugin"
  = Err (Error ParseError
           "error parsing configuration list: unexpected end of JSON input").
Proof. vm_compute. reflexivity. Qed.

(** The nested list of the suite has a comma too many and would not
    parse; it is never read. *)
Example LoadConfList_nested :
  ConfListFromBytes deepList
  = Err (Error ParseError "error parsing configuration list: invalid character")
  /\ LoadConfList
       (with_configDir
          [("50-whatever.conflist", fs.File configList);
           ("subdir1",
            fs.Dir [("subdir2", fs.Dir [("90-deep.conflist", fs.File deepList)])])])
       configDir "deep"
     = Err (Error NotFound
              (dq "no net configuration list with name 'deep' in /tmp/plugin-conf")).
Proof. split; vm_compute; reflexivity. Qed.

(** The bytes of a plugin are written anew: they occur nowhere in the
    file, and another layout of the file gives the same plugins. *)
Example plugin_bytes_not_sliced :
  Forall (fun conf => String.index 0 (Bytes conf) configList = None) expected_plugins
  /\ (exists l, ConfListFromBytes configList_reordered = Ok l
                /\ NetworkConfigList.Plugins l = expected_plugins).
Proof.
  split.
  - repeat constructor.
  - eexists. split; vm_compute; reflexivity.
Qed.

Example InjectConf_new_key :
  InjectConf testNetConfig "test" (Some (Json.Str "test"))
  = Ok {| Network := NetConf_named "some-plugin" "";
          Bytes := dq "{'name':'some-plugin','test':'test'}" |}.
Proof. vm_compute. reflexivity. Qed.

Example InjectConf_changed_value :
  (c <- InjectConf testNetConfig "test" (Some (Json.Str "test")) ;;
   InjectConf c "test" (Some (Json.Str "changedValue")))
  = Ok {| Network := NetConf_named "some-plugin" "";
          Bytes := dq "{'name':'some-plugin','test':'changedValue'}" |}.
Proof. vm_compute. reflexivity. Qed.

Example InjectConf_existing_key_and_value :
  (c <- InjectConf testNetConfig "test" (Some (Json.Str "test")) ;;
   InjectConf c "test" (Some (Json.Str "test")))
  = Ok {| Network := NetConf_named "some-plugin" "";
          Bytes := dq "{'name':'some-plugin','test':'test'}" |}.
Proof. vm_compute. reflexivity. Qed.

Example InjectConf_sub_fields :
  (c <- InjectConf testNetConfig "dns" (Some newDNS) ;;
   InjectConf c "type" (Some (Json.Str "bridge")))
  = Ok {| Network :=
            {| types.CNIVersion := ""; types.Name := "some-plugin";
               types.Type_ := "bridge";
               types.Dns := {| types.Nameservers := ["server1"; "server2"];
                               types.Domain := "local";
                               types.Search := []; types.Options := [] |} |};
          Bytes := dq "{'dns':{'domain':'local','nameservers':['server1','server2']},'name':'some-plugin','type':'bridge'}" |}.
Proof. vm_compute. reflexivity. Qed.

End Scenarios.
